(** * ASCIISwapTool: clone the latest Maya ASCII file of a shot

    A shallow embedding of [ASCIISwapToolv2.py] and the properties of its
    token extraction, version selection, content rewriting and orchestration.

    Conventions of the embedding.
    - A Python [str] is a [list ascii]; characters are restricted to the
      code points U+0000..U+00FF.  In that range [\d] is exactly [0-9] and
      case folding of the letters used by the patterns is ASCII case folding.
    - [os.path] is [posixpath].
    - The file system is an explicit tree that is threaded through the
      orchestrator; the widgets and message boxes are recorded as a trace of
      events. *)

From Stdlib Require Import List Ascii String Bool Arith ZArith Lia.
Import ListNotations.

Open Scope string_scope.
Open Scope list_scope.


(** ** Strings *)

Definition str := list ascii.

(** String literals of the source. *)
Definition lit (s : string) : str := list_ascii_of_string s.

Definition str_eqb (a b : str) : bool :=
  if list_eq_dec ascii_dec a b then true else false.

(** [s.startswith(p)] *)
Fixpoint starts_with (p s : str) : bool :=
  match p with
  | [] => true
  | c :: p' =>
      match s with
      | [] => false
      | d :: s' => Ascii.eqb c d && starts_with p' s'
      end
  end.

(** [x in s] for strings: some position of [s] starts with [x]. *)
Fixpoint contains (x s : str) : bool :=
  starts_with x s ||
  match s with
  | [] => false
  | _ :: s' => contains x s'
  end.

(** [agree u v]: the two strings coincide as far as both go. *)
Fixpoint agree (u v : str) : bool :=
  match u, v with
  | c :: u', d :: v' => Ascii.eqb c d && agree u' v'
  | _, _ => true
  end.

(** The non-empty suffixes of a string, longest first. *)
Fixpoint tails (s : str) : list str :=
  match s with
  | [] => []
  | _ :: s' => s :: tails s'
  end.

(** [clash x y]: an occurrence of [x] in a text can overlap a copy of [y]
    in it, because [x] can begin inside [y], or begin before [y] and reach
    into it. *)
Definition clash (x y : str) : bool :=
  existsb (fun t => agree t x) (tails y)
  || existsb (fun t => agree t y) (tails (tl x)).

(** *** [str.replace]

    [s.replace(old, new)] scans [s] from the left; at a position where [old]
    starts it emits [new] and resumes after the occurrence, elsewhere it
    copies one character.  [skip] counts the characters of the current
    occurrence that are still to be passed over. *)
Fixpoint replace_from (old new s : str) (skip : nat) : str :=
  match s with
  | [] => []
  | c :: s' =>
      match skip with
      | S k => replace_from old new s' k
      | O =>
          if starts_with old s
          then new ++ replace_from old new s' (List.length old - 1)
          else c :: replace_from old new s' 0
      end
  end.

(** With an empty [old], Python inserts [new] before every character and at
    the end. *)
Definition replace (old new s : str) : str :=
  match old with
  | [] => new ++ flat_map (fun c => c :: new) s
  | _ :: _ => replace_from old new s 0
  end.


(** [s[i:j]] for [0 <= i <= j]. *)
Definition slice (s : str) (i j : nat) : str := firstn (j - i) (skipn i s).

(** [str.split(sep)] for a one-character separator: the pieces between the
    separators, at least one piece. *)
Fixpoint split_on (sep : ascii) (s : str) : list str :=
  match s with
  | [] => [[]]
  | c :: s' =>
      if Ascii.eqb c sep then [] :: split_on sep s'
      else
        match split_on sep s' with
        | [] => [[c]]
        | w :: ws => (c :: w) :: ws
        end
  end.

(** [sep.join(pieces)] *)
Fixpoint join_with (sep : str) (pieces : list str) : str :=
  match pieces with
  | [] => []
  | [w] => w
  | w :: ws => w ++ sep ++ join_with sep ws
  end.

(** [s.rfind(c)] for a one-character [c]: the last index of [c], or [-1]. *)
Fixpoint rfind_from (c : ascii) (s : str) (i last : Z) : Z :=
  match s with
  | [] => last
  | d :: s' => rfind_from c s' (i + 1)%Z (if Ascii.eqb d c then i else last)
  end.

Definition rfind (c : ascii) (s : str) : Z := rfind_from c s 0%Z (-1)%Z.

(** [str.isspace] on one character of the range. *)
Definition is_space (c : ascii) : bool :=
  let n := nat_of_ascii c in
  (((9 <=? n) && (n <=? 13)) || ((28 <=? n) && (n <=? 32))
   || (n =? 133) || (n =? 160))%nat.

Fixpoint lstrip (s : str) : str :=
  match s with
  | [] => []
  | c :: s' => if is_space c then lstrip s' else s
  end.

(** [s.strip()] *)
Definition strip (s : str) : str := rev (lstrip (rev (lstrip s))).

Definition is_digit (c : ascii) : bool :=
  let n := nat_of_ascii c in ((48 <=? n) && (n <=? 57))%nat.

(** ASCII lower-casing, the case folding that matters for the literal
    characters of the patterns below. *)
Definition lower (c : ascii) : ascii :=
  let n := nat_of_ascii c in
  if ((65 <=? n) && (n <=? 90))%nat then ascii_of_nat (n + 32) else c.

(** [int(s)] on a run of decimal digits. *)
Definition digit_val (c : ascii) : Z := Z.of_nat (nat_of_ascii c - 48).

Definition int_of_digits (s : str) : Z :=
  fold_left (fun acc c => (10 * acc + digit_val c)%Z) s 0%Z.

(** ** Regular expressions

    The fragment of [re] the program uses: literal characters, [\d], [.],
    greedy [*] on one of those, [^], [$] and one capturing group.  [x+] is
    written [x x*].  The matcher backtracks in Python's order: a star first
    tries to take one more character. *)

Inductive atom : Type :=
| Chr (c : ascii)
| DigitCls
| AnyChar.

Inductive re_node : Type :=
| One (a : atom)
| Star (a : atom)
| Bos
| Eos
| GOpen
| GClose.

Definition regex := list re_node.

Definition newline : ascii := "010".

(** Whether one character matches an atom; [ic] is [re.IGNORECASE]. *)
Definition atom_ok (ic : bool) (a : atom) (c : ascii) : bool :=
  match a with
  | Chr p => if ic then Ascii.eqb (lower p) (lower c) else Ascii.eqb p c
  | DigitCls => is_digit c
  | AnyChar => negb (Ascii.eqb c newline)
  end.

(** [$] matches at the end and just before a final newline. *)
Definition at_end (s : str) : bool :=
  match s with
  | [] => true
  | [c] => Ascii.eqb c newline
  | _ => false
  end.

(** The span of a match and of its group 1, as positions in the subject. *)
Record span := { sp_end : nat; g_start : nat; g_end : nat }.

(** Match [ns] against [s], the rest of the subject from position [pos];
    [gs], [ge] are the bounds of group 1 recorded so far. *)
Fixpoint match_here (ic : bool) (ns : regex) (s : str) (pos gs ge : nat)
  : option span :=
  match ns with
  | [] => Some {| sp_end := pos; g_start := gs; g_end := ge |}
  | One a :: ns' =>
      match s with
      | c :: s' =>
          if atom_ok ic a c then match_here ic ns' s' (S pos) gs ge else None
      | [] => None
      end
  | Star a :: ns' =>
      (fix star (s : str) (pos : nat) {struct s} : option span :=
         match s with
         | c :: s' =>
             if atom_ok ic a c then
               match star s' (S pos) with
               | Some r => Some r
               | None => match_here ic ns' s pos gs ge
               end
             else match_here ic ns' s pos gs ge
         | [] => match_here ic ns' s pos gs ge
         end) s pos
  | Bos :: ns' => if (pos =? 0)%nat then match_here ic ns' s pos gs ge else None
  | Eos :: ns' => if at_end s then match_here ic ns' s pos gs ge else None
  | GOpen :: ns' => match_here ic ns' s pos pos ge
  | GClose :: ns' => match_here ic ns' s pos gs pos
  end.

(** A match object: the subject, where the match starts, and its span. *)
Record match_obj := { m_subject : str; m_start : nat; m_span : span }.

(** [m.group()] and [m.group(1)] *)
Definition group0 (m : match_obj) : str :=
  slice (m_subject m) (m_start m) (sp_end (m_span m)).

Definition group1 (m : match_obj) : str :=
  slice (m_subject m) (g_start (m_span m)) (g_end (m_span m)).

(** [re.match(pattern, s, flags)] *)
Definition re_match (ic : bool) (ns : regex) (s : str) : option match_obj :=
  match match_here ic ns s 0 0 0 with
  | Some sp => Some {| m_subject := s; m_start := 0; m_span := sp |}
  | None => None
  end.

(** The leftmost start position, from [pos] on, at which [ns] matches. *)
Fixpoint search_from (ic : bool) (ns : regex) (s : str) (pos : nat)
  : option (nat * span) :=
  match match_here ic ns s pos 0 0 with
  | Some sp => Some (pos, sp)
  | None =>
      match s with
      | [] => None
      | _ :: s' => search_from ic ns s' (S pos)
      end
  end.

(** [re.search(pattern, s, flags)] *)
Definition re_search (ic : bool) (ns : regex) (s : str) : option match_obj :=
  match search_from ic ns s 0 with
  | Some (i, sp) => Some {| m_subject := s; m_start := i; m_span := sp |}
  | None => None
  end.

Definition chars (s : string) : regex := map (fun c => One (Chr c)) (lit s).

(** The patterns [ep_\d+], [sq_\d+] and [sh_\d+]. *)
Definition re_token (prefix : string) : regex :=
  chars prefix ++ [One DigitCls; Star DigitCls].

Definition re_ep : regex := re_token "ep_".
Definition re_sq : regex := re_token "sq_".
Definition re_sh : regex := re_token "sh_".

(** The pattern [.*_v\d+\.ma$] of [find_all_ma_files]. *)
Definition version_regex : regex :=
  [Star AnyChar] ++ chars "_v" ++ [One DigitCls; Star DigitCls]
  ++ chars ".ma" ++ [Eos].

(** The pattern [_v(\d+)\.ma$] of [extract_version_number]. *)
Definition re_version_number : regex :=
  chars "_v" ++ [GOpen; One DigitCls; Star DigitCls; GClose]
  ++ chars ".ma" ++ [Eos].

(** The pattern [^ ( .* ) _v \d+ $] of [clone_latest], written here with
    spaces between its parts. *)
Definition re_base_version : regex :=
  [Bos; GOpen; Star AnyChar; GClose] ++ chars "_v"
  ++ [One DigitCls; Star DigitCls; Eos].

(** ** [os.path] *)

Definition slash : ascii := "/".
Definition backslash : ascii := "\".
Definition dot : ascii := ".".

Definition ends_with (p s : str) : bool := starts_with (rev p) (rev s).

(** [os.path.join(a, b)] *)
Definition path_join (a b : str) : str :=
  if starts_with [slash] b then b
  else if str_eqb a [] || ends_with [slash] a then a ++ b
  else a ++ [slash] ++ b.

(** [os.path.basename(p)]: what follows the last slash. *)
Definition basename (p : str) : str :=
  skipn (Z.to_nat (rfind slash p + 1)) p.

(** The loop of [splitext] that looks for a character other than a dot
    before the last dot. *)
Fixpoint has_non_dot (s : str) : bool :=
  match s with
  | [] => false
  | c :: s' => if Ascii.eqb c dot then has_non_dot s' else true
  end.

(** [os.path.splitext(p)] *)
Definition splitext (p : str) : str * str :=
  let sepIndex := rfind slash p in
  let dotIndex := rfind dot p in
  if (sepIndex <? dotIndex)%Z then
    if has_non_dot (slice p (Z.to_nat (sepIndex + 1)) (Z.to_nat dotIndex))
    then (firstn (Z.to_nat dotIndex) p, skipn (Z.to_nat dotIndex) p)
    else (p, [])
  else (p, []).

(** The loop of [normpath] over the components; [new_comps] is kept
    reversed. *)
Fixpoint normpath_comps (initial_slashes : nat) (comps : list str)
  (new_comps : list str) : list str :=
  match comps with
  | [] => rev new_comps
  | comp :: comps' =>
      if str_eqb comp [] || str_eqb comp [dot] then
        normpath_comps initial_slashes comps' new_comps
      else if negb (str_eqb comp [dot; dot])
              || ((initial_slashes =? 0)%nat
                  && match new_comps with [] => true | _ => false end)
              || match new_comps with
                 | last :: _ => str_eqb last [dot; dot]
                 | [] => false
                 end
      then normpath_comps initial_slashes comps' (comp :: new_comps)
      else normpath_comps initial_slashes comps' (tl new_comps)
  end.

(** [os.path.normpath(path)] *)
Definition normpath (path : str) : str :=
  match path with
  | [] => [dot]
  | _ =>
      let initial_slashes :=
        if starts_with [slash] path then
          if starts_with [slash; slash] path
             && negb (starts_with [slash; slash; slash] path)
          then 2 else 1
        else 0 in
      let comps := normpath_comps initial_slashes (split_on slash path) [] in
      let p := repeat slash initial_slashes ++ join_with [slash] comps in
      match p with
      | [] => [dot]
      | _ => p
      end
  end.

(** ** The file system

    A tree of named entries.  A file holds the text that reading it as UTF-8
    returns, or nothing when its bytes do not decode.  The order of a
    directory's entries is the order in which it is listed.

    The tree has directories and regular, readable files only: links,
    FIFOs, sockets and files that cannot be opened are outside it, so what
    is proved about reading holds for trees of that kind. *)

Unset Elimination Schemes.
Inductive fnode : Type :=
| File (text : option str)
| Dir (entries : list (str * fnode)).
Set Elimination Schemes.

Inductive os_error : Type :=
| FileNotFound (p : str)
| NotADirectory (p : str)
| FileExists (p : str)
| IsADirectory (p : str)
| DecodeError.

(** The text of an [OSError], as it is put into the messages.  The texts
    stand for Python's: the message of a decoding error also names the
    offending byte, and [os.makedirs] names the first folder that it could
    not create where [mkdirs] below names the whole path.  No property
    depends on the wording. *)
Definition error_text (e : os_error) : str :=
  match e with
  | FileNotFound p =>
      lit "[Errno 2] No such file or directory: '" ++ p ++ lit "'"
  | NotADirectory p => lit "[Errno 20] Not a directory: '" ++ p ++ lit "'"
  | FileExists p => lit "[Errno 17] File exists: '" ++ p ++ lit "'"
  | IsADirectory p => lit "[Errno 21] Is a directory: '" ++ p ++ lit "'"
  | DecodeError => lit "'utf-8' codec can't decode bytes"
  end.

Fixpoint lookup (name : str) (es : list (str * fnode)) : option fnode :=
  match es with
  | [] => None
  | (n, x) :: es' => if str_eqb n name then Some x else lookup name es'
  end.

(** Replace the first entry called [name]. *)
Fixpoint update (name : str) (x : fnode) (es : list (str * fnode))
  : list (str * fnode) :=
  match es with
  | [] => []
  | (n, y) :: es' =>
      if str_eqb n name then (n, x) :: es' else (n, y) :: update name x es'
  end.

(** The names a path walks through from the root: empty names and [.] are
    dropped and [..] steps back.  Relative paths start at the root.

    The step back is taken on the text, as [normpath] takes it.  The
    system takes it in the tree, which is the same when the name before
    [..] is an existing directory; on a path such as [tmp/../x] with no
    [tmp], [os.makedirs] creates [tmp] on its way.  What is proved about
    the directories that a run creates is stated for paths without [..]
    (see [no_dotdot]). *)
Fixpoint resolve_comps (comps : list str) (acc : list str) : list str :=
  match comps with
  | [] => rev acc
  | c :: comps' =>
      if str_eqb c [] || str_eqb c [dot] then resolve_comps comps' acc
      else if str_eqb c [dot; dot] then resolve_comps comps' (tl acc)
      else resolve_comps comps' (c :: acc)
  end.

Definition resolve (p : str) : list str :=
  resolve_comps (split_on slash p) [].

Fixpoint get (n : fnode) (names : list str) : option fnode :=
  match names with
  | [] => Some n
  | c :: names' =>
      match n with
      | Dir es =>
          match lookup c es with
          | Some x => get x names'
          | None => None
          end
      | File _ => None
      end
  end.

(** [os.path.isdir], [os.path.isfile] *)
Definition isdir (fs : fnode) (p : str) : bool :=
  match get fs (resolve p) with
  | Some (Dir _) => true
  | _ => false
  end.

Definition isfile (fs : fnode) (p : str) : bool :=
  match get fs (resolve p) with
  | Some (File _) => true
  | _ => false
  end.

(** A chain of new, nested directories. *)
Fixpoint new_dirs (names : list str) : fnode :=
  match names with
  | [] => Dir []
  | c :: names' => Dir [(c, new_dirs names')]
  end.

(** [os.makedirs(p, exist_ok=True)] along [names]: existing directories are
    entered, missing ones are created, a file in the way is an error. *)
Fixpoint mkdirs (p : str) (n : fnode) (names : list str)
  : os_error + fnode :=
  match n with
  | File _ =>
      match names with
      | [] => inl (FileExists p)
      | _ => inl (NotADirectory p)
      end
  | Dir es =>
      match names with
      | [] => inr n
      | c :: names' =>
          match lookup c es with
          | Some x =>
              match mkdirs p x names' with
              | inr x' => inr (Dir (update c x' es))
              | inl e => inl e
              end
          | None => inr (Dir (es ++ [(c, new_dirs names')]))
          end
      end
  end.

Definition makedirs (fs : fnode) (p : str) : os_error + fnode :=
  mkdirs p fs (resolve p).

(** [open(p, "w").write(text)]: the parent must be a directory; an existing
    file is overwritten in place, a new one is listed last. *)
Fixpoint put_file (p : str) (n : fnode) (names : list str) (text : str)
  : os_error + fnode :=
  match names with
  | [] =>
      match n with
      | File _ => inr (File (Some text))
      | Dir _ => inl (IsADirectory p)
      end
  | c :: names' =>
      match n with
      | File _ => inl (NotADirectory p)
      | Dir es =>
          match lookup c es with
          | Some x =>
              match put_file p x names' text with
              | inr x' => inr (Dir (update c x' es))
              | inl e => inl e
              end
          | None =>
              match names' with
              | [] => inr (Dir (es ++ [(c, File (Some text))]))
              | _ => inl (FileNotFound p)
              end
          end
      end
  end.

Definition write_file (fs : fnode) (p : str) (text : str)
  : os_error + fnode :=
  put_file p fs (resolve p) text.

(** [open(p, "r", encoding="utf-8").read()] *)
Definition read_file (fs : fnode) (p : str) : os_error + str :=
  match get fs (resolve p) with
  | Some (File (Some text)) => inr text
  | Some (File None) => inl DecodeError
  | Some (Dir _) => inl (IsADirectory p)
  | None => inl (FileNotFound p)
  end.

Definition is_dir_node (x : fnode) : bool :=
  match x with Dir _ => true | File _ => false end.

Definition dirnames (es : list (str * fnode)) : list str :=
  map fst (filter (fun e => is_dir_node (snd e)) es).

Definition filenames (es : list (str * fnode)) : list str :=
  map fst (filter (fun e => negb (is_dir_node (snd e))) es).

(** [os.walk(top)], top-down: a directory's triple, then the walks of its
    subdirectories in listing order. *)
Fixpoint walk (top : str) (n : fnode) : list (str * list str * list str) :=
  match n with
  | File _ => []
  | Dir es =>
      (top, dirnames es, filenames es)
      :: flat_map (fun e => walk (path_join top (fst e)) (snd e)) es
  end.

Definition os_walk (fs : fnode) (top : str)
  : list (str * list str * list str) :=
  match get fs (resolve top) with
  | Some n => walk top n
  | None => []
  end.

(** ** Helper functions of the program *)

(** [find_token(pattern, path)]: the first substring of [path], with its
    backslashes turned into slashes, that matches [pattern]. *)
Definition find_token (pattern : regex) (path : str) : option str :=
  match re_search false pattern (replace [backslash] [slash] path) with
  | Some m => Some (group0 m)
  | None => None
  end.

(** The inner loop of [find_all_ma_files] over the names of one directory. *)
Definition matching_files (dirpath : str) (filenames : list str) : list str :=
  map (path_join dirpath)
      (filter (fun fn =>
                 match re_match true version_regex fn with
                 | Some _ => true
                 | None => false
                 end) filenames).

(** [find_all_ma_files(root_folder)] *)
Definition find_all_ma_files (fs : fnode) (root_folder : str) : list str :=
  flat_map (fun t => matching_files (fst (fst t)) (snd t))
           (os_walk fs root_folder).

(** [extract_version_number(filename)] *)
Definition extract_version_number (filename : str) : option Z :=
  match re_search true re_version_number filename with
  | Some m => Some (int_of_digits (group1 m))
  | None => None
  end.

(** The loop of [select_highest_version], from a state
    [(best_path, best_ver)]. *)
Fixpoint select_loop (ma_paths : list str) (best_path : option str)
  (best_ver : Z) : option str :=
  match ma_paths with
  | [] => best_path
  | p :: rest =>
      let fn := basename p in
      match extract_version_number fn with
      | Some ver =>
          if (best_ver <? ver)%Z then select_loop rest (Some p) ver
          else select_loop rest best_path best_ver
      | None => select_loop rest best_path best_ver
      end
  end.

(** [select_highest_version(ma_paths)] *)
Definition select_highest_version (ma_paths : list str) : option str :=
  select_loop ma_paths None (-1)%Z.

(** ** The orchestrator *)

(** What the run does to its surroundings, in order. *)
Inductive event : Type :=
| ShowError (title message : str)
| AskYesNo (title message : str)
| ShowInfo (title message : str)
| StatusLabel (text fg : str)
| MakeDirs (path : str)
| ReadFile (path : str)
| WriteFile (path : str) (text : str).

(** Python's truth value of a token that is [None] or a string. *)
Definition truthy (o : option str) : bool :=
  match o with
  | Some (_ :: _) => true
  | _ => false
  end.

(** How an f-string shows a token. *)
Definition show (o : option str) : str :=
  match o with
  | Some s => s
  | None => lit "None"
  end.

(** The string held by a token that passed the truth test. *)
Definition the_str (o : option str) : str :=
  match o with
  | Some s => s
  | None => []
  end.

(** The five replacements of step 5, in the order of the source. *)
Definition rewrite_content
  (old_ep new_ep old_sq new_sq old_sh new_sh : str)
  (latest_fn new_fn base_noext base_before_ver : str) (content : str) : str :=
  let content := replace old_ep new_ep content in
  let content := replace old_sq new_sq content in
  let content := replace old_sh new_sh content in
  let content := replace latest_fn new_fn content in
  let content := replace base_noext (base_before_ver ++ lit "_v001") content in
  content.

Definition nl : str := [newline].

(** The message boxes and status texts of [clone_latest]. *)
Definition err_bad_source : event :=
  ShowError (lit "Error") (lit "Please choose a valid Source Shot folder.").

Definition err_no_dest : event :=
  ShowError (lit "Error") (lit "Please choose a Destination Shot folder.").

Definition err_source_tokens (old_ep old_sq old_sh : option str) : event :=
  ShowError (lit "Error")
    (lit "Source folder must contain ep_###, sq_###, and sh_###." ++ nl
     ++ lit "Found: ep=" ++ show old_ep ++ lit ", sq=" ++ show old_sq
     ++ lit ", sh=" ++ show old_sh).

Definition err_dest_tokens (new_ep new_sq new_sh : option str) : event :=
  ShowError (lit "Error")
    (lit "Destination folder must contain ep_###, sq_###, and sh_###." ++ nl
     ++ lit "Found: ep=" ++ show new_ep ++ lit ", sq=" ++ show new_sq
     ++ lit ", sh=" ++ show new_sh).

Definition err_same_folder : event :=
  ShowError (lit "Error") (lit "Source and Destination folders must differ.").

Definition err_no_files : event :=
  ShowError (lit "Error")
    (lit "No Maya ASCII files matching '*_v###.ma' found under source folder.").

Definition err_undetermined : event :=
  ShowError (lit "Error")
    (lit "Could not determine the latest-version .ma file.").

Definition err_bad_name (latest_fn : str) : event :=
  ShowError (lit "Error")
    (lit "Latest .ma filename does not match pattern '*_v###.ma':" ++ nl
     ++ lit "  " ++ latest_fn).

Definition err_makedirs (e : os_error) : event :=
  ShowError (lit "Error")
    (lit "Could not create Destination folder:" ++ nl ++ error_text e).

Definition ask_overwrite (new_fn : str) : event :=
  AskYesNo (lit "Overwrite?")
    (lit "A file named '" ++ new_fn
     ++ lit "' already exists in the destination." ++ nl
     ++ lit "Do you want to overwrite it?").

Definition status_canceled : event :=
  StatusLabel (lit "Operation canceled by user.") (lit "orange").

Definition err_read (latest_ma : str) (e : os_error) : event :=
  ShowError (lit "Error")
    (lit "Failed to read source .ma:" ++ nl ++ latest_ma ++ nl
     ++ error_text e).

Definition err_write (dest_fullpath : str) (e : os_error) : event :=
  ShowError (lit "Error")
    (lit "Failed to write new .ma:" ++ nl ++ dest_fullpath ++ nl
     ++ error_text e).

Definition info_success (latest_ma dest_fullpath : str)
  (old_ep new_ep old_sq new_sq old_sh new_sh : str) : event :=
  ShowInfo (lit "Success")
    (lit "Cloned:" ++ nl ++ lit "  " ++ latest_ma ++ nl ++ lit "?" ++ nl
     ++ lit "  " ++ dest_fullpath ++ nl ++ nl
     ++ lit "(Tokens: " ++ old_ep ++ lit "?" ++ new_ep
     ++ lit ", " ++ old_sq ++ lit "?" ++ new_sq
     ++ lit ", " ++ old_sh ++ lit "?" ++ new_sh
     ++ lit "; version ? v001)").

Definition status_completed : event :=
  StatusLabel (lit "Clone completed successfully.") (lit "green").

(** [CloneOneLatestGUI.clone_latest]: the texts of the two entries, the
    answer the user gives if asked to overwrite, and the file system; the
    result is the trace of the run and the file system it leaves. *)
Definition clone_latest (src_entry dst_entry : str) (answer : bool)
  (fs : fnode) : list event * fnode :=
  let source_root := strip src_entry in
  let dest_root := strip dst_entry in
  (* 1) Validate inputs *)
  if str_eqb source_root [] || negb (isdir fs source_root) then
    ([err_bad_source], fs)
  else if str_eqb dest_root [] then
    ([err_no_dest], fs)
  else
  let src_norm := replace [backslash] [slash] source_root in
  let dst_norm := replace [backslash] [slash] dest_root in
  let old_ep := find_token re_ep src_norm in
  let old_sq := find_token re_sq src_norm in
  let old_sh := find_token re_sh src_norm in
  if negb (truthy old_ep && truthy old_sq && truthy old_sh) then
    ([err_source_tokens old_ep old_sq old_sh], fs)
  else
  let new_ep := find_token re_ep dst_norm in
  let new_sq := find_token re_sq dst_norm in
  let new_sh := find_token re_sh dst_norm in
  if negb (truthy new_ep && truthy new_sq && truthy new_sh) then
    ([err_dest_tokens new_ep new_sq new_sh], fs)
  else if str_eqb (normpath source_root) (normpath dest_root) then
    ([err_same_folder], fs)
  else
  (* 2) Gather all versioned .ma files *)
  let all_ma := find_all_ma_files fs source_root in
  match all_ma with
  | [] => ([err_no_files], fs)
  | _ :: _ =>
  (* 3) Select the file with the highest version *)
  let latest := select_highest_version all_ma in
  if negb (truthy latest) then ([err_undetermined], fs)
  else
  let latest_ma := the_str latest in
  let latest_fn := basename latest_ma in
  let base_noext := fst (splitext latest_fn) in
  match re_match true re_base_version base_noext with
  | None => ([err_bad_name latest_fn], fs)
  | Some m =>
  let base_before_ver := group1 m in
  (* 4) Compute new filename and ensure dest folder exists *)
  let new_fn := base_before_ver ++ lit "_v001.ma" in
  match makedirs fs dest_root with
  | inl e => ([MakeDirs dest_root; err_makedirs e], fs)
  | inr fs1 =>
  let dest_fullpath := path_join dest_root new_fn in
  let exists_already := isfile fs1 dest_fullpath in
  let asked := if exists_already then [ask_overwrite new_fn] else [] in
  if exists_already && negb answer then
    ([MakeDirs dest_root] ++ asked ++ [status_canceled], fs1)
  else
  (* 5) Read, replace tokens, write out *)
  match read_file fs1 latest_ma with
  | inl e =>
    ([MakeDirs dest_root] ++ asked ++ [ReadFile latest_ma; err_read latest_ma e],
     fs1)
  | inr content =>
  let content :=
    rewrite_content (the_str old_ep) (the_str new_ep)
                    (the_str old_sq) (the_str new_sq)
                    (the_str old_sh) (the_str new_sh)
                    latest_fn new_fn base_noext base_before_ver content in
  match write_file fs1 dest_fullpath content with
  | inl e =>
    ([MakeDirs dest_root] ++ asked
     ++ [ReadFile latest_ma; WriteFile dest_fullpath content;
         err_write dest_fullpath e], fs1)
  | inr fs2 =>
    ([MakeDirs dest_root] ++ asked
     ++ [ReadFile latest_ma; WriteFile dest_fullpath content;
         info_success latest_ma dest_fullpath
           (the_str old_ep) (the_str new_ep) (the_str old_sq)
           (the_str new_sq) (the_str old_sh) (the_str new_sh);
         status_completed], fs2)
  end end end end end.

(** ** Reference descriptions used by the properties *)

(** The rewriting of the scenario of the specification: from
    [ep_01/sq_010/sh_020] to [ep_02/sq_020/sh_030], latest file
    [lighting_v003.ma]. *)
Definition scenario_rewrite (content : str) : str :=
  rewrite_content (lit "ep_01") (lit "ep_02") (lit "sq_010") (lit "sq_020")
    (lit "sh_020") (lit "sh_030")
    (lit "lighting_v003.ma") (lit "lighting_v001.ma")
    (lit "lighting_v003") (lit "lighting") content.

(** The longest run of digits at the start of a string. *)
Fixpoint take_digits (s : str) : str :=
  match s with
  | [] => []
  | c :: s' => if is_digit c then c :: take_digits s' else []
  end.

(** The token that starts at the head of [s]: [prefix], then all the
    digits that follow, at least one. *)
Definition token_at (prefix s : str) : option str :=
  if starts_with prefix s then
    match take_digits (skipn (List.length prefix) s) with
    | [] => None
    | ds => Some (prefix ++ ds)
    end
  else None.

(** The token at the leftmost position of [s] that has one. *)
Fixpoint first_token (prefix s : str) : option str :=
  match token_at prefix s with
  | Some t => Some t
  | None =>
      match s with
      | [] => None
      | _ :: s' => first_token prefix s'
      end
  end.

(** [accepts ic ns pos s]: the pattern [ns] can match at the head of [s],
    the rest of the subject from position [pos]. *)
Inductive accepts (ic : bool) : regex -> nat -> str -> Prop :=
| acc_nil pos s : accepts ic [] pos s
| acc_one a ns pos c s :
    atom_ok ic a c = true -> accepts ic ns (S pos) s ->
    accepts ic (One a :: ns) pos (c :: s)
| acc_star_more a ns pos c s :
    atom_ok ic a c = true -> accepts ic (Star a :: ns) (S pos) s ->
    accepts ic (Star a :: ns) pos (c :: s)
| acc_star_stop a ns pos s :
    accepts ic ns pos s -> accepts ic (Star a :: ns) pos s
| acc_bos ns s : accepts ic ns 0 s -> accepts ic (Bos :: ns) 0 s
| acc_eos ns pos s :
    at_end s = true -> accepts ic ns pos s -> accepts ic (Eos :: ns) pos s
| acc_open ns pos s : accepts ic ns pos s -> accepts ic (GOpen :: ns) pos s
| acc_close ns pos s : accepts ic ns pos s -> accepts ic (GClose :: ns) pos s.

(** The version that [select_highest_version] reads off a path. *)
Definition version_of (p : str) : option Z :=
  extract_version_number (basename p).

(** A directory of the specification's example: three versions of one
    scene. *)
Definition scenes_fs : fnode :=
  Dir [(lit "shots",
        Dir [(lit "scene_v1.ma", File (Some (lit "one")));
             (lit "scene_v10.ma", File (Some (lit "ten")));
             (lit "scene_v2.ma", File (Some (lit "two")))])].

(** Names a directory can list: not empty, not [.] or [..], without a
    slash. *)
Definition name_ok (name : str) : bool :=
  negb (str_eqb name []) && negb (str_eqb name [dot])
  && negb (str_eqb name [dot; dot])
  && negb (existsb (Ascii.eqb slash) name).

(** A tree whose entries all have such names. *)
Fixpoint names_ok (n : fnode) : bool :=
  match n with
  | File _ => true
  | Dir es => forallb (fun e => name_ok (fst e) && names_ok (snd e)) es
  end.

(** The ordered substitutions of step 5 as a list of pairs, and their
    application one after the other to the whole text. *)
Definition substitutions
  (old_ep new_ep old_sq new_sq old_sh new_sh : str)
  (latest_fn new_fn base_noext base_before_ver : str) : list (str * str) :=
  [(old_ep, new_ep); (old_sq, new_sq); (old_sh, new_sh);
   (latest_fn, new_fn); (base_noext, base_before_ver ++ lit "_v001")].

Definition apply_substitutions (pairs : list (str * str)) (content : str)
  : str :=
  fold_left (fun c p => replace (fst p) (snd p) c) pairs content.

(** The substitutions as the specification words them: the fifth one
    replaces the old file name without extension and without version. *)
Definition spec_substitutions
  (old_ep new_ep old_sq new_sq old_sh new_sh : str)
  (latest_fn new_fn base_before_ver : str) : list (str * str) :=
  [(old_ep, new_ep); (old_sq, new_sq); (old_sh, new_sh);
   (latest_fn, new_fn); (base_before_ver, base_before_ver ++ lit "_v001")].

(** Global replacement of the non-overlapping occurrences of [old], found
    from the left. *)
Inductive replaced (old new : str) : str -> str -> Prop :=
| replaced_nil : replaced old new [] []
| replaced_hit rest r :
    replaced old new rest r -> replaced old new (old ++ rest) (new ++ r)
| replaced_miss c s r :
    starts_with old (c :: s) = false ->
    replaced old new s r -> replaced old new (c :: s) (c :: r).

(** The values that a run of [clone_latest] works with. *)
Definition src_token (pattern : regex) (src : str) : str :=
  the_str (find_token pattern (replace [backslash] [slash] (strip src))).

Definition dst_token (pattern : regex) (dst : str) : str :=
  the_str (find_token pattern (replace [backslash] [slash] (strip dst))).

Definition dest_path (dst : str) (m : match_obj) : str :=
  path_join (strip dst) (group1 m ++ lit "_v001.ma").

Definition rewritten (src dst latest_ma : str) (m : match_obj)
  (content : str) : str :=
  rewrite_content (src_token re_ep src) (dst_token re_ep dst)
    (src_token re_sq src) (dst_token re_sq dst)
    (src_token re_sh src) (dst_token re_sh dst)
    (basename latest_ma) (group1 m ++ lit "_v001.ma")
    (fst (splitext (basename latest_ma))) (group1 m) content.

(** A pattern without group marks. *)
Definition no_groups (ns : regex) : bool :=
  forallb (fun n => match n with GOpen | GClose => false | _ => true end) ns.

(** The file system of the scenario: the source shot holds
    [lighting_v003.ma], whose text refers to the shot and also mentions an
    unrelated [cache_v003]. *)
Definition scenario_fs : fnode :=
  Dir [(lit "show",
        Dir [(lit "ep_01",
              Dir [(lit "sq_010",
                    Dir [(lit "sh_020",
                          Dir [(lit "work",
                                Dir [(lit "lighting_v003.ma",
                                      File (Some (lit
  "file ep_01_sq_010_sh_020_lighting_v003; cache_v003")))])])])])])].

Definition scenario_src : str := lit "/show/ep_01/sq_010/sh_020/work".
Definition scenario_dst : str := lit "/show/ep_02/sq_020/sh_030/work".

(** The three prefixes of the naming tokens, and the strings that have the
    form of a token: a prefix followed by digits, at least one. *)
Definition token_prefix (pfx : string) : Prop :=
  pfx = "ep_" \/ pfx = "sq_" \/ pfx = "sh_".

Definition token_of (pfx : string) (t : str) : Prop :=
  exists ds, t = lit pfx ++ ds /\ ds <> [] /\ forallb is_digit ds = true.

(** ** Further descriptions used by the properties *)

(** Names that are pairwise different. *)
Fixpoint distinct (l : list str) : bool :=
  match l with
  | [] => true
  | x :: r => negb (existsb (str_eqb x) r) && distinct r
  end.

(** A tree in which no directory lists a name twice. *)
Fixpoint unique_names (n : fnode) : bool :=
  match n with
  | File _ => true
  | Dir es =>
      distinct (map fst es) && forallb (fun e => unique_names (snd e)) es
  end.

(** The events that tell the user something: an error box, the box of a
    success, or a text in the status label.  The question of the overwrite
    asks and is not one of them. *)
Definition is_notice (ev : event) : bool :=
  match ev with
  | ShowError _ _ | ShowInfo _ _ | StatusLabel _ _ => true
  | _ => false
  end.

(** A path none of whose components is [..]. *)
Definition no_dotdot (p : str) : bool :=
  negb (existsb (str_eqb [dot; dot]) (split_on slash p)).

(** The text after the three token steps of step 5, the text that the two
    steps on the file name receive. *)
Definition after_tokens (old_ep new_ep old_sq new_sq old_sh new_sh : str)
  (content : str) : str :=
  replace old_sh new_sh (replace old_sq new_sq (replace old_ep new_ep content)).

(** ** The window

    The state of the widgets that the methods read and write: the texts of
    the two entries, and the text and the colour of the status label. *)
Record gui := {
  src_entry : str;
  dst_entry : str;
  status_text : str;
  status_fg : str
}.

(** [CloneOneLatestGUI.__init__]: two empty entries and an empty status
    label in red. *)
Definition init_gui : gui :=
  {| src_entry := []; dst_entry := [];
     status_text := []; status_fg := lit "red" |}.

(** [browse_source]; [folder] is what the directory dialog returns, the
    empty string when it is dismissed. *)
Definition browse_source (folder : str) (g : gui) : gui :=
  match folder with
  | [] => g
  | _ :: _ =>
      {| src_entry := folder; dst_entry := dst_entry g;
         status_text := []; status_fg := status_fg g |}
  end.

(** [browse_dest] *)
Definition browse_dest (folder : str) (g : gui) : gui :=
  match folder with
  | [] => g
  | _ :: _ =>
      {| src_entry := src_entry g; dst_entry := folder;
         status_text := []; status_fg := status_fg g |}
  end.

(** What an event of a run does to the widgets: only
    [status_label.config] changes one. *)
Definition show_event (g : gui) (ev : event) : gui :=
  match ev with
  | StatusLabel text fg =>
      {| src_entry := src_entry g; dst_entry := dst_entry g;
         status_text := text; status_fg := fg |}
  | _ => g
  end.

(** The button: [clone_latest] on the texts of the two entries. *)
Definition press_clone (answer : bool) (g : gui) (fs : fnode)
  : gui * fnode :=
  let r := clone_latest (src_entry g) (dst_entry g) answer fs in
  (fold_left show_event (fst r) g, snd r).

(** What the user does in the window; the entries can be typed in too. *)
Inductive action : Type :=
| BrowseSource (folder : str)
| BrowseDest (folder : str)
| TypeSource (text : str)
| TypeDest (text : str)
| PressClone (answer : bool).

Definition handle (st : gui * fnode) (a : action) : gui * fnode :=
  let (g, fs) := st in
  match a with
  | BrowseSource folder => (browse_source folder g, fs)
  | BrowseDest folder => (browse_dest folder g, fs)
  | TypeSource text =>
      ({| src_entry := text; dst_entry := dst_entry g;
          status_text := status_text g; status_fg := status_fg g |}, fs)
  | TypeDest text =>
      ({| src_entry := src_entry g; dst_entry := text;
          status_text := status_text g; status_fg := status_fg g |}, fs)
  | PressClone answer => press_clone answer g fs
  end.

(** [main]: the window is created and handles what the user does, one
    action after the other. *)
Definition main (fs : fnode) (session : list action) : gui * fnode :=
  fold_left handle session (init_gui, fs).

(** Two small file systems: a shot whose only scene is at version 001, and
    a shot whose only scene does not decode as UTF-8. *)
Definition copy_fs : fnode :=
  Dir [(lit "p",
        Dir [(lit "ep_1",
              Dir [(lit "sq_1",
                    Dir [(lit "sh_1",
                          Dir [(lit "a",
                                Dir [(lit "x_v001.ma",
                                      File (Some (lit
  "ep_1 sq_1 sh_1 x_v001.ma x_v001")))])])])])])].

Definition undecodable_fs : fnode :=
  Dir [(lit "ep_1",
        Dir [(lit "sq_1",
              Dir [(lit "sh_1", Dir [(lit "a_v1.ma", File None)])])])].

(** A shot that holds a scene, and beside it a folder whose name matches
    the pattern of the versioned scenes. *)
Definition folder_fs : fnode :=
  Dir [(lit "shot",
        Dir [(lit "a_v9.ma", Dir [(lit "notes", File (Some (lit "x")))]);
             (lit "b_v2.ma", File (Some (lit "two")));
             (lit "ep_1",
              Dir [(lit "sq_1",
                    Dir [(lit "sh_1",
                          Dir [(lit "z_v7.ma", Dir []);
                               (lit "a_v1.ma", File (Some (lit "one")))])])])])].

(** The texts that the status label can show. *)
Definition status_known (g : gui) : Prop :=
  status_text g = []
  \/ StatusLabel (status_text g) (status_fg g) = status_canceled
  \/ StatusLabel (status_text g) (status_fg g) = status_completed.

(** ** Tactics *)

(** Settles a property of every non-empty suffix of a literal by going
    through the suffixes. *)
Ltac each_tail :=
  let t := fresh "t" in
  let Ht := fresh "Ht" in
  intros t Ht; cbn [tails tl lit list_ascii_of_string app] in Ht;
  repeat (destruct Ht as [<- | Ht]; [try reflexivity|]);
  try contradiction.


(** Splits a goal about [clone_latest src dst answer fs] along the
    decisions of the run, in their order. *)
Ltac clone_cases src dst answer fs :=
  unfold clone_latest; cbv zeta;
  destruct (str_eqb (strip src) [] || negb (isdir fs (strip src)))
    eqn:Hsrc;
  [| destruct (str_eqb (strip dst) []) eqn:Hdst;
  [| destruct
       (negb (truthy (find_token re_ep (replace [backslash] [slash] (strip src)))
              && truthy (find_token re_sq (replace [backslash] [slash] (strip src)))
              && truthy (find_token re_sh (replace [backslash] [slash] (strip src)))))
       eqn:Hold;
  [| destruct
       (negb (truthy (find_token re_ep (replace [backslash] [slash] (strip dst)))
              && truthy (find_token re_sq (replace [backslash] [slash] (strip dst)))
              && truthy (find_token re_sh (replace [backslash] [slash] (strip dst)))))
       eqn:Hnew;
  [| destruct (str_eqb (normpath (strip src)) (normpath (strip dst)))
       eqn:Hsame;
  [| destruct (find_all_ma_files fs (strip src)) as [|p0 ps] eqn:Hall;
  [| rewrite <- Hall in *;
     destruct (negb (truthy (select_highest_version
                               (find_all_ma_files fs (strip src)))))
       eqn:Hlatest;
  [| destruct (re_match true re_base_version
                 (fst (splitext (basename (the_str (select_highest_version
                    (find_all_ma_files fs (strip src))))))))
       as [m|] eqn:Hmatch;
  [ destruct (makedirs fs (strip dst)) as [e|fs1] eqn:Hmk;
    [| destruct (isfile fs1 (path_join (strip dst)
                               (group1 m ++ lit "_v001.ma"))) eqn:Hexists;
       destruct answer; cbn [andb negb];
       try (destruct (read_file fs1 (the_str (select_highest_version
                        (find_all_ma_files fs (strip src)))))
              as [e|content] eqn:Hread;
            [| match goal with
               | |- context [write_file fs1 ?p ?c] =>
                   destruct (write_file fs1 p c) as [e|fs2] eqn:Hwrite
               end ]) ]
  | ] ] ] ] ] ] ] ].


(** * Properties *)

(** ** Strings and [replace] *)

Lemma starts_with_app (p r : str) : starts_with p (p ++ r) = true.
Proof.
  induction p as [|c p IH]; simpl; [reflexivity|].
  now rewrite Ascii.eqb_refl, IH.
Qed.

Lemma starts_with_true (p s : str) :
  starts_with p s = true -> s = p ++ skipn (List.length p) s.
Proof.
  revert s; induction p as [|c p IH]; intros s H; simpl in *.
  - reflexivity.
  - destruct s as [|d s]; [discriminate|].
    apply andb_true_iff in H as [Hc Hp].
    apply Ascii.eqb_eq in Hc; subst d.
    simpl. f_equal. now apply IH.
Qed.

Lemma starts_with_iff (p s : str) :
  starts_with p s = true <-> exists r, s = p ++ r.
Proof.
  split.
  - intros H. eexists. now apply starts_with_true.
  - intros [r ->]. apply starts_with_app.
Qed.

Lemma starts_with_false (p s r : str) :
  starts_with p s = false -> s <> p ++ r.
Proof.
  intros H ->. now rewrite starts_with_app in H.
Qed.

Lemma contains_iff (x s : str) :
  contains x s = true <-> exists a b, s = a ++ x ++ b.
Proof.
  induction s as [|c s IH].
  - simpl. rewrite orb_false_r, starts_with_iff. split.
    + intros [r H]. exists [], r. exact H.
    + intros [a [b H]]. destruct a; simpl in H.
      * now exists b.
      * discriminate.
  - simpl. rewrite orb_true_iff, starts_with_iff, IH. split.
    + intros [[r H] | [a [b H]]].
      * exists [], r. exact H.
      * exists (c :: a), b. simpl. now rewrite H.
    + intros [a [b H]]. destruct a as [|d a]; simpl in H.
      * left. now exists b.
      * right. injection H as -> H. now exists a, b.
Qed.

Lemma contains_false (x s : str) :
  contains x s = false -> forall a b, s <> a ++ x ++ b.
Proof.
  intros H a b E.
  assert (contains x s = true) by (apply contains_iff; eauto).
  congruence.
Qed.

Lemma replace_from_skip (old new : str) (k : nat) (s : str) :
  replace_from old new s k = replace_from old new (skipn k s) 0.
Proof.
  revert s; induction k as [|k IH]; intros s.
  - reflexivity.
  - destruct s as [|c s]; simpl; [reflexivity|]. apply IH.
Qed.

Section ReplaceEquations.
Variables old new : str.
Hypothesis old_nonempty : old <> [].

Lemma replace_nil : replace old new [] = [].
Proof. unfold replace. destruct old; [congruence | reflexivity]. Qed.

Lemma replace_hit (rest : str) :
  replace old new (old ++ rest) = new ++ replace old new rest.
Proof.
  unfold replace. destruct old as [|c o]; [congruence|].
  change ((c :: o) ++ rest) with (c :: (o ++ rest)).
  cbn [replace_from].
  pose proof (starts_with_app (c :: o) rest) as H.
  change ((c :: o) ++ rest) with (c :: (o ++ rest)) in H.
  rewrite H. f_equal.
  rewrite replace_from_skip. f_equal.
  cbn [List.length]. rewrite Nat.sub_succ, Nat.sub_0_r.
  rewrite skipn_app, skipn_all, Nat.sub_diag. reflexivity.
Qed.

Lemma replace_miss (c : ascii) (s : str) :
  starts_with old (c :: s) = false ->
  replace old new (c :: s) = c :: replace old new s.
Proof.
  unfold replace. destruct old as [|d o]; [congruence|].
  intros H. cbn [replace_from]. now rewrite H.
Qed.

(** The scan of [replace] as an induction principle. *)
Lemma replace_scan_ind (P : str -> Prop) :
  P [] ->
  (forall rest, P rest -> P (old ++ rest)) ->
  (forall c s, starts_with old (c :: s) = false -> P s -> P (c :: s)) ->
  forall s, P s.
Proof.
  intros Hnil Hhit Hmiss s.
  remember (List.length s) as n eqn:Hn.
  revert s Hn. induction n as [n IH] using lt_wf_ind. intros s Hn.
  destruct s as [|c s]; [exact Hnil|].
  destruct (starts_with old (c :: s)) eqn:E.
  - apply starts_with_true in E. rewrite E. apply Hhit.
    apply (IH (List.length (skipn (List.length old) (c :: s)))); [|reflexivity].
    subst n. rewrite length_skipn.
    destruct old; [congruence|]. simpl. lia.
  - apply Hmiss; [exact E|]. apply (IH (List.length s)); [|reflexivity].
    subst n. simpl. lia.
Qed.

(** Content without an occurrence of [old] is left as it is. *)
Lemma replace_absent (s : str) :
  contains old s = false -> replace old new s = s.
Proof.
  induction s as [|c s IH]; intros H.
  - apply replace_nil.
  - simpl in H. apply orb_false_iff in H as [H1 H2].
    rewrite replace_miss by exact H1. f_equal. destruct s; auto.
Qed.
End ReplaceEquations.

(** *** Occurrences and overlaps *)

Lemma agree_of_eq (u v r1 r2 : str) :
  u ++ r1 = v ++ r2 -> agree u v = true.
Proof.
  revert v; induction u as [|c u IH]; intros v H; [reflexivity|].
  destruct v as [|d v]; [reflexivity|].
  simpl in H. injection H as -> H. simpl.
  rewrite Ascii.eqb_refl. simpl. now apply IH.
Qed.

Lemma agree_starts_with (old t b : str) :
  agree t old = false -> starts_with old (t ++ b) = false.
Proof.
  intros H. destruct (starts_with old (t ++ b)) eqn:E; [|reflexivity].
  apply starts_with_true in E.
  apply agree_of_eq in E. congruence.
Qed.

Lemma in_tails_app (l t : str) : t <> [] -> In t (tails (l ++ t)).
Proof.
  intros Ht. induction l as [|c l IH]; simpl.
  - destruct t; [congruence|]. simpl. now left.
  - now right.
Qed.

Lemma in_tails_suffix (s t : str) :
  In t (tails s) -> exists l, s = l ++ t /\ t <> [].
Proof.
  induction s as [|c s IH]; simpl; [tauto|].
  intros [<- | H].
  - exists []. split; [reflexivity | discriminate].
  - destruct (IH H) as [l [-> Ht]]. now exists (c :: l).
Qed.

Lemma existsb_false_in {A} (f : A -> bool) (l : list A) (x : A) :
  existsb f l = false -> In x l -> f x = false.
Proof.
  intros H Hin. destruct (f x) eqn:E; [|reflexivity].
  assert (existsb f l = true) by (apply existsb_exists; eauto).
  congruence.
Qed.

Lemma clash_inside (x y l t : str) :
  clash x y = false -> y = l ++ t -> t <> [] -> agree t x = false.
Proof.
  intros H -> Ht. apply orb_false_iff in H as [H _].
  apply (existsb_false_in _ _ t H). now apply in_tails_app.
Qed.

Lemma clash_reach (x y l t : str) :
  clash x y = false -> x = l ++ t -> l <> [] -> t <> [] ->
  agree t y = false.
Proof.
  intros H -> Hl Ht. apply orb_false_iff in H as [_ H].
  apply (existsb_false_in _ _ t H).
  destruct l as [|c l]; [congruence|]. simpl. now apply in_tails_app.
Qed.

(** Where an occurrence of [x] can lie in a text that holds a copy of
    [y], when the two cannot overlap: before the copy or after it. *)
Lemma occurrence_cases (x y pre rest a b : str) :
  clash x y = false ->
  pre ++ y ++ rest = a ++ x ++ b ->
  (exists b', pre = a ++ x ++ b')
  \/ (exists a', rest = a' ++ x ++ b /\ a = pre ++ y ++ a').
Proof.
  intros Hc E.
  apply app_eq_app in E as [l [[-> E] | [-> E]]].
  - (* [x] begins in [pre] *)
    symmetry in E. apply app_eq_app in E as [l2 [[-> E] | [-> E]]].
    + left. now exists l2.
    + destruct l2 as [|c l2].
      * left. exists []. now rewrite !app_nil_r.
      * destruct l as [|d l].
        -- simpl in *. destruct y as [|e y].
           ++ right. exists []. simpl in *.
              split; [exact E | now rewrite !app_nil_r].
           ++ exfalso.
              assert (agree (e :: y) (c :: l2) = false)
                by (apply (@clash_inside (c :: l2) (e :: y) [] (e :: y) Hc);
                    [reflexivity | discriminate]).
              pose proof (@agree_of_eq (e :: y) (c :: l2) rest b E).
              congruence.
        -- exfalso.
           assert (agree (c :: l2) y = false)
             by (apply (@clash_reach ((d :: l) ++ c :: l2) y (d :: l) (c :: l2) Hc);
                 [reflexivity | discriminate | discriminate]).
           symmetry in E.
           pose proof (@agree_of_eq (c :: l2) y b rest E). congruence.
  - (* [x] begins at or after the start of [y] *)
    apply app_eq_app in E as [l2 [[-> E] | [-> E]]].
    + destruct l2 as [|c l2].
      * right. exists []. simpl in *. rewrite !app_nil_r in *.
        split; [now rewrite E | reflexivity].
      * exfalso.
        assert (agree (c :: l2) x = false)
          by (apply (@clash_inside x (l ++ c :: l2) l (c :: l2) Hc);
              [reflexivity | discriminate]).
        symmetry in E.
        pose proof (@agree_of_eq (c :: l2) x rest b E). congruence.
    + right. exists l2. split; [exact E | reflexivity].
Qed.

Lemma app_eq_same_length (A : Type) (u v x y : list A) :
  u ++ x = v ++ y -> List.length u = List.length v -> u = v /\ x = y.
Proof.
  revert v; induction u as [|c u IH]; intros [|d v] E L;
    simpl in *; try discriminate; [tauto|].
  injection E as -> E. destruct (IH v E) as [-> ->]; [lia | tauto].
Qed.

Lemma not_contains (x s : str) :
  (forall a b, s <> a ++ x ++ b) -> contains x s = false.
Proof.
  intros H. destruct (contains x s) eqn:E; [|reflexivity].
  apply contains_iff in E as [a [b E]]. now apply H in E.
Qed.

Lemma contains_app_l (x s r : str) :
  contains x s = true -> contains x (s ++ r) = true.
Proof.
  rewrite !contains_iff. intros [a [b ->]]. exists a, (b ++ r).
  now rewrite <- !app_assoc.
Qed.

Lemma contains_app_r (x s r : str) :
  contains x s = true -> contains x (r ++ s) = true.
Proof.
  rewrite !contains_iff. intros [a [b ->]]. exists (r ++ a), b.
  now rewrite <- !app_assoc.
Qed.

Lemma contains_trans (x y s : str) :
  contains x y = true -> contains y s = true -> contains x s = true.
Proof.
  rewrite !contains_iff. intros [a [b ->]] [a' [b' ->]].
  exists (a' ++ a), (b ++ b'). now rewrite <- !app_assoc.
Qed.

Section ReplaceOccurrences.
Variables old new : str.
Hypothesis old_nonempty : old <> [].

(** A replacement cannot bring in a string that was absent and that
    cannot overlap the inserted text. *)
Lemma replace_keeps_absent_gen (x : str) :
  clash x new = false ->
  forall s pre,
    contains x (pre ++ s) = false ->
    contains x (pre ++ replace old new s) = false.
Proof.
  intros Hc s. pattern s.
  apply (replace_scan_ind old old_nonempty); clear s;
    [| intros rest IH | intros c s Hmiss IH]; intros pre H.
  - now rewrite replace_nil.
  - rewrite replace_hit by assumption. rewrite app_assoc. apply IH.
    apply not_contains. intros a b E. rewrite <- app_assoc in E.
    destruct (occurrence_cases _ _ _ _ _ _ Hc E) as [[b' ->] | [a' [-> _]]];
      eapply (contains_false _ _ H).
    + instantiate (1 := b' ++ old ++ rest). instantiate (1 := a).
      now rewrite <- !app_assoc.
    + instantiate (1 := b). instantiate (1 := pre ++ old ++ a').
      now rewrite <- !app_assoc.
  - rewrite replace_miss by assumption.
    change (pre ++ c :: replace old new s)
      with (pre ++ [c] ++ replace old new s).
    rewrite app_assoc. apply IH. now rewrite <- app_assoc.
Qed.

Lemma replace_keeps_absent (x s : str) :
  clash x new = false ->
  contains x s = false ->
  contains x (replace old new s) = false.
Proof.
  intros Hc H. now apply (replace_keeps_absent_gen x Hc s []).
Qed.

(** After the replacement no occurrence of [old] is left, when [old]
    cannot overlap [new]. *)
Lemma replace_removes_gen :
  clash old new = false ->
  forall s pre,
    (forall a b, pre ++ s = a ++ old ++ b ->
                 List.length pre <= List.length a) ->
    contains old (pre ++ replace old new s) = false.
Proof.
  intros Hc s. pattern s.
  apply (replace_scan_ind old old_nonempty); clear s;
    [| intros rest IH | intros c s Hmiss IH]; intros pre H.
  - rewrite replace_nil by assumption. apply not_contains.
    intros a b E. specialize (H a b E).
    apply (f_equal (@List.length ascii)) in E.
    rewrite !length_app in E. simpl in E.
    destruct old; [congruence | simpl in E; lia].
  - rewrite replace_hit by assumption. rewrite app_assoc. apply IH.
    intros a b E. rewrite <- app_assoc in E.
    destruct (occurrence_cases _ _ _ _ _ _ Hc E) as [[b' ->] | [a' [_ ->]]].
    + exfalso.
      assert (L : List.length (a ++ old ++ b') <= List.length a).
      { apply (H a (b' ++ old ++ rest)). now rewrite <- !app_assoc. }
      rewrite !length_app in L. destruct old; [congruence | simpl in L; lia].
    + rewrite !length_app. lia.
  - rewrite replace_miss by assumption.
    change (pre ++ c :: replace old new s)
      with (pre ++ [c] ++ replace old new s).
    rewrite app_assoc. apply IH.
    intros a b E. rewrite <- app_assoc in E. simpl in E.
    pose proof (H a b E) as L. rewrite length_app. simpl.
    destruct (Nat.eq_dec (List.length pre) (List.length a)) as [Eq|]; [|lia].
    exfalso. destruct (app_eq_same_length _ _ _ _ _ E Eq) as [_ E'].
    apply (starts_with_false _ _ b Hmiss). exact E'.
Qed.

Lemma replace_removes (s : str) :
  clash old new = false -> contains old (replace old new s) = false.
Proof.
  intros Hc. apply (replace_removes_gen Hc s []).
  intros; simpl; lia.
Qed.

(** A stretch of text in which no occurrence of [old] begins is copied. *)
Lemma replace_copy (u s : str) :
  (forall t, In t (tails u) -> starts_with old (t ++ s) = false) ->
  replace old new (u ++ s) = u ++ replace old new s.
Proof.
  induction u as [|c u IH]; intros H; [reflexivity|].
  simpl. rewrite replace_miss.
  - f_equal. apply IH. intros t Ht. apply H. simpl. now right.
  - assumption.
  - apply (H (c :: u)). simpl. now left.
Qed.

(** A block [w] of the text that no occurrence of [old] touches comes
    through the replacement as it is, and so do the scans before and after
    it. *)
Lemma replace_around_block (w b : str) :
  (forall t, In t (tails (tl old)) -> agree t (w ++ b) = false) ->
  (forall t, In t (tails w) -> starts_with old (t ++ b) = false) ->
  forall a,
    replace old new (a ++ w ++ b)
    = replace old new a ++ w ++ replace old new b.
Proof.
  intros H1 H2 a. pattern a.
  apply (replace_scan_ind old old_nonempty); clear a;
    [| intros rest IH | intros c s Hmiss IH].
  - rewrite replace_nil by assumption. simpl. now apply replace_copy.
  - rewrite <- !app_assoc. rewrite !replace_hit by assumption.
    rewrite IH. now rewrite <- app_assoc.
  - simpl. rewrite (replace_miss old new old_nonempty c s Hmiss).
    rewrite replace_miss; [now rewrite IH | assumption |].
    destruct (starts_with old (c :: s ++ w ++ b)) eqn:E; [|reflexivity].
    exfalso. apply starts_with_iff in E as [r E].
    change (c :: s ++ w ++ b) with ((c :: s) ++ w ++ b) in E.
    apply app_eq_app in E as [l [[E1 E2] | [E1 E2]]].
    + apply (starts_with_false _ _ l Hmiss). exact E1.
    + destruct l as [|d l].
      * rewrite app_nil_r in E1. subst old.
        rewrite <- (app_nil_r (c :: s)) in Hmiss at 2.
        now rewrite starts_with_app in Hmiss.
      * assert (agree (d :: l) (w ++ b) = false) as F.
        { apply H1. rewrite E1. simpl. apply in_tails_app. discriminate. }
        symmetry in E2.
        assert (agree (d :: l) (w ++ b) = true) as T.
        { apply (@agree_of_eq (d :: l) (w ++ b) r []).
          now rewrite app_nil_r. }
        congruence.
Qed.

Lemma replace_keeps_block (w b : str) :
  (forall t, In t (tails (tl old)) -> agree t (w ++ b) = false) ->
  (forall t, In t (tails w) -> starts_with old (t ++ b) = false) ->
  forall a, exists a1,
    replace old new (a ++ w ++ b) = a1 ++ w ++ replace old new b.
Proof.
  intros H1 H2 a. exists (replace old new a).
  now apply replace_around_block.
Qed.

(** An occurrence of [old] that stands in a block [u ++ old ++ v] which
    no other occurrence touches is replaced, and the block is otherwise
    kept. *)
Lemma replace_in_block (u v b : str) :
  (forall t, In t (tails (tl old)) ->
             agree t (u ++ old ++ v ++ b) = false) ->
  (forall t, In t (tails u) ->
             starts_with old (t ++ old ++ v ++ b) = false) ->
  (forall t, In t (tails v) -> starts_with old (t ++ b) = false) ->
  forall a, exists a1,
    replace old new (a ++ (u ++ old ++ v) ++ b)
    = a1 ++ (u ++ new ++ v) ++ replace old new b.
Proof.
  intros H1 H2 H3 a.
  destruct (replace_keeps_block u (old ++ v ++ b) H1 H2 a) as [a1 E].
  exists a1. rewrite <- !app_assoc. rewrite E.
  rewrite replace_hit by assumption. now rewrite replace_copy.
Qed.
End ReplaceOccurrences.

(** ** The matcher *)

Lemma match_star_nil ic a ns pos gs ge :
  match_here ic (Star a :: ns) [] pos gs ge = match_here ic ns [] pos gs ge.
Proof. reflexivity. Qed.

Lemma match_star_cons ic a ns c s pos gs ge :
  match_here ic (Star a :: ns) (c :: s) pos gs ge =
  if atom_ok ic a c then
    match match_here ic (Star a :: ns) s (S pos) gs ge with
    | Some r => Some r
    | None => match_here ic ns (c :: s) pos gs ge
    end
  else match_here ic ns (c :: s) pos gs ge.
Proof. reflexivity. Qed.

(** The matcher succeeds exactly on what the pattern accepts. *)
Lemma match_here_sound ic ns :
  forall s pos gs ge r,
    match_here ic ns s pos gs ge = Some r -> accepts ic ns pos s.
Proof.
  induction ns as [|n ns IH]; intros s pos gs ge r H.
  - constructor.
  - destruct n as [a | a | | | |].
    + destruct s as [|c s]; [discriminate|]. simpl in H.
      destruct (atom_ok ic a c) eqn:E; [|discriminate].
      constructor; eauto.
    + revert pos r H. induction s as [|c s IHs]; intros pos r H.
      * rewrite match_star_nil in H. apply acc_star_stop. eauto.
      * rewrite match_star_cons in H.
        destruct (atom_ok ic a c) eqn:E.
        -- destruct (match_here ic (Star a :: ns) s (S pos) gs ge) eqn:M.
           ++ apply acc_star_more; eauto.
           ++ apply acc_star_stop. eauto.
        -- apply acc_star_stop. eauto.
    + simpl in H. destruct pos; [|discriminate]. simpl in H.
      constructor. eauto.
    + simpl in H. destruct (at_end s) eqn:E; [|discriminate].
      constructor; eauto.
    + simpl in H. constructor. eauto.
    + simpl in H. constructor. eauto.
Qed.

Lemma match_here_complete ic ns pos s :
  accepts ic ns pos s ->
  forall gs ge, match_here ic ns s pos gs ge <> None.
Proof.
  induction 1 as [pos s | a ns pos c s Ha _ IH | a ns pos c s Ha _ IH
                 | a ns pos s _ IH | ns s _ IH | ns pos s He _ IH
                 | ns pos s _ IH | ns pos s _ IH]; intros gs ge.
  - discriminate.
  - simpl. rewrite Ha. apply IH.
  - rewrite match_star_cons, Ha.
    specialize (IH gs ge).
    destruct (match_here ic (Star a :: ns) s (S pos) gs ge);
      [discriminate | congruence].
  - destruct s as [|c s].
    + rewrite match_star_nil. apply IH.
    + rewrite match_star_cons.
      destruct (atom_ok ic a c); [|apply IH].
      destruct (match_here ic (Star a :: ns) s (S pos) gs ge);
        [discriminate | apply IH].
  - simpl. apply IH.
  - simpl. rewrite He. apply IH.
  - simpl. apply IH.
  - simpl. apply IH.
Qed.

Lemma re_match_accepts ic ns s :
  re_match ic ns s <> None <-> accepts ic ns 0 s.
Proof.
  unfold re_match. split.
  - destruct (match_here ic ns s 0 0 0) eqn:E; [|congruence].
    intros _. eapply match_here_sound; eauto.
  - intros H. pose proof (match_here_complete ic ns 0 s H 0 0).
    destruct (match_here ic ns s 0 0 0); congruence.
Qed.

(** A search succeeds as soon as the pattern accepts at some position. *)
Lemma search_from_complete ic ns :
  forall k s pos,
    k <= List.length s -> accepts ic ns (pos + k) (skipn k s) ->
    search_from ic ns s pos <> None.
Proof.
  induction k as [|k IH]; intros s pos L H.
  - rewrite Nat.add_0_r in H. simpl in H.
    pose proof (match_here_complete ic ns pos s H 0 0).
    destruct s; simpl; destruct (match_here ic ns _ pos 0 0); congruence.
  - destruct s as [|c s]; [simpl in L; lia|].
    simpl. destruct (match_here ic ns (c :: s) pos 0 0); [discriminate|].
    apply IH; [simpl in L; lia|].
    simpl in H. now rewrite <- Nat.add_succ_comm in H.
Qed.

(** What a star has taken when the pattern accepts. *)
Lemma accepts_star ic a ns pos s :
  accepts ic (Star a :: ns) pos s ->
  exists u w, s = u ++ w /\ forallb (atom_ok ic a) u = true
              /\ accepts ic ns (pos + List.length u) w.
Proof.
  intros H. remember (Star a :: ns) as p eqn:Hp.
  induction H as [| | a' ns' pos c s Ha H IH | a' ns' pos s H _ | | | |];
    try discriminate; injection Hp as -> ->.
  - destruct (IH eq_refl) as [u [w [-> [Hu Hw]]]].
    exists (c :: u), w. simpl. rewrite Ha, Hu.
    repeat split. now rewrite <- Nat.add_succ_comm.
  - exists [], s. simpl. now rewrite Nat.add_0_r.
Qed.

Lemma accepts_star_run ic a ns u :
  forall pos w,
    forallb (atom_ok ic a) u = true ->
    accepts ic ns (pos + List.length u) w ->
    accepts ic (Star a :: ns) pos (u ++ w).
Proof.
  induction u as [|c u IH]; intros pos w Hu H; simpl in *.
  - apply acc_star_stop. now rewrite Nat.add_0_r in H.
  - apply andb_true_iff in Hu as [Hc Hu].
    apply acc_star_more; [exact Hc|]. apply IH; [exact Hu|].
    now rewrite Nat.add_succ_comm.
Qed.

(** ** Token extraction *)

Lemma match_here_chars l ns :
  forall s pos gs ge,
    match_here false (map (fun c => One (Chr c)) l ++ ns) s pos gs ge =
    if starts_with l s
    then match_here false ns (skipn (List.length l) s)
                    (pos + List.length l) gs ge
    else None.
Proof.
  induction l as [|c l IH]; intros s pos gs ge; simpl.
  - now rewrite Nat.add_0_r.
  - destruct s as [|d s]; [reflexivity|].
    destruct (Ascii.eqb c d); simpl; [|reflexivity].
    rewrite IH.
    now replace (pos + S (List.length l)) with (S pos + List.length l) by lia.
Qed.

Lemma match_here_digit_star ic s :
  forall pos gs ge,
    match_here ic [Star DigitCls] s pos gs ge =
    Some {| sp_end := pos + List.length (take_digits s);
            g_start := gs; g_end := ge |}.
Proof.
  induction s as [|c s IH]; intros pos gs ge.
  - simpl. now rewrite Nat.add_0_r.
  - rewrite match_star_cons. simpl atom_ok. simpl take_digits.
    destruct (is_digit c).
    + rewrite IH. simpl. do 2 f_equal. lia.
    + simpl. now rewrite Nat.add_0_r.
Qed.

Lemma take_digits_prefix s : s = take_digits s ++ skipn (List.length (take_digits s)) s.
Proof.
  induction s as [|c s IH]; simpl; [reflexivity|].
  destruct (is_digit c); simpl; [now rewrite <- IH | reflexivity].
Qed.

Lemma take_digits_all s : forallb is_digit (take_digits s) = true.
Proof.
  induction s as [|c s IH]; simpl; [reflexivity|].
  destruct (is_digit c) eqn:E; simpl; [now rewrite E | reflexivity].
Qed.

Lemma match_here_token pfx s pos :
  match_here false (re_token pfx) s pos 0 0 =
  match token_at (lit pfx) s with
  | Some t => Some {| sp_end := pos + List.length t; g_start := 0; g_end := 0 |}
  | None => None
  end.
Proof.
  unfold re_token, chars, token_at. rewrite match_here_chars.
  destruct (starts_with (lit pfx) s); [|reflexivity].
  set (r := skipn (List.length (lit pfx)) s). clearbody r.
  destruct r as [|d r]; [reflexivity|].
  cbn [match_here atom_ok take_digits].
  destruct (is_digit d); [|reflexivity].
  change (match_here false [Star DigitCls] r (S (pos + List.length (lit pfx))) 0 0
          = Some {| sp_end := pos + List.length (lit pfx ++ d :: take_digits r);
                    g_start := 0; g_end := 0 |}).
  rewrite match_here_digit_star. rewrite length_app. simpl.
  do 2 f_equal. lia.
Qed.

Lemma token_at_prefix pfx s t :
  token_at pfx s = Some t -> exists rest, s = t ++ rest.
Proof.
  unfold token_at. destruct (starts_with pfx s) eqn:E; [|discriminate].
  apply starts_with_true in E.
  destruct (take_digits (skipn (List.length pfx) s)) as [|d ds] eqn:D;
    [discriminate|].
  intros [= <-].
  exists (skipn (List.length (d :: ds)) (skipn (List.length pfx) s)).
  rewrite <- app_assoc. rewrite <- D.
  rewrite <- take_digits_prefix. exact E.
Qed.

Lemma slice_middle (done t rest : str) :
  slice (done ++ t ++ rest) (List.length done)
        (List.length done + List.length t) = t.
Proof.
  unfold slice. rewrite skipn_app, skipn_all, Nat.sub_diag. simpl.
  replace (List.length done + List.length t - List.length done)
    with (List.length t + 0) by lia.
  rewrite firstn_app_2. simpl. apply app_nil_r.
Qed.

Lemma search_token_spec pfx s :
  forall done,
    match search_from false (re_token pfx) s (List.length done) with
    | Some (i, sp) =>
        first_token (lit pfx) s = Some (slice (done ++ s) i (sp_end sp))
    | None => first_token (lit pfx) s = None
    end.
Proof.
  induction s as [|c s IH]; intros done.
  - simpl. rewrite match_here_token.
    destruct (token_at (lit pfx) []) as [t|] eqn:T; [|reflexivity].
    destruct (token_at_prefix _ _ _ T) as [rest E]. rewrite E.
    simpl sp_end. now rewrite slice_middle.
  - cbn [search_from first_token]. rewrite match_here_token.
    destruct (token_at (lit pfx) (c :: s)) as [t|] eqn:T.
    + destruct (token_at_prefix _ _ _ T) as [rest E]. rewrite E.
      simpl sp_end. now rewrite slice_middle.
    + specialize (IH (done ++ [c])).
      rewrite length_app in IH. simpl in IH.
      rewrite Nat.add_1_r in IH. rewrite <- app_assoc in IH. exact IH.
Qed.

(** [find_token] returns the leftmost token of the normalized path. *)
Lemma find_token_first pfx path :
  find_token (re_token pfx) path
  = first_token (lit pfx) (replace [backslash] [slash] path).
Proof.
  unfold find_token, re_search.
  pose proof (search_token_spec pfx (replace [backslash] [slash] path) [])
    as H. cbn [app List.length] in H.
  destruct (search_from false (re_token pfx) _ 0) as [[i sp]|];
    rewrite H; reflexivity.
Qed.

Lemma starts_with_app_cases (p t s : str) :
  starts_with p (t ++ s) = true ->
  starts_with p t = true
  \/ exists l, l <> [] /\ p = t ++ l /\ starts_with l s = true.
Proof.
  revert t; induction p as [|c p IH]; intros t H; [now left|].
  destruct t as [|d t].
  - right. exists (c :: p). repeat split; [discriminate | exact H].
  - simpl in H. apply andb_true_iff in H as [Hc H].
    apply Ascii.eqb_eq in Hc; subst d.
    destruct (IH t H) as [Ht | [l [Hl [-> Hs]]]].
    + left. simpl. now rewrite Ascii.eqb_refl.
    + right. exists l. tauto.
Qed.

Lemma skipn_prefix (A : Type) (p r : list A) :
  skipn (List.length p) (p ++ r) = r.
Proof. now rewrite skipn_app, skipn_all, Nat.sub_diag. Qed.

Lemma take_digits_app_nondigit (r s : str) (c0 : ascii) (s' : str) :
  s = c0 :: s' -> is_digit c0 = false ->
  take_digits r = [] -> take_digits (r ++ s) = [].
Proof.
  intros -> Hc Hr. destruct r as [|c r]; simpl in *.
  - now rewrite Hc.
  - destruct (is_digit c); [discriminate | reflexivity].
Qed.

(** A token cannot straddle the junction with a text whose first
    character is neither a digit nor a later character of the prefix. *)
Lemma token_at_app (pfx t s : str) (c0 : ascii) (s' : str) :
  s = c0 :: s' -> is_digit c0 = false -> ~ In c0 (tl pfx) -> t <> [] ->
  token_at pfx t = None -> token_at pfx (t ++ s) = None.
Proof.
  intros Hs Hd Hin Ht H. unfold token_at in *.
  destruct (starts_with pfx (t ++ s)) eqn:E; [|reflexivity].
  apply starts_with_app_cases in E as [E | [l [Hl [Ep El]]]].
  - rewrite E in H. apply starts_with_iff in E as [r ->].
    rewrite <- app_assoc. rewrite skipn_prefix in *.
    rewrite (take_digits_app_nondigit r s c0 s' Hs Hd); [reflexivity|].
    destruct (take_digits r); [reflexivity | discriminate].
  - exfalso. apply Hin. subst pfx s.
    destruct l as [|c l]; [congruence|]. simpl in El.
    apply andb_true_iff in El as [Ec _]. apply Ascii.eqb_eq in Ec. subst c0.
    destruct t as [|d t]; [congruence|]. simpl.
    apply in_or_app. right. now left.
Qed.

Lemma first_token_app (pfx pre s : str) (c0 : ascii) (s' : str) :
  s = c0 :: s' -> is_digit c0 = false -> ~ In c0 (tl pfx) ->
  first_token pfx pre = None ->
  first_token pfx (pre ++ s) = first_token pfx s.
Proof.
  intros Hs Hd Hin. induction pre as [|c pre IH]; intros H; [reflexivity|].
  cbn [first_token] in H.
  destruct (token_at pfx (c :: pre)) eqn:T; [discriminate|].
  change ((c :: pre) ++ s) with (c :: (pre ++ s)).
  cbn [first_token].
  change (c :: (pre ++ s)) with ((c :: pre) ++ s).
  rewrite (token_at_app pfx (c :: pre) s c0 s' Hs Hd Hin); auto.
  discriminate.
Qed.

(** What it means for [find_token] to come back empty, and what it returns
    otherwise: the prefix followed by a maximal run of digits. *)
Lemma token_at_some_iff (pfx s : str) :
  token_at pfx s <> None <->
  exists d b, is_digit d = true /\ s = pfx ++ d :: b.
Proof.
  unfold token_at. split.
  - destruct (starts_with pfx s) eqn:E; [|congruence].
    apply starts_with_true in E.
    destruct (skipn (List.length pfx) s) as [|d b]; [simpl; congruence|].
    simpl. destruct (is_digit d) eqn:D; [|congruence].
    intros _. now exists d, b.
  - intros [d [b [D ->]]]. rewrite starts_with_app.
    rewrite skipn_prefix. simpl. rewrite D. discriminate.
Qed.

Lemma first_token_none_iff (pfx s : str) :
  first_token pfx s = None <->
  forall a d b, is_digit d = true -> s <> a ++ pfx ++ d :: b.
Proof.
  induction s as [|c s IH].
  - simpl. split.
    + intros H a d b D E.
      destruct a; [|discriminate]. simpl in E.
      assert (token_at pfx [] <> None) by (apply token_at_some_iff; eauto).
      destruct (token_at pfx []); congruence.
    + intros H. destruct (token_at pfx []) eqn:T; [|reflexivity].
      assert (token_at pfx [] <> None) as N by congruence.
      apply token_at_some_iff in N as [d [b [D E]]].
      exfalso. now apply (H [] d b D).
  - cbn [first_token]. split.
    + intros H a d b D E.
      destruct (token_at pfx (c :: s)) eqn:T; [discriminate|].
      destruct a as [|e a]; simpl in E.
      * assert (token_at pfx (c :: s) <> None)
          by (apply token_at_some_iff; eauto).
        congruence.
      * injection E as -> E. now apply (proj1 IH H a d b D).
    + intros H. destruct (token_at pfx (c :: s)) eqn:T.
      * assert (token_at pfx (c :: s) <> None) as N by congruence.
        apply token_at_some_iff in N as [d [b [D E]]].
        exfalso. now apply (H [] d b D).
      * apply IH. intros a d b D E. apply (H (c :: a) d b D).
        simpl. now rewrite E.
Qed.

Lemma first_token_shape (pfx s t : str) :
  first_token pfx s = Some t ->
  exists ds, t = pfx ++ ds /\ ds <> [] /\ forallb is_digit ds = true.
Proof.
  induction s as [|c s IH]; cbn [first_token];
    destruct (token_at pfx _) as [t'|] eqn:T; try discriminate; auto.
  all: intros [= <-]; unfold token_at in T;
    destruct (starts_with pfx _); try discriminate;
    destruct (take_digits _) as [|d ds] eqn:D; try discriminate;
    injection T as <-; exists (d :: ds);
    repeat split; [discriminate | rewrite <- D; apply take_digits_all].
Qed.

Lemma normalized_no_backslash (path : str) :
  contains [backslash] (replace [backslash] [slash] path) = false.
Proof. apply replace_removes; [discriminate | reflexivity]. Qed.

(** A prefix of a normalized path is left alone by the normalization. *)
Lemma normalize_prefix (path pre rest : str) :
  replace [backslash] [slash] path = pre ++ rest ->
  replace [backslash] [slash] pre = pre.
Proof.
  intros E. apply replace_absent; [discriminate|].
  destruct (contains [backslash] pre) eqn:C; [|reflexivity].
  pose proof (normalized_no_backslash path) as N. rewrite E in N.
  now rewrite (contains_app_l _ _ rest C) in N.
Qed.

(** C4 (as amended).  A path whose normalized form reads
    [pre ++ "ep_12/sq_034/sh_5" ++ post], where [pre] holds no earlier
    episode, sequence or shot token and [post] does not go on with a digit,
    yields exactly the tokens [ep_12], [sq_034] and [sh_5], digits as
    written.  Each token is the leftmost match of its own pattern in the
    normalized path. *)
Theorem C4_find_token_scenario (path pre post : str) :
  replace [backslash] [slash] path = pre ++ lit "ep_12/sq_034/sh_5" ++ post ->
  find_token re_ep pre = None ->
  find_token re_sq pre = None ->
  find_token re_sh pre = None ->
  take_digits post = [] ->
  find_token re_ep path = Some (lit "ep_12")
  /\ find_token re_sq path = Some (lit "sq_034")
  /\ find_token re_sh path = Some (lit "sh_5")
  /\ find_token re_ep path
     = first_token (lit "ep_") (replace [backslash] [slash] path)
  /\ find_token re_sq path
     = first_token (lit "sq_") (replace [backslash] [slash] path)
  /\ find_token re_sh path
     = first_token (lit "sh_") (replace [backslash] [slash] path).
Proof.
  intros E Hep Hsq Hsh Hpost.
  unfold re_ep, re_sq, re_sh in *.
  rewrite !find_token_first in *.
  rewrite (normalize_prefix path pre _ E) in Hep, Hsq, Hsh.
  rewrite E.
  assert (forall pfx, ~ In "e"%char (tl (lit pfx)) ->
            first_token (lit pfx) pre = None ->
            first_token (lit pfx) (pre ++ lit "ep_12/sq_034/sh_5" ++ post)
            = first_token (lit pfx) (lit "ep_12/sq_034/sh_5" ++ post)) as A.
  { intros pfx Hin H.
    apply (first_token_app (lit pfx) pre _ "e"%char
             (lit "p_12/sq_034/sh_5" ++ post)); auto. }
  rewrite !A by (auto; simpl; intuition discriminate).
  repeat split.
  cbn. unfold token_at. cbn. now rewrite Hpost.
Qed.

Lemma C4_find_token_scenario_witness :
  find_token re_ep (lit "C:\show\ep_12\sq_034\sh_5\work") = Some (lit "ep_12")
  /\ find_token re_sq (lit "C:\show\ep_12\sq_034\sh_5\work")
     = Some (lit "sq_034")
  /\ find_token re_sh (lit "C:\show\ep_12\sq_034\sh_5\work")
     = Some (lit "sh_5").
Proof.
  destruct (C4_find_token_scenario (lit "C:\show\ep_12\sq_034\sh_5\work")
              (lit "C:/show/") (lit "/work"))
    as [H1 [H2 [H3 _]]]; try reflexivity.
  repeat split; assumption.
Defined.

(** C4 as stated fails: the path [/show/ep_12/sq_034/sh_50/work] contains
    [ep_12/sq_034/sh_5], and its shot token is [sh_50]. *)
Lemma C4_counterexample :
  ~ (forall path,
       contains (lit "ep_12/sq_034/sh_5")
                (replace [backslash] [slash] path) = true ->
       find_token re_ep path = Some (lit "ep_12")
       /\ find_token re_sq path = Some (lit "sq_034")
       /\ find_token re_sh path = Some (lit "sh_5")).
Proof.
  intros H.
  destruct (H (lit "/show/ep_12/sq_034/sh_50/work") eq_refl) as [_ [_ E]].
  vm_compute in E. discriminate.
Qed.

(** ** Paths *)

Lemma rfind_from_app c u :
  forall w i last,
    rfind_from c (u ++ w) i last
    = rfind_from c w (i + Z.of_nat (List.length u))%Z (rfind_from c u i last).
Proof.
  induction u as [|d u IH]; intros w i last.
  - simpl. now rewrite Z.add_0_r.
  - cbn [app rfind_from]. rewrite IH. f_equal.
    cbn [List.length]. lia.
Qed.

Lemma rfind_from_absent c w :
  forall i last, ~ In c w -> rfind_from c w i last = last.
Proof.
  induction w as [|d w IH]; intros i last H; [reflexivity|].
  cbn [rfind_from]. destruct (Ascii.eqb d c) eqn:E.
  - apply Ascii.eqb_eq in E. subst d. exfalso. apply H. now left.
  - apply IH. intros Hin. apply H. now right.
Qed.

(** Where the last [c] is, when the text after it has none. *)
Lemma rfind_last c u w :
  ~ In c w -> rfind c (u ++ c :: w) = Z.of_nat (List.length u).
Proof.
  intros H. unfold rfind. rewrite rfind_from_app.
  cbn [rfind_from]. rewrite Ascii.eqb_refl.
  now rewrite rfind_from_absent.
Qed.

Lemma rfind_absent c w : ~ In c w -> rfind c w = (-1)%Z.
Proof. intros H. unfold rfind. now apply rfind_from_absent. Qed.

Lemma rfind_from_bound c u :
  forall i last,
    (last < i)%Z ->
    (rfind_from c u i last < i + Z.of_nat (List.length u))%Z.
Proof.
  induction u as [|d u IH]; intros i last H.
  - simpl. lia.
  - cbn [rfind_from List.length].
    specialize (IH (i + 1)%Z (if Ascii.eqb d c then i else last)).
    destruct (Ascii.eqb d c); lia.
Qed.

Lemma basename_after_slash (u w : str) :
  ~ In slash w -> basename (u ++ slash :: w) = w.
Proof.
  intros H. unfold basename. rewrite rfind_last by exact H.
  replace (Z.to_nat (Z.of_nat (List.length u) + 1))
    with (List.length (u ++ [slash])) by (rewrite length_app; simpl; lia).
  change (u ++ slash :: w) with (u ++ [slash] ++ w).
  rewrite app_assoc. apply skipn_prefix.
Qed.

Lemma basename_plain (w : str) : ~ In slash w -> basename w = w.
Proof. intros H. unfold basename. now rewrite rfind_absent. Qed.

Lemma ends_with_slash (d : str) :
  ends_with [slash] d = true -> exists d', d = d' ++ [slash].
Proof.
  unfold ends_with. intros H. apply starts_with_iff in H as [r H].
  exists (rev r). rewrite <- (rev_involutive d), H. reflexivity.
Qed.

Lemma str_eqb_eq (a b : str) : str_eqb a b = true <-> a = b.
Proof.
  unfold str_eqb. destruct (list_eq_dec ascii_dec a b); split; congruence.
Qed.

Lemma str_eqb_neq (a b : str) : str_eqb a b = false <-> a <> b.
Proof.
  unfold str_eqb. destruct (list_eq_dec ascii_dec a b); split; congruence.
Qed.

(** The name that [os.walk] joined to a directory is what [basename] gives
    back. *)
Lemma basename_join (d fn : str) :
  ~ In slash fn -> basename (path_join d fn) = fn.
Proof.
  intros H. unfold path_join.
  destruct (starts_with [slash] fn) eqn:S.
  { apply starts_with_iff in S as [r ->]. exfalso. apply H. now left. }
  destruct (str_eqb d []) eqn:D.
  { apply str_eqb_eq in D. subst d. simpl. now apply basename_plain. }
  simpl. destruct (ends_with [slash] d) eqn:E.
  - apply ends_with_slash in E as [d' ->]. rewrite <- app_assoc.
    now apply basename_after_slash.
  - now apply basename_after_slash.
Qed.

(** ** Version selection *)

Lemma select_loop_spec (l : list str) :
  forall bp bv,
    (select_loop l bp bv = bp
     /\ forall q w, In q l -> version_of q = Some w -> (w <= bv)%Z)
    \/ exists l1 p l2 v,
         l = l1 ++ p :: l2
         /\ select_loop l bp bv = Some p
         /\ version_of p = Some v
         /\ (bv < v)%Z
         /\ (forall q w, In q l1 -> version_of q = Some w -> (w < v)%Z)
         /\ (forall q w, In q l2 -> version_of q = Some w -> (w <= v)%Z).
Proof.
  induction l as [|p l IH]; intros bp bv.
  - left. split; [reflexivity | intros q w []].
  - cbn [select_loop]. fold (version_of p).
    destruct (version_of p) as [ver|] eqn:V.
    + destruct (bv <? ver)%Z eqn:C.
      * apply Z.ltb_lt in C.
        destruct (IH (Some p) ver)
          as [[E H] | [l1 [p' [l2 [v [-> [E [Vp [Lt [H1 H2]]]]]]]]]].
        -- right. exists [], p, l, ver. repeat split; auto.
           intros q w [].
        -- right. exists (p :: l1), p', l2, v. repeat split; auto; [lia|].
           intros q w [<- | Hq] Vq; [|eauto].
           rewrite V in Vq. injection Vq as <-. exact Lt.
      * apply Z.ltb_ge in C.
        destruct (IH bp bv)
          as [[E H] | [l1 [p' [l2 [v [-> [E [Vp [Lt [H1 H2]]]]]]]]]].
        -- left. split; [exact E|].
           intros q w [<- | Hq] Vq; [|eauto].
           rewrite V in Vq. injection Vq as <-. exact C.
        -- right. exists (p :: l1), p', l2, v. repeat split; auto.
           intros q w [<- | Hq] Vq; [|eauto].
           rewrite V in Vq. injection Vq as <-. lia.
    + destruct (IH bp bv)
        as [[E H] | [l1 [p' [l2 [v [-> [E [Vp [Lt [H1 H2]]]]]]]]]].
      * left. split; [exact E|].
        intros q w [<- | Hq] Vq; [congruence | eauto].
      * right. exists (p :: l1), p', l2, v. repeat split; auto.
        intros q w [<- | Hq] Vq; [congruence | eauto].
Qed.

Lemma int_of_digits_nonneg (s : str) : (0 <= int_of_digits s)%Z.
Proof.
  unfold int_of_digits.
  assert (forall acc, (0 <= acc)%Z ->
            (0 <= fold_left (fun a c => (10 * a + digit_val c)%Z) s acc)%Z)
    as H.
  { induction s as [|c s IH]; intros acc Ha; cbn [fold_left]; [exact Ha|].
    apply IH. unfold digit_val. lia. }
  apply H. lia.
Qed.

Lemma version_of_nonneg (p : str) (v : Z) :
  version_of p = Some v -> (0 <= v)%Z.
Proof.
  unfold version_of, extract_version_number.
  destruct (re_search true re_version_number (basename p)); [|discriminate].
  intros [= <-]. apply int_of_digits_nonneg.
Qed.

(** The selected path is the first one that carries the greatest version. *)
Lemma select_highest_version_spec (l : list str) :
  (select_highest_version l = None
   /\ forall q, In q l -> version_of q = None)
  \/ exists l1 p l2 v,
       l = l1 ++ p :: l2
       /\ select_highest_version l = Some p
       /\ version_of p = Some v
       /\ (forall q w, In q l1 -> version_of q = Some w -> (w < v)%Z)
       /\ (forall q w, In q l2 -> version_of q = Some w -> (w <= v)%Z).
Proof.
  unfold select_highest_version.
  destruct (select_loop_spec l None (-1))
    as [[E H] | [l1 [p [l2 [v [-> [E [Vp [_ [H1 H2]]]]]]]]]].
  - left. split; [exact E|]. intros q Hq.
    destruct (version_of q) as [w|] eqn:V; [|reflexivity].
    pose proof (H q w Hq V). pose proof (version_of_nonneg q w V). lia.
  - right. exists l1, p, l2, v. auto.
Qed.

(** C2.  Among candidates, the scanner selects one whose version number
    is the greatest, compared as integers: of [scene_v1.ma],
    [scene_v10.ma] and [scene_v2.ma] in one directory it selects
    [scene_v10.ma].  With no candidate there is no selection. *)
Theorem C2_select_greatest :
  (forall l q,
      In q l -> version_of q <> None ->
      exists p v,
        select_highest_version l = Some p /\ In p l
        /\ version_of p = Some v
        /\ forall q' w, In q' l -> version_of q' = Some w -> (w <= v)%Z)
  /\ (forall dir,
         select_highest_version
           (matching_files dir
              [lit "scene_v1.ma"; lit "scene_v10.ma"; lit "scene_v2.ma"])
         = Some (path_join dir (lit "scene_v10.ma")))
  /\ (find_all_ma_files scenes_fs (lit "/shots")
      = [lit "/shots/scene_v1.ma"; lit "/shots/scene_v10.ma";
         lit "/shots/scene_v2.ma"]
      /\ select_highest_version (find_all_ma_files scenes_fs (lit "/shots"))
         = Some (lit "/shots/scene_v10.ma"))
  /\ version_of (lit "/shots/scene_v10.ma") = Some 10%Z
  /\ select_highest_version [] = None
  /\ (forall l, (forall q, In q l -> version_of q = None) ->
                select_highest_version l = None).
Proof.
  split; [|split; [|split; [|split; [|split]]]].
  - intros l q Hq Vq.
    destruct (select_highest_version_spec l)
      as [[_ H] | [l1 [p [l2 [v [-> [E [Vp [H1 H2]]]]]]]]].
    + now rewrite (H q Hq) in Vq.
    + exists p, v. repeat split; auto.
      * apply in_or_app. right. now left.
      * intros q' w Hin Vw. apply in_app_or in Hin as [Hin | [<- | Hin]].
        -- pose proof (H1 q' w Hin Vw). lia.
        -- rewrite Vp in Vw. injection Vw as <-. lia.
        -- eauto.
  - intros dir.
    change (matching_files dir
              [lit "scene_v1.ma"; lit "scene_v10.ma"; lit "scene_v2.ma"])
      with [path_join dir (lit "scene_v1.ma");
            path_join dir (lit "scene_v10.ma");
            path_join dir (lit "scene_v2.ma")].
    unfold select_highest_version. cbn [select_loop].
    rewrite !basename_join by (simpl; intuition discriminate).
    change (extract_version_number (lit "scene_v1.ma")) with (Some 1%Z).
    change (extract_version_number (lit "scene_v10.ma")) with (Some 10%Z).
    change (extract_version_number (lit "scene_v2.ma")) with (Some 2%Z).
    reflexivity.
  - split; reflexivity.
  - reflexivity.
  - reflexivity.
  - intros l H.
    destruct (select_highest_version_spec l)
      as [[E _] | [l1 [p [l2 [v [-> [E [Vp _]]]]]]]]; [exact E|].
    rewrite H in Vp; [discriminate|]. apply in_or_app. right. now left.
Qed.

(** C5.  When several candidates carry the greatest version number, the
    selected one is the first of them in the order of the list: every
    entry before it has a strictly smaller version, every entry after it
    a version that is not greater. *)
Theorem C5_first_of_equals (l : list str) (q : str) :
  In q l -> version_of q <> None ->
  exists l1 p l2 v,
    l = l1 ++ p :: l2
    /\ select_highest_version l = Some p
    /\ version_of p = Some v
    /\ (forall q' w, In q' l1 -> version_of q' = Some w -> (w < v)%Z)
    /\ (forall q' w, In q' l2 -> version_of q' = Some w -> (w <= v)%Z).
Proof.
  intros Hq Vq.
  destruct (select_highest_version_spec l) as [[_ H] | H].
  - now rewrite (H q Hq) in Vq.
  - exact H.
Qed.

Lemma C5_first_of_equals_witness :
  exists l1 p l2 v,
    [lit "/a/x_v2.ma"; lit "/a/y_v5.ma"; lit "/b/z_v05.ma"; lit "/b/w_v5.ma"]
    = l1 ++ p :: l2
    /\ select_highest_version
         [lit "/a/x_v2.ma"; lit "/a/y_v5.ma"; lit "/b/z_v05.ma";
          lit "/b/w_v5.ma"] = Some p
    /\ version_of p = Some v
    /\ (forall q' w, In q' l1 -> version_of q' = Some w -> (w < v)%Z)
    /\ (forall q' w, In q' l2 -> version_of q' = Some w -> (w <= v)%Z).
Proof.
  apply (C5_first_of_equals
           [lit "/a/x_v2.ma"; lit "/a/y_v5.ma"; lit "/b/z_v05.ma";
            lit "/b/w_v5.ma"] (lit "/a/x_v2.ma")).
  - simpl. now left.
  - vm_compute. discriminate.
Defined.

Example select_first_of_equals :
  select_highest_version
    [lit "/a/x_v2.ma"; lit "/a/y_v5.ma"; lit "/b/z_v05.ma"; lit "/b/w_v5.ma"]
  = Some (lit "/a/y_v5.ma").
Proof. reflexivity. Qed.

(** ** The file system *)

Lemma fnode_ind (P : fnode -> Prop) :
  (forall t, P (File t)) ->
  (forall es, (forall name x, In (name, x) es -> P x) -> P (Dir es)) ->
  forall n, P n.
Proof.
  intros Hf Hd. fix IH 1. intros [t | es].
  - apply Hf.
  - apply Hd. induction es as [|[name x] es IHes].
    + intros name' x' [].
    + intros name' x' [E | Hin].
      * injection E as _ <-. apply IH.
      * eapply IHes; eauto.
Qed.

Lemma lookup_in name es x :
  lookup name es = Some x -> In (name, x) es.
Proof.
  induction es as [|[n y] es IH]; simpl; [discriminate|].
  destruct (str_eqb n name) eqn:E.
  - apply str_eqb_eq in E. subst n. intros [= ->]. now left.
  - intros H. right. now apply IH.
Qed.

Lemma names_ok_entry es name x :
  names_ok (Dir es) = true -> In (name, x) es ->
  name_ok name = true /\ names_ok x = true.
Proof.
  simpl. rewrite forallb_forall. intros H Hin.
  specialize (H _ Hin). simpl in H. now apply andb_true_iff in H.
Qed.

Lemma names_ok_get names :
  forall n x, names_ok n = true -> get n names = Some x -> names_ok x = true.
Proof.
  induction names as [|c names IH]; intros n x Hn H; simpl in H.
  - now injection H as <-.
  - destruct n as [t | es]; [discriminate|].
    destruct (lookup c es) as [y|] eqn:L; [|discriminate].
    apply (IH y x); [|exact H].
    apply lookup_in in L. now destruct (names_ok_entry es c y Hn L).
Qed.

Lemma in_filenames es fn :
  In fn (filenames es) -> exists x, In (fn, x) es.
Proof.
  unfold filenames. rewrite in_map_iff.
  intros [[n x] [<- H]]. apply filter_In in H as [H _]. now exists x.
Qed.

(** Every file name that a walk lists is a proper name. *)
Lemma walk_names_ok n :
  forall top, names_ok n = true ->
  forall d ds fns fn,
    In (d, ds, fns) (walk top n) -> In fn fns -> name_ok fn = true.
Proof.
  induction n as [t | es IH] using fnode_ind; intros top Hn d ds fns fn Hw Hfn.
  - destruct Hw.
  - cbn [walk] in Hw. destruct Hw as [E | Hw].
    + injection E as _ _ <-. apply in_filenames in Hfn as [x Hx].
      now destruct (names_ok_entry es fn x Hn Hx).
    + apply in_flat_map in Hw as [[name x] [Hin Hw]]. simpl in Hw.
      destruct (names_ok_entry es name x Hn Hin) as [_ Hx].
      eapply IH; eauto.
Qed.

Lemma os_walk_names_ok fs top d ds fns fn :
  names_ok fs = true ->
  In (d, ds, fns) (os_walk fs top) -> In fn fns -> name_ok fn = true.
Proof.
  unfold os_walk. intros Hfs Hw Hfn.
  destruct (get fs (resolve top)) as [n|] eqn:G; [|destruct Hw].
  exact (walk_names_ok n top (names_ok_get _ _ _ Hfs G) d ds fns fn Hw Hfn).
Qed.

Lemma name_ok_no_slash name : name_ok name = true -> ~ In slash name.
Proof.
  unfold name_ok. intros H Hin.
  apply andb_true_iff in H as [_ H]. apply negb_true_iff in H.
  assert (existsb (Ascii.eqb slash) name = true)
    by (apply existsb_exists; exists slash; split;
        [exact Hin | apply Ascii.eqb_refl]).
  congruence.
Qed.

(** What [find_all_ma_files] collects: names that match the pattern, each
    joined to the directory that lists it. *)
Lemma find_all_ma_files_spec fs root p :
  names_ok fs = true ->
  In p (find_all_ma_files fs root) ->
  exists dirpath fn,
    p = path_join dirpath fn
    /\ re_match true version_regex fn <> None
    /\ ~ In slash fn.
Proof.
  unfold find_all_ma_files, matching_files. intros Hfs H.
  apply in_flat_map in H as [[[d ds] fns] [Hw H]]. simpl in H.
  apply in_map_iff in H as [fn [<- H]].
  apply filter_In in H as [Hfn Hm].
  exists d, fn. repeat split.
  - destruct (re_match true version_regex fn); [discriminate | discriminate Hm].
  - apply name_ok_no_slash.
    exact (os_walk_names_ok fs root d ds fns fn Hfs Hw Hfn).
Qed.

(** ** Versioned file names *)

Lemma atom_underscore c : atom_ok true (Chr "_") c = true -> c = "_"%char.
Proof.
  destruct c as [[] [] [] [] [] [] [] []]; vm_compute; intros H;
    first [reflexivity | discriminate H].
Qed.

Lemma atom_dot c : atom_ok true (Chr ".") c = true -> c = "."%char.
Proof.
  destruct c as [[] [] [] [] [] [] [] []]; vm_compute; intros H;
    first [reflexivity | discriminate H].
Qed.

(** The shape of a name that [version_regex] matches from its start. *)
Lemma version_regex_shape fn :
  re_match true version_regex fn <> None ->
  exists X v d D m a tl,
    fn = X ++ "_"%char :: v :: d :: D ++ "."%char :: m :: a :: tl
    /\ forallb (atom_ok true AnyChar) X = true
    /\ atom_ok true (Chr "v") v = true
    /\ is_digit d = true /\ forallb is_digit D = true
    /\ atom_ok true (Chr "m") m = true
    /\ atom_ok true (Chr "a") a = true
    /\ at_end tl = true.
Proof.
  intros H. apply re_match_accepts in H.
  apply accepts_star in H as [X [w [-> [HX H]]]].
  inversion H as [| ? ? ? c1 w1 A1 H1 | | | | | |]; subst; clear H.
  inversion H1 as [| ? ? ? v w2 A2 H2 | | | | | |]; subst; clear H1.
  inversion H2 as [| ? ? ? d w3 A3 H3 | | | | | |]; subst; clear H2.
  apply accepts_star in H3 as [D [w4 [-> [HD H4]]]].
  inversion H4 as [| ? ? ? c2 w5 A5 H5 | | | | | |]; subst; clear H4.
  inversion H5 as [| ? ? ? m w6 A6 H6 | | | | | |]; subst; clear H5.
  inversion H6 as [| ? ? ? a w7 A7 H7 | | | | | |]; subst; clear H6.
  inversion H7 as [| | | | | ? ? ? E _ | |]; subst; clear H7.
  apply atom_underscore in A1. apply atom_dot in A5. subst c1 c2.
  exists X, v, d, D, m, a, w7. repeat split; assumption.
Qed.

(** [extract_version_number] reads a version off every such name. *)
Lemma version_shape_extract X v d D m a tl :
  atom_ok true (Chr "v") v = true ->
  is_digit d = true -> forallb is_digit D = true ->
  atom_ok true (Chr "m") m = true ->
  atom_ok true (Chr "a") a = true ->
  at_end tl = true ->
  extract_version_number
    (X ++ "_"%char :: v :: d :: D ++ "."%char :: m :: a :: tl) <> None.
Proof.
  intros Hv Hd HD Hm Ha Htl. unfold extract_version_number, re_search.
  set (fn := X ++ _).
  assert (search_from true re_version_number fn 0 <> None) as S.
  { apply (search_from_complete true re_version_number (List.length X)).
    - unfold fn. rewrite length_app. lia.
    - unfold fn. rewrite skipn_prefix.
      unfold re_version_number. cbn [chars lit list_ascii_of_string map app].
      apply acc_one; [reflexivity|].
      apply acc_one; [exact Hv|].
      apply acc_open.
      apply acc_one; [exact Hd|].
      apply (accepts_star_run true DigitCls _ D); [exact HD|].
      apply acc_close.
      apply acc_one; [reflexivity|].
      apply acc_one; [exact Hm|].
      apply acc_one; [exact Ha|].
      apply acc_eos; [exact Htl|]. apply acc_nil. }
  destruct (search_from true re_version_number fn 0) as [[i sp]|];
    [discriminate | congruence].
Qed.

Lemma rfind_from_lower c u :
  forall i last, (last < i)%Z -> (last <= rfind_from c u i last)%Z.
Proof.
  induction u as [|d u IH]; intros i last H; cbn [rfind_from]; [lia|].
  specialize (IH (i + 1)%Z (if Ascii.eqb d c then i else last)).
  destruct (Ascii.eqb d c); lia.
Qed.

Lemma digits_exclude c D :
  forallb is_digit D = true -> is_digit c = false -> ~ In c D.
Proof.
  intros HD Hc Hin. rewrite forallb_forall in HD.
  specialize (HD c Hin). congruence.
Qed.

Lemma at_end_cases tl : at_end tl = true -> tl = [] \/ tl = [newline].
Proof.
  destruct tl as [|c [|c' tl]]; simpl; intros H;
    [now left | right | discriminate].
  apply Ascii.eqb_eq in H. now subst c.
Qed.

Lemma has_non_dot_app x c y :
  c <> dot -> has_non_dot (x ++ c :: y) = true.
Proof.
  intros H. induction x as [|e x IH]; simpl.
  - destruct (Ascii.eqb c dot) eqn:E; [|reflexivity].
    apply Ascii.eqb_eq in E. contradiction.
  - destruct (Ascii.eqb e dot); [exact IH | reflexivity].
Qed.

(** [splitext] cuts such a name just before its extension. *)
Lemma version_shape_splitext X v d D m a tl :
  atom_ok true (Chr "v") v = true ->
  is_digit d = true -> forallb is_digit D = true ->
  atom_ok true (Chr "m") m = true ->
  atom_ok true (Chr "a") a = true ->
  at_end tl = true ->
  splitext (X ++ "_"%char :: v :: d :: D ++ "."%char :: m :: a :: tl)
  = (X ++ "_"%char :: v :: d :: D, "."%char :: m :: a :: tl).
Proof.
  intros Hv Hd HD Hm Ha Htl.
  set (u := X ++ "_"%char :: v :: d :: D).
  set (rest := "."%char :: m :: a :: tl).
  assert (Efn : X ++ "_"%char :: v :: d :: D ++ rest = u ++ rest).
  { unfold u. now rewrite <- app_assoc. }
  rewrite Efn.
  assert (Ndot : ~ In dot (m :: a :: tl)).
  { intros [E | [E | Hin]];
      [subst m; vm_compute in Hm; discriminate Hm
      | subst a; vm_compute in Ha; discriminate Ha |].
    destruct (at_end_cases tl Htl) as [-> | ->]; [destruct Hin|].
    destruct Hin as [E | []]. discriminate E. }
  assert (Nslash : ~ In slash ("_"%char :: v :: d :: D ++ rest)).
  { intros [E | [E | [E | Hin]]];
      [discriminate E
      | subst v; vm_compute in Hv; discriminate Hv
      | subst d; vm_compute in Hd; discriminate Hd |].
    apply in_app_or in Hin as [Hin | [E | [E | [E | Hin]]]];
      [ now apply (digits_exclude slash D HD)
      | discriminate E
      | subst m; vm_compute in Hm; discriminate Hm
      | subst a; vm_compute in Ha; discriminate Ha |].
    destruct (at_end_cases tl Htl) as [-> | ->]; [destruct Hin|].
    destruct Hin as [E | []]. discriminate E. }
  assert (Rdot : rfind dot (u ++ rest) = Z.of_nat (List.length u)).
  { unfold rest. now apply rfind_last. }
  set (s := rfind_from slash X 0 (-1)).
  assert (Rslash : rfind slash (u ++ rest) = s).
  { rewrite <- Efn. unfold rfind. rewrite rfind_from_app.
    now rewrite rfind_from_absent. }
  assert (Bs : (-1 <= s < Z.of_nat (List.length X))%Z).
  { unfold s. split.
    - apply rfind_from_lower. lia.
    - pose proof (rfind_from_bound slash X 0 (-1)). lia. }
  assert (Lu : List.length u = List.length X + S (S (S (List.length D)))).
  { unfold u. rewrite length_app. reflexivity. }
  unfold splitext. rewrite Rdot, Rslash.
  destruct (s <? Z.of_nat (List.length u))%Z eqn:C;
    [| apply Z.ltb_ge in C; lia].
  rewrite Nat2Z.id.
  assert (Hnd : has_non_dot
                  (slice (u ++ rest) (Z.to_nat (s + 1)) (List.length u))
                = true).
  { unfold slice.
    replace (u ++ rest) with (X ++ "_"%char :: v :: d :: D ++ rest)
      by (unfold u; now rewrite <- app_assoc).
    rewrite skipn_app.
    replace (Z.to_nat (s + 1) - List.length X) with 0 by lia.
    cbn [skipn]. rewrite firstn_app.
    rewrite length_skipn.
    replace (List.length u - Z.to_nat (s + 1)
             - (List.length X - Z.to_nat (s + 1)))
      with (S (S (S (List.length D)))) by lia.
    cbn [firstn]. apply has_non_dot_app. discriminate. }
  rewrite Hnd. rewrite firstn_app, firstn_all, Nat.sub_diag. cbn [firstn].
  rewrite app_nil_r. now rewrite skipn_prefix.
Qed.

(** The name without its extension matches the pattern that takes the
    version off. *)
Lemma version_shape_base X v d D :
  forallb (atom_ok true AnyChar) X = true ->
  atom_ok true (Chr "v") v = true ->
  is_digit d = true -> forallb is_digit D = true ->
  re_match true re_base_version (X ++ "_"%char :: v :: d :: D) <> None.
Proof.
  intros HX Hv Hd HD. apply re_match_accepts.
  unfold re_base_version. cbn [chars lit list_ascii_of_string map app].
  apply acc_bos. apply acc_open.
  apply (accepts_star_run true AnyChar _ X); [exact HX|].
  apply acc_close.
  apply acc_one; [reflexivity|].
  apply acc_one; [exact Hv|].
  apply acc_one; [exact Hd|].
  rewrite <- (app_nil_r D).
  apply (accepts_star_run true DigitCls _ D); [exact HD|].
  apply acc_eos; [reflexivity|]. apply acc_nil.
Qed.

(** ** The orchestrator *)

Lemma path_join_nonempty d fn : fn <> [] -> path_join d fn <> [].
Proof.
  intros H. unfold path_join.
  destruct (starts_with [slash] fn); [exact H|].
  destruct (str_eqb d [] || ends_with [slash] d).
  - intros E. apply app_eq_nil in E. tauto.
  - intros E. apply app_eq_nil in E as [_ E]. discriminate.
Qed.

(** Every path that the scanner collects has a version, is not empty, and
    has a base name that the pattern of step 4 matches. *)
Lemma candidate_ok fs root p :
  names_ok fs = true ->
  In p (find_all_ma_files fs root) ->
  version_of p <> None
  /\ p <> []
  /\ re_match true re_base_version (fst (splitext (basename p))) <> None.
Proof.
  intros Hfs Hp.
  destruct (find_all_ma_files_spec fs root p Hfs Hp)
    as [d [fn [-> [Hm Hs]]]].
  destruct (version_regex_shape fn Hm)
    as [X [v [dg [D [m [a [tl [-> [HX [Hv [Hd [HD [Hm' [Ha Htl]]]]]]]]]]]]]].
  unfold version_of. rewrite basename_join by exact Hs.
  repeat split.
  - now apply version_shape_extract.
  - apply path_join_nonempty. destruct X; discriminate.
  - rewrite version_shape_splitext by assumption. simpl fst.
    now apply version_shape_base.
Qed.

Lemma selected_is_candidate l p :
  select_highest_version l = Some p -> In p l.
Proof.
  intros H. destruct (select_highest_version_spec l)
    as [[E _] | [l1 [p' [l2 [v [-> [E _]]]]]]]; [congruence|].
  rewrite E in H. injection H as <-. apply in_or_app. right. now left.
Qed.

Lemma candidates_selected fs root :
  names_ok fs = true ->
  find_all_ma_files fs root <> [] ->
  exists p,
    select_highest_version (find_all_ma_files fs root) = Some p
    /\ In p (find_all_ma_files fs root)
    /\ truthy (Some p) = true.
Proof.
  intros Hfs Hne.
  destruct (find_all_ma_files fs root) as [|q l] eqn:E; [congruence|].
  rewrite <- E in *.
  assert (Hq : In q (find_all_ma_files fs root)) by (rewrite E; now left).
  destruct (candidate_ok fs root q Hfs Hq) as [Vq _].
  destruct (select_highest_version_spec (find_all_ma_files fs root))
    as [[_ H] | [l1 [p [l2 [v [El [Es _]]]]]]].
  - now rewrite (H q Hq) in Vq.
  - exists p. split; [exact Es|].
    assert (Hp : In p (find_all_ma_files fs root))
      by now apply selected_is_candidate.
    split; [exact Hp|].
    destruct (candidate_ok fs root p Hfs Hp) as [_ [Np _]].
    destruct p; [congruence | reflexivity].
Qed.

(** C9.  On a file system with proper entry names, whatever
    [find_all_ma_files] collects has a version that
    [extract_version_number] reads; if it collects anything,
    [select_highest_version] returns one of the paths, and that path's
    base name without extension matches the pattern of step 4.  So no run
    shows the error of step 3 nor the error of the re-parse. *)
Theorem C9_defensive_errors_unreachable (fs : fnode) :
  names_ok fs = true ->
  (forall root p,
      In p (find_all_ma_files fs root) -> version_of p <> None)
  /\ (forall root,
         find_all_ma_files fs root <> [] ->
         exists p,
           select_highest_version (find_all_ma_files fs root) = Some p
           /\ truthy (Some p) = true
           /\ re_match true re_base_version
                (fst (splitext (basename p))) <> None)
  /\ (forall src dst answer,
         ~ In err_undetermined (fst (clone_latest src dst answer fs))
         /\ forall fn,
              ~ In (err_bad_name fn) (fst (clone_latest src dst answer fs))).
Proof.
  intros Hfs. split; [|split].
  - intros root p Hp. now destruct (candidate_ok fs root p Hfs Hp).
  - intros root Hne.
    destruct (candidates_selected fs root Hfs Hne) as [p [Es [Hp Ht]]].
    exists p. repeat split; auto.
    now destruct (candidate_ok fs root p Hfs Hp) as [_ [_ H]].
  - intros src dst answer.
    assert (A : find_all_ma_files fs (strip src) <> [] ->
                negb (truthy (select_highest_version
                                (find_all_ma_files fs (strip src)))) = false
                /\ re_match true re_base_version
                     (fst (splitext (basename (the_str
                        (select_highest_version
                           (find_all_ma_files fs (strip src))))))) <> None).
    { intros Hne.
      destruct (candidates_selected fs _ Hfs Hne) as [p [Es [Hp Ht]]].
      rewrite Es. rewrite Ht. split; [reflexivity|]. simpl the_str.
      now destruct (candidate_ok fs _ p Hfs Hp) as [_ [_ H]]. }
    clone_cases src dst answer fs;
      try (destruct A as [A1 A2]; [rewrite Hall; discriminate|]; congruence);
      (split; [| intros fn]); cbn; intuition discriminate.
Qed.

Lemma C9_defensive_errors_unreachable_witness :
  names_ok scenes_fs = true
  /\ (forall root p,
         In p (find_all_ma_files scenes_fs root) -> version_of p <> None)
  /\ (forall root,
         find_all_ma_files scenes_fs root <> [] ->
         exists p,
           select_highest_version (find_all_ma_files scenes_fs root) = Some p
           /\ truthy (Some p) = true
           /\ re_match true re_base_version
                (fst (splitext (basename p))) <> None)
  /\ (forall src dst answer,
         ~ In err_undetermined (fst (clone_latest src dst answer scenes_fs))
         /\ forall fn,
              ~ In (err_bad_name fn)
                   (fst (clone_latest src dst answer scenes_fs))).
Proof.
  split; [reflexivity|].
  apply (C9_defensive_errors_unreachable scenes_fs). reflexivity.
Defined.

(** *** Files are kept by [makedirs] and by writing elsewhere *)

Lemma lookup_update_same c x es y :
  lookup c es = Some y -> lookup c (update c x es) = Some x.
Proof.
  induction es as [|[n z] es IH]; simpl; [discriminate|].
  destruct (str_eqb n c) eqn:E; simpl; rewrite E; auto.
Qed.

Lemma lookup_update_other c c' x es :
  c' <> c -> lookup c' (update c x es) = lookup c' es.
Proof.
  intros H. induction es as [|[n z] es IH]; simpl; [reflexivity|].
  destruct (str_eqb n c) eqn:E; simpl.
  - apply str_eqb_eq in E. subst n.
    destruct (str_eqb c c') eqn:E'; [|reflexivity].
    apply str_eqb_eq in E'. congruence.
  - now rewrite IH.
Qed.

Lemma lookup_app_some c es es' y :
  lookup c es = Some y -> lookup c (es ++ es') = Some y.
Proof.
  induction es as [|[n z] es IH]; simpl; [discriminate|].
  destruct (str_eqb n c); auto.
Qed.

Lemma mkdirs_keeps_files p names' :
  forall n n' names t,
    mkdirs p n names' = inr n' ->
    get n names = Some (File t) -> get n' names = Some (File t).
Proof.
  induction names' as [|c ns IH]; intros n n' names t Hm Hg.
  - destruct n; simpl in Hm; [discriminate | now injection Hm as <-].
  - destruct n as [t0 | es]; [discriminate|]. simpl in Hm.
    destruct names as [|c2 nm]; [discriminate|]. simpl in Hg.
    destruct (lookup c2 es) as [y|] eqn:L2; [|discriminate].
    destruct (lookup c es) as [x|] eqn:L.
    + destruct (mkdirs p x ns) as [e|x'] eqn:M; [discriminate|].
      injection Hm as <-. simpl.
      destruct (list_eq_dec ascii_dec c2 c) as [-> | Hne].
      * rewrite (lookup_update_same c x' es x L).
        rewrite L in L2. injection L2 as <-. eapply IH; eauto.
      * rewrite lookup_update_other by exact Hne. now rewrite L2.
    + injection Hm as <-. simpl.
      now rewrite (lookup_app_some c2 es _ y L2).
Qed.



Lemma truthy_some (o : option str) :
  negb (truthy o) = false -> exists p, o = Some p /\ p <> [].
Proof.
  destruct o as [[|c p]|]; simpl; try discriminate.
  intros _. eexists. split; [reflexivity | discriminate].
Qed.


(** *** Validation of the tokens *)

Lemma truthy_find_token pfx path :
  truthy (find_token (re_token pfx) path) = false
  <-> find_token (re_token pfx) path = None.
Proof.
  rewrite find_token_first. split.
  - destruct (first_token _ _) as [t|] eqn:E; [|reflexivity].
    destruct (first_token_shape _ _ _ E) as [ds [-> [Hds _]]].
    destruct ds; [congruence|].
    destruct (lit pfx); discriminate.
  - now intros ->.
Qed.

Lemma find_token_absent pfx path :
  (forall a d b,
      is_digit d = true ->
      replace [backslash] [slash] path <> a ++ lit pfx ++ d :: b) ->
  find_token (re_token pfx) path = None.
Proof.
  intros H. rewrite find_token_first. now apply first_token_none_iff.
Qed.

Lemma all_truthy_false (a b c : option str) :
  negb (truthy a && truthy b && truthy c) = true <->
  truthy a = false \/ truthy b = false \/ truthy c = false.
Proof.
  destruct (truthy a), (truthy b), (truthy c); simpl; intuition discriminate.
Qed.

(** C6 (as amended).  A path that holds no [ep_], [sq_] or [sh_] followed
    by a digit gives [None] for that token.  If a token is missing from the
    source or the destination path the run ends with one error box and the
    file system as it was.  When the source is an existing directory and the
    destination is not empty, a token missing from the source path gives the
    message that shows the three source tokens, [None] for exactly the
    missing ones; when the source path has all three, a token missing from
    the destination path gives that message for the destination.  A source
    that is empty or not an existing directory is reported first, and an
    empty destination next, each by its own message and without the list
    of tokens, whatever tokens are missing. *)
Theorem C6_missing_tokens (src dst : str) (answer : bool) (fs : fnode) :
  let src_norm := replace [backslash] [slash] (strip src) in
  let dst_norm := replace [backslash] [slash] (strip dst) in
  let old_ep := find_token re_ep src_norm in
  let old_sq := find_token re_sq src_norm in
  let old_sh := find_token re_sh src_norm in
  let new_ep := find_token re_ep dst_norm in
  let new_sq := find_token re_sq dst_norm in
  let new_sh := find_token re_sh dst_norm in
  (forall pfx path,
      (forall a d b, is_digit d = true ->
                     replace [backslash] [slash] path
                     <> a ++ lit pfx ++ d :: b) ->
      find_token (re_token pfx) path = None)
  /\ (old_ep = None \/ old_sq = None \/ old_sh = None
      \/ new_ep = None \/ new_sq = None \/ new_sh = None ->
      exists message,
        clone_latest src dst answer fs
        = ([ShowError (lit "Error") message], fs))
  /\ (isdir fs (strip src) = true -> strip src <> [] -> strip dst <> [] ->
      (old_ep = None \/ old_sq = None \/ old_sh = None ->
       clone_latest src dst answer fs
       = ([err_source_tokens old_ep old_sq old_sh], fs))
      /\ (old_ep <> None -> old_sq <> None -> old_sh <> None ->
          new_ep = None \/ new_sq = None \/ new_sh = None ->
          clone_latest src dst answer fs
          = ([err_dest_tokens new_ep new_sq new_sh], fs)))
  /\ (forall pfx path,
         show (find_token (re_token pfx) path) = lit "None"
         <-> find_token (re_token pfx) path = None)
  /\ (strip src = [] \/ isdir fs (strip src) = false ->
      clone_latest src dst answer fs = ([err_bad_source], fs))
  /\ (strip src <> [] -> isdir fs (strip src) = true -> strip dst = [] ->
      clone_latest src dst answer fs = ([err_no_dest], fs))
  /\ (forall o1 o2 o3,
         err_bad_source <> err_source_tokens o1 o2 o3
         /\ err_bad_source <> err_dest_tokens o1 o2 o3
         /\ err_no_dest <> err_source_tokens o1 o2 o3
         /\ err_no_dest <> err_dest_tokens o1 o2 o3).
Proof.
  intros src_norm dst_norm old_ep old_sq old_sh new_ep new_sq new_sh.
  split; [|split; [|split; [|split; [|split; [|split]]]]].
  - apply find_token_absent.
  - intros H.
    assert (negb (truthy old_ep && truthy old_sq && truthy old_sh) = true
            \/ negb (truthy new_ep && truthy new_sq && truthy new_sh) = true)
      as Hmiss.
    { rewrite !all_truthy_false.
      destruct H as [H | [H | [H | [H | [H | H]]]]]; rewrite H; simpl; auto. }
    unfold old_ep, old_sq, old_sh, new_ep, new_sq, new_sh,
      src_norm, dst_norm in Hmiss.
    clone_cases src dst answer fs;
      try (eexists; reflexivity);
      destruct Hmiss as [Hmiss | Hmiss]; congruence.
  - intros Hdir Hsrc Hdst.
    assert (Csrc : str_eqb (strip src) [] || negb (isdir fs (strip src))
                   = false).
    { rewrite Hdir. apply str_eqb_neq in Hsrc. now rewrite Hsrc. }
    assert (Cdst : str_eqb (strip dst) [] = false) by now apply str_eqb_neq.
    split.
    + intros H. unfold clone_latest. rewrite Csrc, Cdst. cbv zeta.
      fold src_norm. fold old_ep old_sq old_sh.
      assert (negb (truthy old_ep && truthy old_sq && truthy old_sh) = true)
        as ->; [|reflexivity].
      apply all_truthy_false.
      destruct H as [H | [H | H]]; rewrite H; auto.
    + intros H1 H2 H3 H. unfold clone_latest. rewrite Csrc, Cdst. cbv zeta.
      fold src_norm dst_norm. fold old_ep old_sq old_sh new_ep new_sq new_sh.
      assert (negb (truthy old_ep && truthy old_sq && truthy old_sh) = false)
        as ->.
      { destruct (negb (truthy old_ep && truthy old_sq && truthy old_sh))
          eqn:E; [|reflexivity].
        apply all_truthy_false in E.
        unfold old_ep, old_sq, old_sh, re_ep, re_sq, re_sh in *.
        rewrite !truthy_find_token in E. tauto. }
      assert (negb (truthy new_ep && truthy new_sq && truthy new_sh) = true)
        as ->; [|reflexivity].
      apply all_truthy_false.
      destruct H as [H | [H | H]]; rewrite H; auto.
  - intros pfx path. rewrite find_token_first. split; [|now intros ->].
    destruct (first_token _ _) as [t|] eqn:E; [|reflexivity].
    destruct (first_token_shape _ _ _ E) as [ds [-> [Hds Hd]]].
    simpl show. intros Eq. exfalso.
    destruct ds as [|d ds]; [congruence|]. simpl in Hd.
    apply andb_true_iff in Hd as [Hd _].
    assert (In d (lit "None")) as Hin
      by (rewrite <- Eq; apply in_or_app; right; now left).
    simpl in Hin. destruct Hin as [<- | [<- | [<- | [<- | []]]]];
      discriminate Hd.
  - intros H. unfold clone_latest.
    assert (str_eqb (strip src) [] || negb (isdir fs (strip src)) = true)
      as ->; [|reflexivity].
    destruct H as [H | H].
    + rewrite H. reflexivity.
    + rewrite H. apply orb_true_r.
  - intros Hsrc Hdir Hdst. unfold clone_latest.
    apply str_eqb_neq in Hsrc. rewrite Hsrc, Hdir, Hdst. reflexivity.
  - intros o1 o2 o3. repeat split; intros E; discriminate E.
Qed.

Lemma C6_missing_tokens_witness :
  clone_latest (lit "/shots") (lit "/out/ep_02/sq_020/sh_030") true scenes_fs
  = ([err_source_tokens None None None], scenes_fs).
Proof.
  refine (proj1 (proj1 (proj2 (proj2 (C6_missing_tokens (lit "/shots")
                          (lit "/out/ep_02/sq_020/sh_030") true scenes_fs)))
                   _ _ _) _);
    [reflexivity | discriminate | discriminate | now left].
Defined.

(** C6 as stated fails for a source that is not an existing directory: the
    run reports the invalid source and does not list the tokens. *)
Lemma C6_counterexample :
  ~ (forall src dst answer fs,
       find_token re_sh (replace [backslash] [slash] (strip src)) = None ->
       fst (clone_latest src dst answer fs)
       = [err_source_tokens
            (find_token re_ep (replace [backslash] [slash] (strip src)))
            (find_token re_sq (replace [backslash] [slash] (strip src)))
            (find_token re_sh (replace [backslash] [slash] (strip src)))]).
Proof.
  intros H.
  specialize (H (lit "/nowhere/ep_01/sq_010")
                (lit "/out/ep_02/sq_020/sh_030") true scenes_fs eq_refl).
  vm_compute in H. discriminate H.
Qed.

(** *** Runs that write *)

(** What a run has done when its trace shows a write. *)
Lemma written_run src dst answer fs p text :
  In (WriteFile p text) (fst (clone_latest src dst answer fs)) ->
  exists latest_ma m fs1 content pre post,
    select_highest_version (find_all_ma_files fs (strip src))
    = Some latest_ma
    /\ re_match true re_base_version (fst (splitext (basename latest_ma)))
       = Some m
    /\ makedirs fs (strip dst) = inr fs1
    /\ (isfile fs1 (dest_path dst m) = true -> answer = true)
    /\ read_file fs1 latest_ma = inr content
    /\ p = dest_path dst m
    /\ text = rewritten src dst latest_ma m content
    /\ fst (clone_latest src dst answer fs)
       = pre ++ [ReadFile latest_ma; WriteFile p text] ++ post
    /\ (pre = [MakeDirs (strip dst)]
        \/ pre = [MakeDirs (strip dst);
                  ask_overwrite (group1 m ++ lit "_v001.ma")])
    /\ (forall q t, ~ In (WriteFile q t) post)
    /\ ((exists fs2, write_file fs1 p text = inr fs2
                     /\ snd (clone_latest src dst answer fs) = fs2
                     /\ In status_completed post)
        \/ (exists e, write_file fs1 p text = inl e
                      /\ snd (clone_latest src dst answer fs) = fs1
                      /\ post = [err_write p e])).
Proof.
  clone_cases src dst answer fs; cbn [fst snd app In];
    intros H; repeat (destruct H as [H | H]); try discriminate H;
    try contradiction;
    destruct (truthy_some _ Hlatest) as [latest_ma [El _]];
    rewrite El in *; cbn [the_str] in *;
    injection H as <- <-;
    exists latest_ma, m, fs1, content;
    match goal with
    | Hx : isfile _ _ = true |- _ => eexists [_; _], _
    | Hx : isfile _ _ = false |- _ => eexists [_], _
    end;
    (split; [reflexivity|]); (split; [exact Hmatch|]);
    (split; [reflexivity|]);
    (split; [ first [ reflexivity
                    | intros Hf; unfold dest_path in Hf;
                      pose proof (eq_trans (eq_sym Hexists) Hf) as X;
                      discriminate X ] |]);
    (split; [exact Hread|]); (split; [reflexivity|]);
    (split; [reflexivity|]); (split; [cbn [app]; reflexivity|]);
    (split; [ first [left; reflexivity | right; reflexivity] |]);
    (split; [ intros q t Hq; cbn [In] in Hq;
              repeat (destruct Hq as [Hq | Hq]); try discriminate Hq;
              contradiction |]);
    first [ left; exists fs2;
            split; [exact Hwrite | split; [reflexivity | cbn; auto]]
          | right; exists e;
            split; [exact Hwrite | split; reflexivity] ].
Qed.

Lemma get_new_dirs_file ns :
  forall names t, get (new_dirs ns) names <> Some (File t).
Proof.
  induction ns as [|c ns IH]; intros [|c2 nm] t; simpl; try discriminate.
  destruct (str_eqb c c2); [apply IH | discriminate].
Qed.

Lemma lookup_app_none c es es' :
  lookup c es = None -> lookup c (es ++ es') = lookup c es'.
Proof.
  induction es as [|[n z] es IH]; simpl; [reflexivity|].
  destruct (str_eqb n c); [discriminate | exact IH].
Qed.

(** [makedirs] brings no file in. *)
Lemma mkdirs_no_new_file p names' :
  forall n n' names t,
    mkdirs p n names' = inr n' ->
    get n' names = Some (File t) -> get n names = Some (File t).
Proof.
  induction names' as [|c ns IH]; intros n n' names t Hm Hg.
  - destruct n; simpl in Hm; [discriminate | now injection Hm as <-].
  - destruct n as [t0 | es]; [discriminate|]. simpl in Hm.
    destruct (lookup c es) as [x|] eqn:L.
    + destruct (mkdirs p x ns) as [e|x'] eqn:M; [discriminate|].
      injection Hm as <-.
      destruct names as [|c2 nm]; [discriminate|]. simpl in *.
      destruct (list_eq_dec ascii_dec c2 c) as [-> | Hne].
      * rewrite (lookup_update_same c x' es x L) in Hg. rewrite L.
        eapply IH; eauto.
      * now rewrite lookup_update_other in Hg by exact Hne.
    + injection Hm as <-.
      destruct names as [|c2 nm]; [discriminate|]. simpl in *.
      destruct (lookup c2 es) as [y|] eqn:L2.
      * now rewrite (lookup_app_some c2 es _ y L2) in Hg.
      * rewrite (lookup_app_none c2 es _ L2) in Hg. simpl in Hg.
        destruct (str_eqb c c2); [|discriminate].
        now apply get_new_dirs_file in Hg.
Qed.

(** After a write the file holds the text. *)
Lemma put_file_get p text names :
  forall n n',
    put_file p n names text = inr n' ->
    get n' names = Some (File (Some text)).
Proof.
  induction names as [|c ns IH]; intros n n' Hp.
  - destruct n; simpl in Hp; [|discriminate]. now injection Hp as <-.
  - destruct n as [t0 | es]; [discriminate|]. simpl in Hp.
    destruct (lookup c es) as [x|] eqn:L.
    + destruct (put_file p x ns text) as [e|x'] eqn:M; [discriminate|].
      injection Hp as <-. simpl.
      rewrite (lookup_update_same c x' es x L). now apply (IH x).
    + destruct ns; [|discriminate]. injection Hp as <-. simpl.
      rewrite (lookup_app_none c es _ L). simpl.
      assert (str_eqb c c = true) as -> by now apply str_eqb_eq.
      reflexivity.
Qed.

(** A write changes no other file and brings no other file in. *)
Lemma put_file_other p text names' :
  forall n n' names,
    put_file p n names' text = inr n' ->
    names <> names' ->
    forall t, get n' names = Some (File t) <-> get n names = Some (File t).
Proof.
  induction names' as [|c ns IH]; intros n n' names Hp Hne t.
  - destruct n as [t0 | es]; simpl in Hp; [|discriminate].
    injection Hp as <-.
    destruct names as [|c2 nm]; [congruence|]. simpl. tauto.
  - destruct n as [t0 | es]; [discriminate|]. simpl in Hp.
    destruct (lookup c es) as [x|] eqn:L.
    + destruct (put_file p x ns text) as [e|x'] eqn:M; [discriminate|].
      injection Hp as <-.
      destruct names as [|c2 nm]; [simpl; split; discriminate|]. simpl.
      destruct (list_eq_dec ascii_dec c2 c) as [-> | Hc].
      * rewrite (lookup_update_same c x' es x L), L.
        apply (IH x x' nm M). congruence.
      * rewrite lookup_update_other by exact Hc. tauto.
    + destruct ns; [|discriminate]. injection Hp as <-.
      destruct names as [|c2 nm]; [simpl; split; discriminate|]. simpl.
      destruct (lookup c2 es) as [y|] eqn:L2.
      * rewrite (lookup_app_some c2 es _ y L2). tauto.
      * rewrite (lookup_app_none c2 es _ L2). simpl.
        destruct (str_eqb c c2) eqn:E; [|tauto].
        apply str_eqb_eq in E. subst c2.
        destruct nm as [|c3 nm]; [congruence|]. simpl.
        split; discriminate.
Qed.

(** *** The group of the base-name pattern *)

Lemma match_here_groups_fixed ic ns :
  no_groups ns = true ->
  forall s pos gs ge r,
    match_here ic ns s pos gs ge = Some r ->
    g_start r = gs /\ g_end r = ge.
Proof.
  induction ns as [|n ns IH]; intros Hn s pos gs ge r H.
  - injection H as <-. now split.
  - simpl in Hn. apply andb_true_iff in Hn as [Hh Hn].
    destruct n as [a | a | | | |]; try discriminate Hh.
    + destruct s as [|c s]; [discriminate|]. simpl in H.
      destruct (atom_ok ic a c); [eauto | discriminate].
    + revert pos r H. induction s as [|c s IHs]; intros pos r H.
      * rewrite match_star_nil in H. eauto.
      * rewrite match_star_cons in H.
        destruct (atom_ok ic a c); [|eauto].
        destruct (match_here ic (Star a :: ns) s (S pos) gs ge) eqn:M; eauto.
        injection H as <-. eauto.
    + simpl in H. destruct (pos =? 0)%nat; [eauto | discriminate].
    + simpl in H. destruct (at_end s); [eauto | discriminate].
Qed.

Lemma star_then_close ic a rest s :
  forall pos gs ge r,
    match_here ic (Star a :: GClose :: rest) s pos gs ge = Some r ->
    exists u w,
      s = u ++ w /\ forallb (atom_ok ic a) u = true
      /\ match_here ic rest w (pos + List.length u) gs (pos + List.length u)
         = Some r.
Proof.
  induction s as [|c s IH]; intros pos gs ge r H.
  - rewrite match_star_nil in H. exists [], []. simpl in *.
    now rewrite Nat.add_0_r.
  - rewrite match_star_cons in H.
    destruct (atom_ok ic a c) eqn:A.
    + destruct (match_here ic (Star a :: GClose :: rest) s (S pos) gs ge)
        eqn:M.
      * injection H as <-.
        destruct (IH _ _ _ _ M) as [u [w [-> [Hu Hw]]]].
        exists (c :: u), w. simpl. rewrite A, Hu. repeat split.
        now replace (pos + S (List.length u)) with (S pos + List.length u)
          by lia.
      * exists [], (c :: s). simpl in *. now rewrite Nat.add_0_r.
    + exists [], (c :: s). simpl in *. now rewrite Nat.add_0_r.
Qed.

(** Group 1 of the pattern of step 4 is the name up to its last [_v] and
    digits: the base name with the version taken off. *)
Lemma base_version_split s m :
  re_match true re_base_version s = Some m ->
  exists v d D tl,
    s = group1 m ++ "_"%char :: v :: d :: D ++ tl
    /\ atom_ok true (Chr "v") v = true
    /\ is_digit d = true /\ forallb is_digit D = true
    /\ at_end tl = true.
Proof.
  unfold re_match.
  destruct (match_here true re_base_version s 0 0 0) as [sp|] eqn:M;
    [|discriminate].
  intros [= <-]. unfold group1. cbn [m_subject m_span].
  unfold re_base_version in M.
  cbn [chars lit list_ascii_of_string map app match_here Nat.eqb] in M.
  change (match_here true
            (Star AnyChar :: GClose
             :: One (Chr "_") :: One (Chr "v") :: One DigitCls
             :: Star DigitCls :: [Eos]) s 0 0 0 = Some sp) in M.
  apply star_then_close in M as [u [w [-> [Hu M]]]]. cbn [Nat.add] in M.
  destruct (match_here_groups_fixed true
              (One (Chr "_") :: One (Chr "v") :: One DigitCls
               :: Star DigitCls :: [Eos]) eq_refl _ _ _ _ _ M) as [Gs Ge].
  rewrite Gs, Ge.
  apply match_here_sound in M.
  inversion M as [| ? ? ? c1 w1 A1 H1 | | | | | |]; subst; clear M.
  inversion H1 as [| ? ? ? v w2 A2 H2 | | | | | |]; subst; clear H1.
  inversion H2 as [| ? ? ? d w3 A3 H3 | | | | | |]; subst; clear H2.
  apply accepts_star in H3 as [D [w4 [-> [HD H4]]]].
  inversion H4 as [| | | | | ? ? ? E _ | |]; subst; clear H4.
  apply atom_underscore in A1. subst c1.
  exists v, d, D, w4. repeat split; try assumption.
  unfold slice. simpl skipn. rewrite Nat.sub_0_r.
  rewrite firstn_app, firstn_all, Nat.sub_diag. simpl.
  now rewrite app_nil_r.
Qed.

(** ** The content rewriter *)

Lemma replace_replaced (old new s : str) :
  old <> [] -> replaced old new s (replace old new s).
Proof.
  intros Ho. pattern s. apply (replace_scan_ind old Ho); clear s.
  - rewrite replace_nil by exact Ho. constructor.
  - intros rest IH. rewrite replace_hit by exact Ho. now constructor.
  - intros c s Hm IH. rewrite replace_miss by assumption. now constructor.
Qed.

Lemma replaced_unique (old new s r : str) :
  old <> [] -> replaced old new s r -> r = replace old new s.
Proof.
  intros Ho H. induction H as [| rest r _ IH | c s r Hm _ IH].
  - now rewrite replace_nil.
  - rewrite replace_hit by exact Ho. now rewrite IH.
  - rewrite replace_miss by assumption. now rewrite IH.
Qed.

(** C3 (as amended).  The rewriter applies five literal replacements in a
    fixed order, each one to the whole text left by the one before: old
    episode token to new, old sequence token to new, old shot token to new,
    old file name with extension to new file name, and last the old file
    name without extension, version included, to the base name followed by
    [_v001].  Each replacement is global, over the non-overlapping
    occurrences found from the left.  The text that a run writes is the
    rewriting of the text it has just read, computed in full before the one
    write of the run. *)
Theorem C3_five_ordered_replacements :
  (forall old_ep new_ep old_sq new_sq old_sh new_sh
          latest_fn new_fn base_noext base_before_ver content,
      rewrite_content old_ep new_ep old_sq new_sq old_sh new_sh
        latest_fn new_fn base_noext base_before_ver content
      = apply_substitutions
          (substitutions old_ep new_ep old_sq new_sq old_sh new_sh
             latest_fn new_fn base_noext base_before_ver) content)
  /\ (forall old new s,
         old <> [] ->
         replaced old new s (replace old new s)
         /\ forall r, replaced old new s r -> r = replace old new s)
  /\ (forall src dst answer fs p text,
         In (WriteFile p text) (fst (clone_latest src dst answer fs)) ->
         exists latest_ma m fs1 content pre post,
           select_highest_version (find_all_ma_files fs (strip src))
           = Some latest_ma
           /\ re_match true re_base_version
                (fst (splitext (basename latest_ma))) = Some m
           /\ makedirs fs (strip dst) = inr fs1
           /\ read_file fs1 latest_ma = inr content
           /\ text
              = apply_substitutions
                  (substitutions
                     (src_token re_ep src) (dst_token re_ep dst)
                     (src_token re_sq src) (dst_token re_sq dst)
                     (src_token re_sh src) (dst_token re_sh dst)
                     (basename latest_ma) (group1 m ++ lit "_v001.ma")
                     (fst (splitext (basename latest_ma))) (group1 m))
                  content
           /\ fst (clone_latest src dst answer fs)
              = pre ++ [ReadFile latest_ma; WriteFile p text] ++ post
           /\ (forall q t, ~ In (WriteFile q t) pre)
           /\ (forall q t, ~ In (WriteFile q t) post))
  /\ (forall s m,
         re_match true re_base_version s = Some m ->
         exists v d D tl,
           s = group1 m ++ "_"%char :: v :: d :: D ++ tl
           /\ atom_ok true (Chr "v") v = true
           /\ is_digit d = true /\ forallb is_digit D = true
           /\ at_end tl = true).
Proof.
  split; [|split; [|split]].
  - reflexivity.
  - intros old new s Ho. split.
    + now apply replace_replaced.
    + intros r. now apply replaced_unique.
  - intros src dst answer fs p text H.
    destruct (written_run src dst answer fs p text H)
      as [latest_ma [m [fs1 [content [pre [post
           [Hs [Hm [Hk [_ [Hr [_ [Ht [Htr [Hpre [Hpost _]]]]]]]]]]]]]]]].
    exists latest_ma, m, fs1, content, pre, post.
    repeat split; try assumption.
    intros q t Hq.
    destruct Hpre as [-> | ->]; cbn [In] in Hq;
      repeat (destruct Hq as [Hq | Hq]); try discriminate Hq; contradiction.
  - apply base_version_split.
Qed.

(** C3 as stated fails on its fifth replacement: read as replacing the old
    file name without extension and without version, it turns
    [lighting_v003] into [lighting_v001_v003], where the code gives
    [lighting_v001]. *)
Lemma C3_counterexample :
  ~ (forall old_ep new_ep old_sq new_sq old_sh new_sh
            latest_fn new_fn base_noext base_before_ver content,
        rewrite_content old_ep new_ep old_sq new_sq old_sh new_sh
          latest_fn new_fn base_noext base_before_ver content
        = apply_substitutions
            (spec_substitutions old_ep new_ep old_sq new_sq old_sh new_sh
               latest_fn new_fn base_before_ver) content).
Proof.
  intros H.
  specialize (H (lit "ep_01") (lit "ep_02") (lit "sq_010") (lit "sq_020")
                (lit "sh_020") (lit "sh_030")
                (lit "lighting_v003.ma") (lit "lighting_v001.ma")
                (lit "lighting_v003") (lit "lighting")
                (lit "lighting_v003")).
  vm_compute in H. discriminate H.
Qed.

Example rewrite_code_vs_wording :
  scenario_rewrite (lit "lighting_v003") = lit "lighting_v001"
  /\ apply_substitutions
       (spec_substitutions (lit "ep_01") (lit "ep_02") (lit "sq_010")
          (lit "sq_020") (lit "sh_020") (lit "sh_030")
          (lit "lighting_v003.ma") (lit "lighting_v001.ma") (lit "lighting"))
       (lit "lighting_v003")
     = lit "lighting_v001_v003".
Proof. split; reflexivity. Qed.

(** ** The rewritten text of the scenario *)

Lemma scenario_keeps_reference (a b : str) :
  contains (lit "ep_02_sq_020_sh_030_lighting_v001")
    (scenario_rewrite
       (a ++ lit "ep_01_sq_010_sh_020_lighting_v003" ++ b)) = true.
Proof.
  unfold scenario_rewrite, rewrite_content.
  (* step 1 *)
  destruct (replace_in_block (lit "ep_01") (lit "ep_02") ltac:(discriminate)
              [] (lit "_sq_010_sh_020_lighting_v003") b) with (a := a)
    as [a1 E1]; [each_tail | each_tail | each_tail |].
  change (a ++ lit "ep_01_sq_010_sh_020_lighting_v003" ++ b)
    with (a ++ ([] ++ lit "ep_01" ++ lit "_sq_010_sh_020_lighting_v003") ++ b).
  rewrite E1. clear E1.
  set (b1 := replace (lit "ep_01") (lit "ep_02") b). clearbody b1.
  (* step 2 *)
  destruct (replace_in_block (lit "sq_010") (lit "sq_020") ltac:(discriminate)
              (lit "ep_02_") (lit "_sh_020_lighting_v003") b1) with (a := a1)
    as [a2 E2]; [each_tail | each_tail | each_tail |].
  change ([] ++ lit "ep_02" ++ lit "_sq_010_sh_020_lighting_v003")
    with (lit "ep_02_" ++ lit "sq_010" ++ lit "_sh_020_lighting_v003").
  rewrite E2. clear E2.
  set (b2 := replace (lit "sq_010") (lit "sq_020") b1). clearbody b2.
  (* step 3 *)
  destruct (replace_in_block (lit "sh_020") (lit "sh_030") ltac:(discriminate)
              (lit "ep_02_sq_020_") (lit "_lighting_v003") b2) with (a := a2)
    as [a3 E3]; [each_tail | each_tail | each_tail |].
  change (lit "ep_02_" ++ lit "sq_020" ++ lit "_sh_020_lighting_v003")
    with (lit "ep_02_sq_020_" ++ lit "sh_020" ++ lit "_lighting_v003").
  rewrite E3. clear E3.
  set (b3 := replace (lit "sh_020") (lit "sh_030") b2). clearbody b3.
  change (lit "ep_02_sq_020_" ++ lit "sh_030" ++ lit "_lighting_v003")
    with (lit "ep_02_sq_020_sh_030_lighting_v003").
  destruct (starts_with (lit ".ma") b3) eqn:Hext.
  - (* the reference is followed by the extension: step 4 rewrites it *)
    apply starts_with_iff in Hext as [b4 ->].
    destruct (replace_in_block (lit "lighting_v003.ma")
                (lit "lighting_v001.ma") ltac:(discriminate)
                (lit "ep_02_sq_020_sh_030_") [] b4) with (a := a3)
      as [a4 E4]; [each_tail | each_tail | each_tail |].
    change (a3 ++ lit "ep_02_sq_020_sh_030_lighting_v003" ++ lit ".ma" ++ b4)
      with (a3 ++ (lit "ep_02_sq_020_sh_030_" ++ lit "lighting_v003.ma" ++ [])
               ++ b4).
    rewrite E4. clear E4.
    set (b5 := replace (lit "lighting_v003.ma") (lit "lighting_v001.ma") b4).
    clearbody b5.
    destruct (replace_keeps_block (lit "lighting_v003")
                (lit "lighting" ++ lit "_v001") ltac:(discriminate)
                (lit "ep_02_sq_020_sh_030_lighting_v001") (lit ".ma" ++ b5))
      with (a := a4) as [a5 E5]; [each_tail | each_tail |].
    change (a4 ++ (lit "ep_02_sq_020_sh_030_" ++ lit "lighting_v001.ma" ++ [])
               ++ b5)
      with (a4 ++ lit "ep_02_sq_020_sh_030_lighting_v001" ++ lit ".ma" ++ b5).
    rewrite E5. apply contains_iff. eauto.
  - (* otherwise step 4 leaves it and step 5 rewrites it *)
    destruct (replace_keeps_block (lit "lighting_v003.ma")
                (lit "lighting_v001.ma") ltac:(discriminate)
                (lit "ep_02_sq_020_sh_030_lighting_v003") b3)
      with (a := a3) as [a4 E4]; [each_tail | each_tail; exact Hext |].
    rewrite E4. clear E4.
    set (b4 := replace (lit "lighting_v003.ma") (lit "lighting_v001.ma") b3).
    clearbody b4.
    destruct (replace_in_block (lit "lighting_v003")
                (lit "lighting" ++ lit "_v001") ltac:(discriminate)
                (lit "ep_02_sq_020_sh_030_") [] b4) with (a := a4)
      as [a5 E5]; [each_tail | each_tail | each_tail |].
    change (a4 ++ lit "ep_02_sq_020_sh_030_lighting_v003" ++ b4)
      with (a4 ++ (lit "ep_02_sq_020_sh_030_" ++ lit "lighting_v003" ++ [])
               ++ b4).
    rewrite E5. apply contains_iff. eexists _, _.
    change (lit "ep_02_sq_020_sh_030_" ++ (lit "lighting" ++ lit "_v001") ++ [])
      with (lit "ep_02_sq_020_sh_030_lighting_v001").
    reflexivity.
Qed.

Lemma scenario_removes_old (content : str) :
  let r := scenario_rewrite content in
  contains (lit "ep_01") r = false
  /\ contains (lit "sq_010") r = false
  /\ contains (lit "sh_020") r = false
  /\ contains (lit "lighting_v003") r = false.
Proof.
  unfold scenario_rewrite, rewrite_content. cbv zeta.
  repeat split.
  - do 4 (apply replace_keeps_absent; [discriminate | reflexivity |]).
    apply replace_removes; [discriminate | reflexivity].
  - do 3 (apply replace_keeps_absent; [discriminate | reflexivity |]).
    apply replace_removes; [discriminate | reflexivity].
  - do 2 (apply replace_keeps_absent; [discriminate | reflexivity |]).
    apply replace_removes; [discriminate | reflexivity].
  - apply replace_removes; [discriminate | reflexivity].
Qed.

(** ** End to end *)

Lemma success_has_write src dst answer fs :
  In status_completed (fst (clone_latest src dst answer fs)) ->
  exists p text, In (WriteFile p text) (fst (clone_latest src dst answer fs)).
Proof.
  clone_cases src dst answer fs; cbn [fst app In];
    intros H; repeat (destruct H as [H | H]); try discriminate H;
    try contradiction;
    eexists _, _; do 4 (try (left; reflexivity); right); contradiction.
Qed.

Lemma read_file_some fs p content :
  read_file fs p = inr content <->
  get fs (resolve p) = Some (File (Some content)).
Proof.
  unfold read_file.
  destruct (get fs (resolve p)) as [[[t|] | es] |]; split;
    intros H; try discriminate H; congruence.
Qed.

(** C1 (as amended).  Take a source path whose first episode, sequence and
    shot tokens are [ep_01], [sq_010], [sh_020], a destination path whose
    first tokens are [ep_02], [sq_020], [sh_030], and let the selected
    latest file be named [lighting_v003.ma].  A run that completes writes
    one file, [lighting_v001.ma] in the destination directory, and changes
    or creates no other file.  Its text is the rewriting of the source
    text: if the source text contains [ep_01_sq_010_sh_020_lighting_v003]
    it contains [ep_02_sq_020_sh_030_lighting_v001], and it has no
    occurrence of [ep_01], [sq_010], [sh_020] or [lighting_v003]. *)
Theorem C1_end_to_end (src dst : str) (answer : bool) (fs : fnode)
  (latest_ma content : str) :
  find_token re_ep (replace [backslash] [slash] (strip src))
  = Some (lit "ep_01") ->
  find_token re_sq (replace [backslash] [slash] (strip src))
  = Some (lit "sq_010") ->
  find_token re_sh (replace [backslash] [slash] (strip src))
  = Some (lit "sh_020") ->
  find_token re_ep (replace [backslash] [slash] (strip dst))
  = Some (lit "ep_02") ->
  find_token re_sq (replace [backslash] [slash] (strip dst))
  = Some (lit "sq_020") ->
  find_token re_sh (replace [backslash] [slash] (strip dst))
  = Some (lit "sh_030") ->
  select_highest_version (find_all_ma_files fs (strip src))
  = Some latest_ma ->
  basename latest_ma = lit "lighting_v003.ma" ->
  read_file fs latest_ma = inr content ->
  In status_completed (fst (clone_latest src dst answer fs)) ->
  let dest_file := path_join (strip dst) (lit "lighting_v001.ma") in
  let text := scenario_rewrite content in
  let fs' := snd (clone_latest src dst answer fs) in
  In (WriteFile dest_file text) (fst (clone_latest src dst answer fs))
  /\ (forall q t,
         In (WriteFile q t) (fst (clone_latest src dst answer fs)) ->
         q = dest_file /\ t = text)
  /\ read_file fs' dest_file = inr text
  /\ (forall names t,
         names <> resolve dest_file ->
         (get fs' names = Some (File t) <-> get fs names = Some (File t)))
  /\ (forall a b,
         content = a ++ lit "ep_01_sq_010_sh_020_lighting_v003" ++ b ->
         contains (lit "ep_02_sq_020_sh_030_lighting_v001") text = true)
  /\ contains (lit "ep_01") text = false
  /\ contains (lit "sq_010") text = false
  /\ contains (lit "sh_020") text = false
  /\ contains (lit "lighting_v003") text = false.
Proof.
  intros Eoe Eoq Eoh Ene Enq Enh Hsel Hbase Hread Hdone dest_file text fs'.
  destruct (success_has_write _ _ _ _ Hdone) as [p [t0 Hw]].
  destruct (written_run src dst answer fs p t0 Hw)
    as [lm [m [fs1 [c0 [pre [post
         [Hs [Hm [Hk [_ [Hr [Hp [Ht [Htr [Hpre [Hpost Hend]]]]]]]]]]]]]]]].
  rewrite Hsel in Hs. injection Hs as <-.
  rewrite Hbase in Hm. vm_compute in Hm. injection Hm as <-.
  (* the text read is the text of the file before the run *)
  assert (c0 = content) as ->.
  { apply read_file_some in Hread.
    apply (mkdirs_keeps_files _ _ _ _ _ _ Hk) in Hread.
    apply read_file_some in Hread. congruence. }
  assert (Ep : p = dest_file) by exact Hp.
  assert (Et : t0 = text).
  { rewrite Ht. unfold rewritten, src_token, dst_token.
    rewrite Eoe, Eoq, Eoh, Ene, Enq, Enh, Hbase. reflexivity. }
  clear Hp Ht. subst p t0.
  (* the run went through: it is not the failed write *)
  destruct Hend as [[fs2 [Hwr [Hfs2 _]]] | [e [_ [_ Hpost']]]].
  2:{ exfalso. rewrite Htr in Hdone. rewrite Hpost' in Hdone.
      destruct Hpre as [-> | ->]; cbn [app In] in Hdone;
        repeat (destruct Hdone as [Hdone | Hdone]);
        try discriminate Hdone; contradiction. }
  fold fs' in Hfs2. rewrite Hfs2.
  split; [exact Hw|].
  split.
  { intros q t Hq. rewrite Htr in Hq.
    apply in_app_or in Hq as [Hq | Hq].
    - exfalso. destruct Hpre as [-> | ->]; cbn [In] in Hq;
        repeat (destruct Hq as [Hq | Hq]); try discriminate Hq; contradiction.
    - cbn [app In] in Hq. destruct Hq as [Hq | [Hq | Hq]].
      + discriminate Hq.
      + now injection Hq as <- <-.
      + exfalso. now apply (Hpost q t). }
  split.
  { apply read_file_some. exact (put_file_get _ _ _ _ _ Hwr). }
  split.
  { intros names t Hne.
    rewrite (put_file_other _ _ _ _ _ names Hwr Hne t). split.
    - apply (mkdirs_no_new_file _ _ _ _ _ _ Hk).
    - apply (mkdirs_keeps_files _ _ _ _ _ _ Hk). }
  split.
  { intros a b ->. apply scenario_keeps_reference. }
  apply scenario_removes_old.
Qed.

Lemma C1_end_to_end_witness :
  In status_completed
     (fst (clone_latest scenario_src scenario_dst true scenario_fs))
  /\ read_file (snd (clone_latest scenario_src scenario_dst true scenario_fs))
       (path_join (strip scenario_dst) (lit "lighting_v001.ma"))
     = inr (scenario_rewrite
              (lit "file ep_01_sq_010_sh_020_lighting_v003; cache_v003"))
  /\ contains (lit "ep_02_sq_020_sh_030_lighting_v001")
       (scenario_rewrite
          (lit "file ep_01_sq_010_sh_020_lighting_v003; cache_v003")) = true
  /\ contains (lit "ep_01")
       (scenario_rewrite
          (lit "file ep_01_sq_010_sh_020_lighting_v003; cache_v003")) = false.
Proof.
  assert (Hrun : In status_completed
            (fst (clone_latest scenario_src scenario_dst true scenario_fs))).
  { vm_compute. do 4 right. now left. }
  split; [exact Hrun|].
  destruct (C1_end_to_end scenario_src scenario_dst true scenario_fs
              (lit "/show/ep_01/sq_010/sh_020/work/lighting_v003.ma")
              (lit "file ep_01_sq_010_sh_020_lighting_v003; cache_v003"))
    as [_ [_ [Hfile [_ [Href [Hep _]]]]]];
    try reflexivity; try exact Hrun.
  split; [exact Hfile|]. split; [|exact Hep].
  apply (Href (lit "file ") (lit "; cache_v003")). reflexivity.
Defined.

(** C1 as stated fails: in the scenario, with a source text that also
    mentions [cache_v003], the run completes and the written file still
    contains [_v003]. *)
Lemma C1_counterexample :
  ~ (forall src dst answer fs content text,
        contains (lit "ep_01/sq_010/sh_020") (strip src) = true ->
        contains (lit "ep_02/sq_020/sh_030") (strip dst) = true ->
        read_file fs (path_join (strip src) (lit "lighting_v003.ma"))
        = inr content ->
        contains (lit "ep_01_sq_010_sh_020_lighting_v003") content = true ->
        In status_completed (fst (clone_latest src dst answer fs)) ->
        read_file (snd (clone_latest src dst answer fs))
          (path_join (strip dst) (lit "lighting_v001.ma")) = inr text ->
        contains (lit "ep_02_sq_020_sh_030_lighting_v001") text = true
        /\ contains (lit "ep_01") text = false
        /\ contains (lit "sq_010") text = false
        /\ contains (lit "sh_020") text = false
        /\ contains (lit "_v003") text = false).
Proof.
  intros H.
  specialize (H scenario_src scenario_dst true scenario_fs
                (lit "file ep_01_sq_010_sh_020_lighting_v003; cache_v003")
                (lit "file ep_02_sq_020_sh_030_lighting_v001; cache_v003")).
  destruct H as [_ [_ [_ [_ H]]]]; try reflexivity.
  - vm_compute. do 4 right. now left.
  - vm_compute in H. discriminate H.
Qed.

(** ** Tokens under replacement *)

Lemma find_token_token_of pfx path t :
  find_token (re_token pfx) path = Some t -> token_of pfx t.
Proof.
  rewrite find_token_first. apply first_token_shape.
Qed.

Lemma agree_sym (u v : str) : agree u v = agree v u.
Proof.
  revert v; induction u as [|c u IH]; intros [|d v]; simpl; auto.
  rewrite IH. f_equal. apply Ascii.eqb_sym.
Qed.

Lemma agree_heads (c d : ascii) (u v : str) :
  c <> d -> agree (c :: u) (d :: v) = false.
Proof.
  intros H. simpl. destruct (Ascii.eqb c d) eqn:E; [|reflexivity].
  apply Ascii.eqb_eq in E. contradiction.
Qed.

Lemma tails_head (s t : str) :
  In t (tails s) -> exists c r, t = c :: r /\ In c s.
Proof.
  induction s as [|c s IH]; simpl; [tauto|].
  intros [<- | H].
  - exists c, s. split; [reflexivity | now left].
  - destruct (IH H) as [c' [r [-> Hin]]]. exists c', r.
    split; [reflexivity | now right].
Qed.

Lemma clash_false_intro (x y : str) :
  (forall t, In t (tails y) -> agree t x = false) ->
  (forall t, In t (tails (tl x)) -> agree t y = false) ->
  clash x y = false.
Proof.
  intros H1 H2. unfold clash. apply orb_false_iff. split.
  - destruct (existsb _ (tails y)) eqn:E; [|reflexivity].
    apply existsb_exists in E as [t [Hin Ht]]. rewrite H1 in Ht; auto.
  - destruct (existsb _ (tails (tl x))) eqn:E; [|reflexivity].
    apply existsb_exists in E as [t [Hin Ht]]. rewrite H2 in Ht; auto.
Qed.

(** In a token, no later character is the first character of a token. *)
Lemma token_tail_chars pfx t c :
  token_prefix pfx -> token_of pfx t -> In c (tl t) ->
  c <> "e"%char /\ c <> "s"%char.
Proof.
  intros Hp [ds [-> [_ Hd]]] Hin.
  assert (Hdig : In c ds -> c <> "e"%char /\ c <> "s"%char).
  { intros Hc. rewrite forallb_forall in Hd. specialize (Hd c Hc).
    split; intros ->; discriminate Hd. }
  destruct Hp as [-> | [-> | ->]]; simpl in Hin;
    destruct Hin as [<- | [<- | Hin]];
    try (split; discriminate); auto.
Qed.

Lemma token_head pfx t :
  token_prefix pfx -> token_of pfx t ->
  exists r, t = "e"%char :: r \/ t = "s"%char :: r.
Proof.
  intros Hp [ds [-> _]].
  destruct Hp as [-> | [-> | ->]]; simpl; eauto.
Qed.

(** Two tokens can overlap in a text only by one being a prefix of the
    other. *)
Lemma token_clash pfx1 pfx2 x y :
  token_prefix pfx1 -> token_prefix pfx2 ->
  token_of pfx1 x -> token_of pfx2 y ->
  agree x y = false -> clash x y = false.
Proof.
  intros P1 P2 T1 T2 Ha.
  destruct (token_head pfx1 x P1 T1) as [rx Hx].
  destruct (token_head pfx2 y P2 T2) as [ry Hy].
  apply clash_false_intro.
  - intros t Ht.
    assert (Hy' : y <> []) by (destruct Hy as [-> | ->]; discriminate).
    destruct y as [|cy y']; [congruence|]. simpl in Ht.
    destruct Ht as [<- | Ht].
    + now rewrite agree_sym.
    + destruct (tails_head _ _ Ht) as [c [r [-> Hc]]].
      destruct (token_tail_chars pfx2 (cy :: y') c P2 T2 Hc) as [Ne Ns].
      destruct Hx as [-> | ->]; now apply agree_heads.
  - intros t Ht.
    destruct (tails_head _ _ Ht) as [c [r [-> Hc]]].
    destruct (token_tail_chars pfx1 x c P1 T1 Hc) as [Ne Ns].
    destruct Hy as [-> | ->]; now apply agree_heads.
Qed.

(** Tokens of different kinds never agree. *)
Lemma token_kinds_differ pfx1 pfx2 x y :
  token_prefix pfx1 -> token_prefix pfx2 -> pfx1 <> pfx2 ->
  token_of pfx1 x -> token_of pfx2 y -> agree x y = false.
Proof.
  intros P1 P2 Hne [dx [-> _]] [dy [-> _]].
  destruct P1 as [-> | [-> | ->]], P2 as [-> | [-> | ->]];
    try congruence; reflexivity.
Qed.

(** An occurrence of a token can only be overlapped by another occurrence
    of it at the same place. *)
Lemma token_unbordered pfx x :
  token_prefix pfx -> token_of pfx x ->
  forall t z, In t (tails (tl x)) -> agree t (x ++ z) = false.
Proof.
  intros P T t z Ht.
  destruct (tails_head _ _ Ht) as [c [r [-> Hc]]].
  destruct (token_tail_chars pfx x c P T Hc) as [Ne Ns].
  destruct (token_head pfx x P T) as [rx [-> | ->]]; now apply agree_heads.
Qed.

Lemma token_nonempty pfx x : token_of pfx x -> x <> [].
Proof.
  intros [ds [-> [Hds _]]] E. apply app_eq_nil in E as [_ E]. contradiction.
Qed.

(** Every occurrence of an old token is replaced. *)
Lemma token_every_occurrence pfx old new a b :
  token_prefix pfx -> token_of pfx old ->
  replace old new (a ++ old ++ b)
  = replace old new a ++ new ++ replace old new b.
Proof.
  intros P T.
  pose proof (token_nonempty pfx old T) as Ho.
  change (a ++ old ++ b) with (a ++ [] ++ (old ++ b)).
  rewrite (replace_around_block old new Ho [] (old ++ b)).
  - simpl. now rewrite replace_hit.
  - intros t Ht. simpl. now apply (token_unbordered pfx).
  - intros t [].
Qed.

Lemma token_chars_no_dot pfx t c :
  token_prefix pfx -> token_of pfx t -> In c t -> c <> dot.
Proof.
  intros Hp [ds [-> [_ Hd]]] Hin.
  apply in_app_or in Hin as [Hin | Hin].
  - destruct Hp as [-> | [-> | ->]]; simpl in Hin;
      destruct Hin as [<- | [<- | [<- | []]]]; discriminate.
  - rewrite forallb_forall in Hd. specialize (Hd c Hin).
    intros ->. discriminate Hd.
Qed.

Lemma token_length pfx t :
  token_prefix pfx -> token_of pfx t -> 4 <= List.length t.
Proof.
  intros Hp [ds [-> [Hds _]]]. rewrite length_app.
  destruct ds; [congruence|].
  destruct Hp as [-> | [-> | ->]]; simpl; lia.
Qed.

(** A token in a versioned file name lies before the extension. *)
Lemma token_in_base pfx t fn :
  token_prefix pfx -> token_of pfx t ->
  re_match true version_regex fn <> None ->
  contains t fn = true -> contains t (fst (splitext fn)) = true.
Proof.
  intros Hp Ht Hm Hc.
  destruct (version_regex_shape fn Hm)
    as [X [v [d [D [m [a [tl [-> [HX [Hv [Hd [HD [Hm' [Ha Htl]]]]]]]]]]]]]].
  rewrite version_shape_splitext by assumption. cbn [fst].
  apply contains_iff in Hc as [a0 [b0 E]].
  set (base := X ++ "_"%char :: v :: d :: D) in *.
  assert (E' : base ++ [dot] ++ m :: a :: tl = a0 ++ t ++ b0).
  { rewrite <- E. unfold base. now rewrite <- app_assoc. }
  assert (Hcl : clash t [dot] = false).
  { apply clash_false_intro.
    - intros u [<- | []].
      destruct (token_head pfx t Hp Ht) as [r [-> | ->]]; reflexivity.
    - intros u Hu. destruct (tails_head _ _ Hu) as [c [r [-> Hin]]].
      apply agree_heads. apply (token_chars_no_dot pfx t c Hp Ht).
      destruct t; [destruct Hin | now right]. }
  destruct (occurrence_cases _ _ _ _ _ _ Hcl E') as [[b' ->] | [a' [Er _]]].
  - apply contains_iff. eauto.
  - exfalso. pose proof (token_length pfx t Hp Ht) as L.
    apply (f_equal (@List.length ascii)) in Er.
    rewrite !length_app in Er. simpl in Er.
    destruct (at_end_cases tl Htl) as [-> | ->]; simpl in Er; lia.
Qed.

(** C10 (as amended).  Let the selected file name contain an old episode,
    sequence or shot token, and let that token and its replacement be such
    that neither is a prefix of the other (as with equal numbers of digits).
    Then the token steps leave no occurrence of the old file name, with or
    without extension, in any text, so steps 4 and 5 change nothing: the
    result is the text after the three token steps, and a reference to the
    file keeps its old version digits. *)
Theorem C10_tokens_hide_filename
  (src_path dst_path latest_fn base_before_ver : str)
  (old_ep new_ep old_sq new_sq old_sh new_sh : str) :
  find_token re_ep src_path = Some old_ep ->
  find_token re_sq src_path = Some old_sq ->
  find_token re_sh src_path = Some old_sh ->
  find_token re_ep dst_path = Some new_ep ->
  find_token re_sq dst_path = Some new_sq ->
  find_token re_sh dst_path = Some new_sh ->
  re_match true version_regex latest_fn <> None ->
  (contains old_ep latest_fn = true /\ agree old_ep new_ep = false)
  \/ (contains old_sq latest_fn = true /\ agree old_sq new_sq = false)
  \/ (contains old_sh latest_fn = true /\ agree old_sh new_sh = false) ->
  forall content,
    let after_tokens :=
      replace old_sh new_sh
        (replace old_sq new_sq (replace old_ep new_ep content)) in
    contains latest_fn after_tokens = false
    /\ contains (fst (splitext latest_fn)) after_tokens = false
    /\ rewrite_content old_ep new_ep old_sq new_sq old_sh new_sh
         latest_fn (base_before_ver ++ lit "_v001.ma")
         (fst (splitext latest_fn)) base_before_ver content
       = after_tokens.
Proof.
  intros Eoe Eoq Eoh Ene Enq Enh Hm Hcase content after_tokens.
  assert (Pe : token_prefix "ep_") by (now left).
  assert (Pq : token_prefix "sq_") by (right; now left).
  assert (Ph : token_prefix "sh_") by (right; now right).
  pose proof (find_token_token_of "ep_" _ _ Eoe) as Toe.
  pose proof (find_token_token_of "sq_" _ _ Eoq) as Toq.
  pose proof (find_token_token_of "sh_" _ _ Eoh) as Toh.
  pose proof (find_token_token_of "ep_" _ _ Ene) as Tne.
  pose proof (find_token_token_of "sq_" _ _ Enq) as Tnq.
  pose proof (find_token_token_of "sh_" _ _ Enh) as Tnh.
  pose proof (token_nonempty _ _ Toe) as Noe.
  pose proof (token_nonempty _ _ Toq) as Noq.
  pose proof (token_nonempty _ _ Toh) as Noh.
  (* some token [t] of the file name is absent after the token steps *)
  assert (exists pfx t,
            token_prefix pfx /\ token_of pfx t
            /\ contains t latest_fn = true
            /\ contains t after_tokens = false)
    as [pfx [t [Pt [Tt [Hin Hout]]]]].
  { destruct Hcase as [[Hc Ha] | [[Hc Ha] | [Hc Ha]]].
    - exists "ep_", old_ep. repeat split; auto. unfold after_tokens.
      apply replace_keeps_absent; [exact Noh | |].
      { apply (token_clash "ep_" "sh_"); auto.
        apply (token_kinds_differ "ep_" "sh_"); auto. discriminate. }
      apply replace_keeps_absent; [exact Noq | |].
      { apply (token_clash "ep_" "sq_"); auto.
        apply (token_kinds_differ "ep_" "sq_"); auto. discriminate. }
      apply replace_removes; [exact Noe|].
      apply (token_clash "ep_" "ep_"); auto.
    - exists "sq_", old_sq. repeat split; auto. unfold after_tokens.
      apply replace_keeps_absent; [exact Noh | |].
      { apply (token_clash "sq_" "sh_"); auto.
        apply (token_kinds_differ "sq_" "sh_"); auto. discriminate. }
      apply replace_removes; [exact Noq|].
      apply (token_clash "sq_" "sq_"); auto.
    - exists "sh_", old_sh. repeat split; auto. unfold after_tokens.
      apply replace_removes; [exact Noh|].
      apply (token_clash "sh_" "sh_"); auto. }
  assert (A1 : contains latest_fn after_tokens = false).
  { destruct (contains latest_fn after_tokens) eqn:C; [|reflexivity].
    now rewrite (contains_trans _ _ _ Hin C) in Hout. }
  assert (A2 : contains (fst (splitext latest_fn)) after_tokens = false).
  { destruct (contains (fst (splitext latest_fn)) after_tokens) eqn:C;
      [|reflexivity].
    pose proof (token_in_base pfx t latest_fn Pt Tt Hm Hin) as Hb.
    now rewrite (contains_trans _ _ _ Hb C) in Hout. }
  split; [exact A1|]. split; [exact A2|].
  unfold rewrite_content. fold after_tokens.
  assert (N1 : latest_fn <> []).
  { intros ->. destruct (version_regex_shape [] Hm)
      as [X [v [d [D [m [a [tl [E _]]]]]]]].
    destruct X; discriminate E. }
  assert (N2 : fst (splitext latest_fn) <> []).
  { intros E. pose proof (token_in_base pfx t latest_fn Pt Tt Hm Hin) as Hb.
    rewrite E in Hb. apply contains_iff in Hb as [a0 [b0 Hb]].
    pose proof (token_nonempty _ _ Tt).
    destruct a0; [destruct t; [congruence | discriminate] | discriminate]. }
  rewrite (replace_absent latest_fn _ N1 _ A1).
  now rewrite (replace_absent _ _ N2 _ A2).
Qed.

Lemma C10_tokens_hide_filename_witness :
  rewrite_content (lit "ep_01") (lit "ep_02") (lit "sq_010") (lit "sq_020")
    (lit "sh_020") (lit "sh_030")
    (lit "ep_01_lighting_v003.ma") (lit "ep_01_lighting" ++ lit "_v001.ma")
    (fst (splitext (lit "ep_01_lighting_v003.ma"))) (lit "ep_01_lighting")
    (lit "ref ep_01_lighting_v003.ma")
  = replace (lit "sh_020") (lit "sh_030")
      (replace (lit "sq_010") (lit "sq_020")
         (replace (lit "ep_01") (lit "ep_02")
            (lit "ref ep_01_lighting_v003.ma"))).
Proof.
  refine (proj2 (proj2
            (C10_tokens_hide_filename scenario_src scenario_dst
               (lit "ep_01_lighting_v003.ma") (lit "ep_01_lighting")
               (lit "ep_01") (lit "ep_02") (lit "sq_010") (lit "sq_020")
               (lit "sh_020") (lit "sh_030") _ _ _ _ _ _ _ _
               (lit "ref ep_01_lighting_v003.ma"))));
    try reflexivity.
  - vm_compute. discriminate.
  - left. split; reflexivity.
Defined.

Example version_digits_survive :
  rewrite_content (lit "ep_01") (lit "ep_02") (lit "sq_010") (lit "sq_020")
    (lit "sh_020") (lit "sh_030")
    (lit "ep_01_lighting_v003.ma") (lit "ep_01_lighting_v001.ma")
    (lit "ep_01_lighting_v003") (lit "ep_01_lighting")
    (lit "ref ep_01_lighting_v003.ma")
  = lit "ref ep_02_lighting_v003.ma".
Proof. reflexivity. Qed.

(** C10 as stated fails when one token is a prefix of the other: going
    from [ep_10] to [ep_1], with the file [ep_10_light_v2.ma], the token
    steps turn the text [ep_100_light_v2.ma] into the old file name, which
    step 4 then finds. *)
Lemma C10_counterexample :
  ~ (forall src_path dst_path latest_fn
            old_ep new_ep old_sq new_sq old_sh new_sh,
        find_token re_ep src_path = Some old_ep ->
        find_token re_sq src_path = Some old_sq ->
        find_token re_sh src_path = Some old_sh ->
        find_token re_ep dst_path = Some new_ep ->
        find_token re_sq dst_path = Some new_sq ->
        find_token re_sh dst_path = Some new_sh ->
        re_match true version_regex latest_fn <> None ->
        (contains old_ep latest_fn = true /\ old_ep <> new_ep)
        \/ (contains old_sq latest_fn = true /\ old_sq <> new_sq)
        \/ (contains old_sh latest_fn = true /\ old_sh <> new_sh) ->
        forall content,
          contains latest_fn
            (replace old_sh new_sh
               (replace old_sq new_sq (replace old_ep new_ep content)))
          = false).
Proof.
  intros H.
  specialize (H (lit "/show/ep_10/sq_010/sh_020/work")
                (lit "/show/ep_1/sq_010/sh_020/work")
                (lit "ep_10_light_v2.ma")
                (lit "ep_10") (lit "ep_1") (lit "sq_010") (lit "sq_010")
                (lit "sh_020") (lit "sh_020")
                eq_refl eq_refl eq_refl eq_refl eq_refl eq_refl).
  assert (re_match true version_regex (lit "ep_10_light_v2.ma") <> None)
    as Hm by (vm_compute; discriminate).
  specialize (H Hm).
  assert (contains (lit "ep_10") (lit "ep_10_light_v2.ma") = true
          /\ lit "ep_10" <> lit "ep_1") as Hc
    by (split; [reflexivity | discriminate]).
  specialize (H (or_introl Hc) (lit "ep_100_light_v2.ma")).
  vm_compute in H. discriminate H.
Qed.

Example created_filename_is_rewritten :
  rewrite_content (lit "ep_10") (lit "ep_1") (lit "sq_010") (lit "sq_010")
    (lit "sh_020") (lit "sh_020")
    (lit "ep_10_light_v2.ma") (lit "ep_10_light_v001.ma")
    (lit "ep_10_light_v2") (lit "ep_10_light")
    (lit "ep_100_light_v2.ma")
  = lit "ep_10_light_v001.ma".
Proof. reflexivity. Qed.

(** ** Identity and occurrences *)

Lemma replace_absent_any (old new s : str) :
  contains old s = false -> replace old new s = s.
Proof.
  destruct old as [|c o].
  - destruct s; discriminate.
  - apply replace_absent. discriminate.
Qed.

(** C8 (as amended).  A text with no occurrence of the old episode,
    sequence and shot tokens nor of the old file name, with or without
    extension, comes out of the five steps unchanged.  Conversely, a token
    step replaces every occurrence of its old token in the text it
    receives, and every step replaces the leftmost occurrence of its old
    string and goes on with the text after it; an occurrence of the old
    file name is replaced by the new name only if it is still there after
    the token steps. *)
Theorem C8_identity_and_occurrences :
  (forall old_ep new_ep old_sq new_sq old_sh new_sh
          latest_fn new_fn base_noext base_before_ver content,
      contains old_ep content = false ->
      contains old_sq content = false ->
      contains old_sh content = false ->
      contains latest_fn content = false ->
      contains base_noext content = false ->
      rewrite_content old_ep new_ep old_sq new_sq old_sh new_sh
        latest_fn new_fn base_noext base_before_ver content = content)
  /\ (forall pfx path old new a b,
         token_prefix pfx ->
         find_token (re_token pfx) path = Some old ->
         replace old new (a ++ old ++ b)
         = replace old new a ++ new ++ replace old new b)
  /\ (forall old new a b,
         old <> [] ->
         (forall t, In t (tails a) ->
                    starts_with old (t ++ old ++ b) = false) ->
         replace old new (a ++ old ++ b) = a ++ new ++ replace old new b)
  /\ (forall old_ep new_ep old_sq new_sq old_sh new_sh
             latest_fn new_fn base_noext base_before_ver content,
         rewrite_content old_ep new_ep old_sq new_sq old_sh new_sh
           latest_fn new_fn base_noext base_before_ver content
         = replace base_noext (base_before_ver ++ lit "_v001")
             (replace latest_fn new_fn
                (after_tokens old_ep new_ep old_sq new_sq old_sh new_sh
                   content)))
  /\ (forall src old_ep new_ep old_sq new_sq old_sh new_sh content a b,
         find_token re_ep src = Some old_ep ->
         find_token re_sq src = Some old_sq ->
         find_token re_sh src = Some old_sh ->
         (after_tokens old_ep new_ep old_sq new_sq old_sh new_sh
            (a ++ old_ep ++ b)
          = replace old_sh new_sh
              (replace old_sq new_sq
                 (replace old_ep new_ep a ++ new_ep
                  ++ replace old_ep new_ep b)))
         /\ (replace old_ep new_ep content = a ++ old_sq ++ b ->
             after_tokens old_ep new_ep old_sq new_sq old_sh new_sh content
             = replace old_sh new_sh
                 (replace old_sq new_sq a ++ new_sq
                  ++ replace old_sq new_sq b))
         /\ (replace old_sq new_sq (replace old_ep new_ep content)
             = a ++ old_sh ++ b ->
             after_tokens old_ep new_ep old_sq new_sq old_sh new_sh content
             = replace old_sh new_sh a ++ new_sh
               ++ replace old_sh new_sh b))
  /\ (forall old_ep new_ep old_sq new_sq old_sh new_sh
             latest_fn new_fn base_noext base_before_ver content,
         contains latest_fn
           (after_tokens old_ep new_ep old_sq new_sq old_sh new_sh content)
         = false ->
         rewrite_content old_ep new_ep old_sq new_sq old_sh new_sh
           latest_fn new_fn base_noext base_before_ver content
         = replace base_noext (base_before_ver ++ lit "_v001")
             (after_tokens old_ep new_ep old_sq new_sq old_sh new_sh
                content))
  /\ (forall old_ep new_ep old_sq new_sq old_sh new_sh
             latest_fn new_fn base_noext base_before_ver content a b,
         latest_fn <> [] ->
         after_tokens old_ep new_ep old_sq new_sq old_sh new_sh content
         = a ++ latest_fn ++ b ->
         (forall t, In t (tails a) ->
                    starts_with latest_fn (t ++ latest_fn ++ b) = false) ->
         rewrite_content old_ep new_ep old_sq new_sq old_sh new_sh
           latest_fn new_fn base_noext base_before_ver content
         = replace base_noext (base_before_ver ++ lit "_v001")
             (a ++ new_fn ++ replace latest_fn new_fn b))
  /\ (forall old_ep new_ep old_sq new_sq old_sh new_sh
             latest_fn new_fn base_noext base_before_ver content a b,
         base_noext <> [] ->
         replace latest_fn new_fn
           (after_tokens old_ep new_ep old_sq new_sq old_sh new_sh content)
         = a ++ base_noext ++ b ->
         (forall t, In t (tails a) ->
                    starts_with base_noext (t ++ base_noext ++ b) = false) ->
         rewrite_content old_ep new_ep old_sq new_sq old_sh new_sh
           latest_fn new_fn base_noext base_before_ver content
         = a ++ (base_before_ver ++ lit "_v001")
           ++ replace base_noext (base_before_ver ++ lit "_v001") b).
Proof.
  split; [|split; [|split; [|split; [|split; [|split; [|split]]]]]].
  - intros old_ep new_ep old_sq new_sq old_sh new_sh
           latest_fn new_fn base_noext base_before_ver content H1 H2 H3 H4 H5.
    unfold rewrite_content.
    rewrite (replace_absent_any old_ep new_ep content H1).
    rewrite (replace_absent_any old_sq new_sq content H2).
    rewrite (replace_absent_any old_sh new_sh content H3).
    rewrite (replace_absent_any latest_fn new_fn content H4).
    now apply replace_absent_any.
  - intros pfx path old new a b Hp Hf.
    apply (token_every_occurrence pfx); [exact Hp|].
    now apply (find_token_token_of pfx path).
  - intros old new a b Ho H.
    rewrite (replace_copy old new Ho a (old ++ b) H).
    now rewrite replace_hit.
  - reflexivity.
  - intros src old_ep new_ep old_sq new_sq old_sh new_sh content a b
           Hep Hsq Hsh.
    unfold after_tokens. split; [|split].
    + rewrite (token_every_occurrence "ep_"); [reflexivity | now left |].
      exact (find_token_token_of "ep_" src old_ep Hep).
    + intros E. rewrite E.
      rewrite (token_every_occurrence "sq_");
        [reflexivity | right; now left |].
      exact (find_token_token_of "sq_" src old_sq Hsq).
    + intros E. rewrite E.
      apply (token_every_occurrence "sh_"); [right; now right |].
      exact (find_token_token_of "sh_" src old_sh Hsh).
  - intros old_ep new_ep old_sq new_sq old_sh new_sh
           latest_fn new_fn base_noext base_before_ver content H.
    unfold rewrite_content. fold (after_tokens old_ep new_ep old_sq new_sq
                                    old_sh new_sh content).
    now rewrite (replace_absent_any latest_fn new_fn _ H).
  - intros old_ep new_ep old_sq new_sq old_sh new_sh
           latest_fn new_fn base_noext base_before_ver content a b Hne E H.
    unfold rewrite_content. fold (after_tokens old_ep new_ep old_sq new_sq
                                    old_sh new_sh content).
    rewrite E.
    rewrite (replace_copy latest_fn new_fn Hne a (latest_fn ++ b) H).
    now rewrite replace_hit.
  - intros old_ep new_ep old_sq new_sq old_sh new_sh
           latest_fn new_fn base_noext base_before_ver content a b Hne E H.
    unfold rewrite_content. fold (after_tokens old_ep new_ep old_sq new_sq
                                    old_sh new_sh content).
    rewrite E.
    rewrite (replace_copy base_noext _ Hne a (base_noext ++ b) H).
    now rewrite replace_hit.
Qed.

(** C8 as stated fails for the old file name when it contains a token
    that changes: the text [ref ep_01_lighting_v003.ma] contains the old
    file name [ep_01_lighting_v003.ma], and the result contains neither the
    new name [ep_01_lighting_v001.ma] nor any [_v001]. *)
Lemma C8_counterexample :
  ~ (forall old_ep new_ep old_sq new_sq old_sh new_sh
            latest_fn new_fn base_noext base_before_ver content,
        contains latest_fn content = true ->
        contains new_fn
          (rewrite_content old_ep new_ep old_sq new_sq old_sh new_sh
             latest_fn new_fn base_noext base_before_ver content) = true).
Proof.
  intros H.
  specialize (H (lit "ep_01") (lit "ep_02") (lit "sq_010") (lit "sq_020")
                (lit "sh_020") (lit "sh_030")
                (lit "ep_01_lighting_v003.ma") (lit "ep_01_lighting_v001.ma")
                (lit "ep_01_lighting_v003") (lit "ep_01_lighting")
                (lit "ref ep_01_lighting_v003.ma") eq_refl).
  vm_compute in H. discriminate H.
Qed.

(** *** A declined run leaves the file system as it was *)

Lemma split_on_no_sep sep w :
  ~ In sep w -> split_on sep w = [w].
Proof.
  induction w as [|c w IH]; intros H; [reflexivity|].
  simpl. destruct (Ascii.eqb c sep) eqn:E.
  - apply Ascii.eqb_eq in E. subst c. exfalso. apply H. now left.
  - rewrite IH; [reflexivity|]. intros Hin. apply H. now right.
Qed.

Lemma split_on_nonempty sep w : split_on sep w <> [].
Proof.
  destruct w as [|c w]; simpl; [discriminate|].
  destruct (Ascii.eqb c sep); [discriminate|].
  destruct (split_on sep w); discriminate.
Qed.

Lemma split_on_app_sep sep u w :
  split_on sep (u ++ sep :: w) = split_on sep u ++ split_on sep w.
Proof.
  induction u as [|c u IH]; simpl.
  - now rewrite Ascii.eqb_refl.
  - destruct (Ascii.eqb c sep); [now rewrite IH|].
    rewrite IH.
    destruct (split_on sep u) as [|x xs] eqn:E; [|reflexivity].
    now apply split_on_nonempty in E.
Qed.

Lemma name_ok_proper name :
  name_ok name = true ->
  name <> [] /\ name <> [dot] /\ name <> [dot; dot] /\ ~ In slash name.
Proof.
  intros H. pose proof (name_ok_no_slash name H) as Hs.
  unfold name_ok in H. rewrite !andb_true_iff, !negb_true_iff in H.
  destruct H as [[[H1 H2] H3] _].
  apply str_eqb_neq in H1, H2, H3. auto.
Qed.

Lemma resolve_comps_snoc cs name :
  name_ok name = true ->
  forall acc,
    resolve_comps (cs ++ [name]) acc = resolve_comps cs acc ++ [name].
Proof.
  intros H. destruct (name_ok_proper name H) as [N1 [N2 [N3 _]]].
  apply str_eqb_neq in N1, N2, N3.
  induction cs as [|c cs IH]; intros acc.
  - simpl. now rewrite N1, N2, N3.
  - simpl. destruct (str_eqb c [] || str_eqb c [dot]); [apply IH|].
    destruct (str_eqb c [dot; dot]); apply IH.
Qed.

(** The path of an entry of a directory resolves to the directory's names
    followed by the entry's name. *)
Lemma resolve_join d name :
  name_ok name = true ->
  resolve (path_join d name) = resolve d ++ [name].
Proof.
  intros H. destruct (name_ok_proper name H) as [N1 [_ [_ Ns]]].
  unfold resolve, path_join.
  destruct (starts_with [slash] name) eqn:S.
  { apply starts_with_iff in S as [r ->]. exfalso. apply Ns. now left. }
  destruct (str_eqb d []) eqn:D.
  { apply str_eqb_eq in D. subst d. cbn [orb app].
    rewrite (split_on_no_sep slash name Ns).
    now rewrite (resolve_comps_snoc [] name H). }
  cbn [orb]. destruct (ends_with [slash] d) eqn:E.
  - apply ends_with_slash in E as [d' ->]. rewrite <- app_assoc.
    simpl app. rewrite !split_on_app_sep.
    rewrite (split_on_no_sep slash name Ns). simpl (split_on slash []).
    rewrite (resolve_comps_snoc _ name H).
    f_equal.
    assert (forall cs acc,
              resolve_comps (cs ++ [[]]) acc = resolve_comps cs acc) as A.
    { induction cs as [|c cs IH]; intros acc; simpl; [reflexivity|].
      destruct (str_eqb c [] || str_eqb c [dot]); [apply IH|].
      destruct (str_eqb c [dot; dot]); apply IH. }
    now rewrite A.
  - simpl app. rewrite split_on_app_sep.
    rewrite (split_on_no_sep slash name Ns).
    now rewrite (resolve_comps_snoc _ name H).
Qed.

Lemma lookup_update_id c x es :
  lookup c es = Some x -> update c x es = es.
Proof.
  induction es as [|[n y] es IH]; simpl; [reflexivity|].
  destruct (str_eqb n c); [intros [= ->]; reflexivity|].
  intros H. now rewrite IH.
Qed.


(** The new file name of a run is a proper name. *)
Lemma new_name_ok fs root p m :
  names_ok fs = true ->
  In p (find_all_ma_files fs root) ->
  re_match true re_base_version (fst (splitext (basename p))) = Some m ->
  name_ok (group1 m ++ lit "_v001.ma") = true.
Proof.
  intros Hfs Hp Hm.
  destruct (find_all_ma_files_spec fs root p Hfs Hp)
    as [d [fn [-> [Hv Hs]]]].
  rewrite basename_join in Hm by exact Hs.
  destruct (version_regex_shape fn Hv)
    as [X [v [dg [D [m' [a [tl [-> [HX [Hv' [Hd [HD [Hm' [Ha Htl]]]]]]]]]]]]]].
  rewrite version_shape_splitext in Hm by assumption. cbn [fst] in Hm.
  destruct (base_version_split _ _ Hm) as [v2 [d2 [D2 [tl2 [E _]]]]].
  assert (Hg : ~ In slash (group1 m)).
  { intros Hin. apply Hs. apply in_or_app. left.
    assert (In slash (X ++ "_"%char :: v :: dg :: D)) as Hin'
      by (rewrite E; apply in_or_app; now left).
    apply in_app_or in Hin' as [Hin' | Hin']; [exact Hin'|].
    exfalso. destruct Hin' as [E1 | [E1 | [E1 | Hin']]].
    - discriminate E1.
    - subst v. vm_compute in Hv'. discriminate Hv'.
    - subst dg. vm_compute in Hd. discriminate Hd.
    - now apply (digits_exclude slash D HD). }
  unfold name_ok.
  assert (L : 8 <= List.length (group1 m ++ lit "_v001.ma"))
    by (rewrite length_app; simpl; lia).
  rewrite !andb_true_iff, !negb_true_iff. repeat split.
  - apply str_eqb_neq. intros E0. rewrite E0 in L. simpl in L. lia.
  - apply str_eqb_neq. intros E0. rewrite E0 in L. simpl in L. lia.
  - apply str_eqb_neq. intros E0. rewrite E0 in L. simpl in L. lia.
  - destruct (existsb (Ascii.eqb slash) (group1 m ++ lit "_v001.ma")) eqn:Ex;
      [|reflexivity].
    apply existsb_exists in Ex as [c [Hin Hc]].
    apply Ascii.eqb_eq in Hc. subst c.
    apply in_app_or in Hin as [Hin | Hin]; [contradiction|].
    simpl in Hin. repeat (destruct Hin as [Hin | Hin]; [discriminate Hin|]).
    destruct Hin.
Qed.




(** ** The properties at concrete inputs *)

Lemma C2_select_greatest_witness :
  exists p v,
    select_highest_version
      [lit "/shots/scene_v1.ma"; lit "/shots/scene_v10.ma";
       lit "/shots/scene_v2.ma"] = Some p
    /\ In p [lit "/shots/scene_v1.ma"; lit "/shots/scene_v10.ma";
             lit "/shots/scene_v2.ma"]
    /\ version_of p = Some v
    /\ forall q' w,
         In q' [lit "/shots/scene_v1.ma"; lit "/shots/scene_v10.ma";
                lit "/shots/scene_v2.ma"] ->
         version_of q' = Some w -> (w <= v)%Z.
Proof.
  apply (proj1 C2_select_greatest
           [lit "/shots/scene_v1.ma"; lit "/shots/scene_v10.ma";
            lit "/shots/scene_v2.ma"] (lit "/shots/scene_v1.ma")).
  - simpl. now left.
  - vm_compute. discriminate.
Defined.

Lemma C3_five_ordered_replacements_witness :
  exists latest_ma m content,
    scenario_rewrite
      (lit "file ep_01_sq_010_sh_020_lighting_v003; cache_v003")
    = apply_substitutions
        (substitutions
           (src_token re_ep scenario_src) (dst_token re_ep scenario_dst)
           (src_token re_sq scenario_src) (dst_token re_sq scenario_dst)
           (src_token re_sh scenario_src) (dst_token re_sh scenario_dst)
           (basename latest_ma) (group1 m ++ lit "_v001.ma")
           (fst (splitext (basename latest_ma))) (group1 m))
        content.
Proof.
  destruct (proj1 (proj2 (proj2 C3_five_ordered_replacements))
              scenario_src scenario_dst true scenario_fs
              (path_join (strip scenario_dst) (lit "lighting_v001.ma"))
              (scenario_rewrite
                 (lit "file ep_01_sq_010_sh_020_lighting_v003; cache_v003")))
    as [latest_ma [m [fs1 [content [pre [post [_ [_ [_ [_ [H _]]]]]]]]]]].
  - vm_compute. do 2 right. now left.
  - exists latest_ma, m, content. exact H.
Defined.


Example second_run_declined :
  let fs1 := snd (clone_latest scenario_src scenario_dst true scenario_fs) in
  clone_latest scenario_src scenario_dst false fs1
  = ([MakeDirs scenario_dst; ask_overwrite (lit "lighting_v001.ma");
      status_canceled], fs1).
Proof. reflexivity. Qed.

Lemma C8_identity_and_occurrences_witness :
  scenario_rewrite (lit "requires maya 2024; nothing to rename")
  = lit "requires maya 2024; nothing to rename".
Proof.
  apply (proj1 C8_identity_and_occurrences); reflexivity.
Defined.

(** * Further properties of the program *)

(** ** The token search, in full *)

Lemma take_digits_rest (s : str) :
  take_digits (skipn (List.length (take_digits s)) s) = [].
Proof.
  induction s as [|c s IH]; [reflexivity|].
  cbn [take_digits]. destruct (is_digit c) eqn:Hc.
  - cbn [List.length skipn]. exact IH.
  - cbn [List.length skipn take_digits]. now rewrite Hc.
Qed.

Lemma token_at_split (pfx s t : str) :
  token_at pfx s = Some t ->
  exists ds b, t = pfx ++ ds /\ s = t ++ b /\ ds <> []
               /\ forallb is_digit ds = true /\ take_digits b = [].
Proof.
  unfold token_at. destruct (starts_with pfx s) eqn:Hp; [|discriminate].
  apply starts_with_iff in Hp. destruct Hp as [r ->].
  rewrite skipn_prefix.
  destruct (take_digits r) as [|d ds] eqn:Hd; [discriminate|].
  intros [= <-].
  exists (d :: ds), (skipn (List.length (d :: ds)) r).
  split; [reflexivity|]. split.
  - rewrite <- app_assoc. f_equal. rewrite <- Hd. apply take_digits_prefix.
  - split; [discriminate|]. split.
    + rewrite <- Hd. apply take_digits_all.
    + rewrite <- Hd. apply take_digits_rest.
Qed.

Lemma first_token_leftmost (pfx s t : str) :
  first_token pfx s = Some t ->
  exists a ds b,
    s = a ++ t ++ b /\ t = pfx ++ ds /\ ds <> []
    /\ forallb is_digit ds = true /\ take_digits b = []
    /\ forall a' d b',
         is_digit d = true -> s = a' ++ pfx ++ d :: b' ->
         List.length a <= List.length a'.
Proof.
  induction s as [|c s IH].
  - cbn [first_token]. destruct (token_at pfx []) as [t'|] eqn:Ht; [|discriminate].
    intros [= ->]. destruct (token_at_split _ _ _ Ht) as (ds & b & E1 & E2 & H1 & H2 & H3).
    exists [], ds, b. repeat (split; [assumption|]). intros; cbn; lia.
  - cbn [first_token]. destruct (token_at pfx (c :: s)) as [t'|] eqn:Ht.
    + intros [= ->]. destruct (token_at_split _ _ _ Ht) as (ds & b & E1 & E2 & H1 & H2 & H3).
      exists [], ds, b. repeat (split; [assumption|]). intros; cbn; lia.
    + intros H. destruct (IH H) as (a & ds & b & E1 & E2 & H1 & H2 & H3 & Hmin).
      exists (c :: a), ds, b. split; [cbn; now rewrite <- E1|].
      repeat (split; [assumption|]).
      intros a' d b' Hd E. destruct a' as [|c' a'].
      * exfalso. assert (X : token_at pfx (c :: s) <> None).
        { apply token_at_some_iff. exists d, b'. split; [exact Hd|exact E]. }
        now apply X.
      * cbn in E. injection E as _ E. cbn [List.length].
        apply le_n_S. exact (Hmin a' d b' Hd E).
Qed.

(** X1. The token that [find_token] returns for one of the token patterns
    is the leftmost one of the path with its backslashes turned into
    slashes, and it takes all the digits that follow the prefix. *)
Theorem find_token_leftmost_longest (pfx : string) (path t : str) :
  find_token (re_token pfx) path = Some t ->
  exists a ds b,
    replace [backslash] [slash] path = a ++ t ++ b
    /\ t = lit pfx ++ ds /\ ds <> [] /\ forallb is_digit ds = true
    /\ take_digits b = []
    /\ forall a' d b',
         is_digit d = true ->
         replace [backslash] [slash] path = a' ++ lit pfx ++ d :: b' ->
         List.length a <= List.length a'.
Proof.
  rewrite find_token_first. apply first_token_leftmost.
Qed.

Lemma find_token_leftmost_longest_witness :
  exists a ds b,
    replace [backslash] [slash] (lit "D:\ep_7\x\ep_12") = a ++ lit "ep_7" ++ b
    /\ lit "ep_7" = lit "ep_" ++ ds /\ ds <> [] /\ forallb is_digit ds = true
    /\ take_digits b = []
    /\ forall a' d b',
         is_digit d = true ->
         replace [backslash] [slash] (lit "D:\ep_7\x\ep_12")
         = a' ++ lit "ep_" ++ d :: b' ->
         List.length a <= List.length a'.
Proof.
  apply (find_token_leftmost_longest "ep_" (lit "D:\ep_7\x\ep_12")).
  reflexivity.
Defined.

Lemma normalize_idempotent (path : str) :
  replace [backslash] [slash] (replace [backslash] [slash] path)
  = replace [backslash] [slash] path.
Proof.
  apply (normalize_prefix path (replace [backslash] [slash] path) []).
  now rewrite app_nil_r.
Qed.

(** X2. [find_token] gives the same answer for a path and for that path
    with its backslashes already turned into slashes, whatever the
    pattern; so the two normalisations that [clone_latest] applies in a
    row act as one. *)
Theorem find_token_normalized (pattern : regex) (path : str) :
  find_token pattern (replace [backslash] [slash] path)
  = find_token pattern path.
Proof.
  unfold find_token. now rewrite normalize_idempotent.
Qed.

(** ** The version number of a versioned name *)

Lemma star_digits_commit ic ns D w :
  forall pos gs ge r,
    forallb is_digit D = true -> take_digits w = [] ->
    match_here ic ns w (pos + List.length D) gs ge = Some r ->
    match_here ic (Star DigitCls :: ns) (D ++ w) pos gs ge = Some r.
Proof.
  induction D as [|d D IH]; intros pos gs ge r HD Hw H.
  - cbn [app List.length] in *. rewrite Nat.add_0_r in H.
    destruct w as [|c w]; [now rewrite match_star_nil|].
    rewrite match_star_cons. cbn [atom_ok].
    cbn [take_digits] in Hw. destruct (is_digit c); [discriminate Hw|exact H].
  - cbn [forallb] in HD. apply andb_true_iff in HD as [Hd HD].
    cbn [app]. rewrite match_star_cons. cbn [atom_ok]. rewrite Hd.
    rewrite (IH (S pos) gs ge r HD Hw); [reflexivity|].
    cbn [List.length] in H. now rewrite Nat.add_succ_r in H.
Qed.

Lemma take_digits_run (D w : str) :
  forallb is_digit D = true -> take_digits w = [] -> take_digits (D ++ w) = D.
Proof.
  induction D as [|d D IH]; intros HD Hw; [exact Hw|].
  cbn [forallb] in HD. apply andb_true_iff in HD as [Hd HD].
  cbn [app take_digits]. rewrite Hd. now rewrite IH.
Qed.

Lemma after_digits_length (Y R : str) :
  take_digits R = [] ->
  List.length R
  <= List.length (skipn (List.length (take_digits (Y ++ R))) (Y ++ R)).
Proof.
  intros HR. induction Y as [|c Y IH].
  - cbn [app]. rewrite HR. cbn. lia.
  - cbn [app take_digits]. destruct (is_digit c).
    + cbn [List.length skipn]. exact IH.
    + cbn [List.length skipn]. rewrite length_app. lia.
Qed.

Lemma match_one ic a ns c s pos gs ge :
  match_here ic (One a :: ns) (c :: s) pos gs ge
  = if atom_ok ic a c then match_here ic ns s (S pos) gs ge else None.
Proof. reflexivity. Qed.

Lemma match_open ic ns s pos gs ge :
  match_here ic (GOpen :: ns) s pos gs ge = match_here ic ns s pos pos ge.
Proof. reflexivity. Qed.

Lemma match_close ic ns s pos gs ge :
  match_here ic (GClose :: ns) s pos gs ge = match_here ic ns s pos gs pos.
Proof. reflexivity. Qed.

Lemma match_eos ic ns s pos gs ge :
  match_here ic (Eos :: ns) s pos gs ge
  = if at_end s then match_here ic ns s pos gs ge else None.
Proof. reflexivity. Qed.

(** The version pattern matches where the final [_v] starts. *)
Lemma version_number_here v d D m a tl pos :
  atom_ok true (Chr "v") v = true ->
  is_digit d = true -> forallb is_digit D = true ->
  atom_ok true (Chr "m") m = true ->
  atom_ok true (Chr "a") a = true ->
  at_end tl = true ->
  exists e,
    match_here true re_version_number
      ("_"%char :: v :: d :: D ++ "."%char :: m :: a :: tl) pos 0 0
    = Some {| sp_end := e; g_start := S (S pos);
              g_end := S (S (S pos)) + List.length D |}.
Proof.
  intros Hv Hd HD Hm Ha Htl. eexists.
  unfold re_version_number. cbn [chars lit list_ascii_of_string map app].
  rewrite match_one. change (atom_ok true (Chr "_") "_") with true. cbv iota.
  rewrite match_one, Hv, match_open, match_one.
  change (atom_ok true DigitCls d) with (is_digit d). rewrite Hd.
  apply star_digits_commit; [exact HD | reflexivity |].
  rewrite match_close, match_one.
  change (atom_ok true (Chr ".") ".") with true. cbv iota.
  rewrite match_one, Hm, match_one, Ha, match_eos, Htl. reflexivity.
Qed.

(** What the version pattern can match at a position. *)
Lemma version_number_shape s pos r :
  match_here true re_version_number s pos 0 0 = Some r ->
  exists v d D m a tl,
    s = "_"%char :: v :: d :: D ++ "."%char :: m :: a :: tl
    /\ atom_ok true (Chr "v") v = true
    /\ is_digit d = true /\ forallb is_digit D = true
    /\ atom_ok true (Chr "m") m = true
    /\ atom_ok true (Chr "a") a = true
    /\ at_end tl = true.
Proof.
  intros E. apply match_here_sound in E.
  unfold re_version_number in E.
  cbn [chars lit list_ascii_of_string map app] in E.
  inversion E as [| ? ? ? c1 w1 A1 H1 | | | | | |]; subst; clear E.
  inversion H1 as [| ? ? ? v w2 A2 H2 | | | | | |]; subst; clear H1.
  inversion H2 as [| | | | | | ? ? ? H3 |]; subst; clear H2.
  inversion H3 as [| ? ? ? d w3 A3 H4 | | | | | |]; subst; clear H3.
  apply accepts_star in H4 as [D [w4 [-> [HD H5]]]].
  inversion H5 as [| | | | | | | ? ? ? H6]; subst; clear H5.
  inversion H6 as [| ? ? ? c2 w5 A5 H7 | | | | | |]; subst; clear H6.
  inversion H7 as [| ? ? ? m w6 A6 H8 | | | | | |]; subst; clear H7.
  inversion H8 as [| ? ? ? a w7 A7 H9 | | | | | |]; subst; clear H8.
  inversion H9 as [| | | | | ? ? ? Etl _ | |]; subst; clear H9.
  apply atom_underscore in A1. apply atom_dot in A5. subst c1 c2.
  exists v, d, D, m, a, w7. repeat split; assumption.
Qed.

(** It matches at no earlier position. *)
Lemma version_number_not_before Y v d D m a tl pos :
  Y <> [] ->
  is_digit d = true -> forallb is_digit D = true ->
  at_end tl = true ->
  match_here true re_version_number
    (Y ++ "_"%char :: v :: d :: D ++ "."%char :: m :: a :: tl) pos 0 0 = None.
Proof.
  intros HY Hd HD Htl.
  set (R := "_"%char :: v :: d :: D ++ "."%char :: m :: a :: tl).
  destruct (match_here true re_version_number (Y ++ R) pos 0 0) as [r|] eqn:E;
    [exfalso | reflexivity].
  apply version_number_shape in E.
  destruct E
    as (v' & d' & D' & m' & a' & tl' & Es & Hv' & Hd' & HD' & _ & _ & Htl').
  destruct Y as [|y1 [|y2 Y]]; [now apply HY | |].
  - unfold R in Es. cbn [app] in Es. injection Es as _ Ev _.
    subst v'. vm_compute in Hv'. discriminate Hv'.
  - cbn [app] in Es. injection Es as _ _ Es.
    set (T := "."%char :: m' :: a' :: tl') in *.
    assert (HR : take_digits R = []) by reflexivity.
    pose proof (after_digits_length Y R HR) as L.
    rewrite Es in L.
    change (d' :: D' ++ T) with ((d' :: D') ++ T) in L.
    rewrite take_digits_run in L;
      [| cbn [forallb]; now rewrite Hd', HD' | reflexivity].
    rewrite skipn_prefix in L.
    assert (List.length tl' <= 1) as Lw.
    { destruct (at_end_cases _ Htl') as [-> | ->]; cbn; lia. }
    unfold R, T in L. cbn [List.length] in L. rewrite length_app in L.
    cbn [List.length] in L. lia.
Qed.

Lemma search_from_first ic ns :
  forall k s pos sp,
    k <= List.length s ->
    (forall i, i < k -> match_here ic ns (skipn i s) (pos + i) 0 0 = None) ->
    match_here ic ns (skipn k s) (pos + k) 0 0 = Some sp ->
    search_from ic ns s pos = Some (pos + k, sp).
Proof.
  induction k as [|k IH]; intros s pos sp Hk Hnone Hsome.
  - rewrite Nat.add_0_r in *. cbn [skipn] in Hsome.
    destruct s; cbn [search_from]; now rewrite Hsome.
  - destruct s as [|c s]; [cbn in Hk; lia|].
    cbn [search_from].
    pose proof (Hnone 0 (Nat.lt_0_succ k)) as H0.
    cbn [skipn] in H0. rewrite Nat.add_0_r in H0. rewrite H0.
    rewrite Nat.add_succ_r. rewrite <- Nat.add_succ_l.
    apply IH.
    + cbn in Hk. lia.
    + intros i Hi. specialize (Hnone (S i) (proj1 (Nat.succ_lt_mono i k) Hi)).
      cbn [skipn] in Hnone. now rewrite Nat.add_succ_r in Hnone.
    + cbn [skipn] in Hsome. now rewrite Nat.add_succ_r in Hsome.
Qed.

Lemma version_shape_number X v d D m a tl :
  atom_ok true (Chr "v") v = true ->
  is_digit d = true -> forallb is_digit D = true ->
  atom_ok true (Chr "m") m = true ->
  atom_ok true (Chr "a") a = true ->
  at_end tl = true ->
  extract_version_number
    (X ++ "_"%char :: v :: d :: D ++ "."%char :: m :: a :: tl)
  = Some (int_of_digits (d :: D)).
Proof.
  intros Hv Hd HD Hm Ha Htl. unfold extract_version_number, re_search.
  set (R := "_"%char :: v :: d :: D ++ "."%char :: m :: a :: tl).
  destruct (version_number_here v d D m a tl (0 + List.length X)
              Hv Hd HD Hm Ha Htl) as [e He].
  fold R in He.
  rewrite (search_from_first true re_version_number (List.length X) (X ++ R) 0
             {| sp_end := e; g_start := S (S (0 + List.length X));
                g_end := S (S (S (0 + List.length X))) + List.length D |}).
  - unfold group1, slice. cbn [m_subject m_span g_start g_end Nat.add].
    do 2 f_equal.
    replace (S (S (S (List.length X + List.length D))) - S (S (List.length X)))
      with (S (List.length D)) by lia.
    change (S (S (List.length X))) with (2 + List.length X).
    rewrite <- skipn_skipn, skipn_prefix.
    unfold R. cbn [skipn firstn]. f_equal.
    rewrite firstn_app, firstn_all, Nat.sub_diag. cbn [firstn].
    apply app_nil_r.
  - rewrite length_app. lia.
  - intros i Hi. rewrite skipn_app.
    replace (i - List.length X) with 0 by lia. cbn [skipn].
    apply version_number_not_before; try assumption.
    intros E. apply (f_equal (@List.length ascii)) in E.
    rewrite length_skipn in E. cbn in E. lia.
  - rewrite skipn_prefix. exact He.
Qed.

Lemma search_from_some ic ns :
  forall s pos i sp,
    search_from ic ns s pos = Some (i, sp) ->
    exists k, i = pos + k /\ k <= List.length s
              /\ match_here ic ns (skipn k s) i 0 0 = Some sp.
Proof.
  induction s as [|c s IH]; intros pos i sp H; cbn [search_from] in H.
  - destruct (match_here ic ns [] pos 0 0) as [r|] eqn:E; [|discriminate].
    injection H as <- <-. exists 0. rewrite Nat.add_0_r. now repeat split.
  - destruct (match_here ic ns (c :: s) pos 0 0) as [r|] eqn:E.
    + injection H as <- <-. exists 0. rewrite Nat.add_0_r.
      repeat split; [cbn; lia | exact E].
    + destruct (IH (S pos) i sp H) as (k & -> & Hk & Hm).
      exists (S k). repeat split; [lia | cbn; lia |].
      cbn [skipn]. exact Hm.
Qed.

(** X3. A name has a version exactly when it ends in [_v], digits and
    [.ma], in either case and possibly followed by one newline; the version
    is the number written by that last run of digits, whatever comes
    before it. *)
Theorem extract_version_number_iff (fn : str) (n : Z) :
  extract_version_number fn = Some n
  <-> exists X v d D m a tl,
        fn = X ++ "_"%char :: v :: d :: D ++ "."%char :: m :: a :: tl
        /\ atom_ok true (Chr "v") v = true
        /\ is_digit d = true /\ forallb is_digit D = true
        /\ atom_ok true (Chr "m") m = true
        /\ atom_ok true (Chr "a") a = true
        /\ at_end tl = true
        /\ n = int_of_digits (d :: D).
Proof.
  split.
  - intros H.
    assert (exists X v d D m a tl,
               fn = X ++ "_"%char :: v :: d :: D ++ "."%char :: m :: a :: tl
               /\ atom_ok true (Chr "v") v = true
               /\ is_digit d = true /\ forallb is_digit D = true
               /\ atom_ok true (Chr "m") m = true
               /\ atom_ok true (Chr "a") a = true
               /\ at_end tl = true) as S.
    { unfold extract_version_number, re_search in H.
      destruct (search_from true re_version_number fn 0) as [[i sp]|] eqn:E;
        [|discriminate H].
      destruct (search_from_some _ _ _ _ _ _ E) as (k & _ & _ & Hm).
      destruct (version_number_shape _ _ _ Hm)
        as (v & d & D & m & a & tl & Es & Hv & Hd & HD & Hm' & Ha & Htl).
      exists (firstn k fn), v, d, D, m, a, tl.
      rewrite <- Es, firstn_skipn. now repeat split. }
    destruct S as (X & v & d & D & m & a & tl & -> & Hv & Hd & HD & Hm & Ha
                   & Htl).
    exists X, v, d, D, m, a, tl. repeat (split; [assumption || reflexivity|]).
    rewrite (version_shape_number X v d D m a tl Hv Hd HD Hm Ha Htl) in H.
    now injection H.
  - intros (X & v & d & D & m & a & tl & -> & Hv & Hd & HD & Hm & Ha & Htl
            & ->).
    now apply version_shape_number.
Qed.

Lemma int_of_digits_zeros (k : nat) (D : str) :
  int_of_digits (repeat "0"%char k ++ D) = int_of_digits D.
Proof.
  unfold int_of_digits. rewrite fold_left_app.
  replace (fold_left (fun acc c => (10 * acc + digit_val c)%Z)
             (repeat "0"%char k) 0%Z) with 0%Z; [reflexivity|].
  induction k as [|k IH]; [reflexivity|].
  cbn [repeat fold_left]. exact IH.
Qed.

Lemma forallb_repeat (A : Type) (f : A -> bool) (x : A) (k : nat) :
  f x = true -> forallb f (repeat x k) = true.
Proof.
  intros H. induction k as [|k IH]; [reflexivity|].
  cbn [repeat forallb]. now rewrite H, IH.
Qed.

(** X4. Versions are compared as numbers: zeros written in front of the
    digits do not change the version of a name, so [_v007] and [_v7] stand
    for the same version. *)
Theorem version_ignores_zero_padding (X X' : str) (k : nat) (d : ascii)
  (D : str) :
  is_digit d = true -> forallb is_digit D = true ->
  extract_version_number
    (X ++ lit "_v" ++ repeat "0"%char k ++ d :: D ++ lit ".ma")
  = extract_version_number (X' ++ lit "_v" ++ d :: D ++ lit ".ma").
Proof.
  intros Hd HD.
  transitivity (Some (int_of_digits (d :: D))).
  - destruct k as [|k].
    + cbn [repeat app]. apply (version_shape_number X "v" d D "m" "a" []);
        auto.
    + assert (E : X ++ lit "_v" ++ repeat "0"%char (S k) ++ d :: D ++ lit ".ma"
                  = X ++ "_"%char :: "v"%char :: "0"%char
                      :: (repeat "0"%char k ++ d :: D)
                      ++ "."%char :: "m"%char :: "a"%char :: []).
      { cbn [repeat lit list_ascii_of_string app].
        now rewrite <- app_assoc. }
      rewrite E.
      etransitivity;
        [apply (version_shape_number X "v" "0" (repeat "0"%char k ++ d :: D)
                  "m" "a" []); auto|].
      * rewrite forallb_app, forallb_repeat by reflexivity.
        cbn [forallb]. now rewrite Hd, HD.
      * f_equal.
        change ("0"%char :: repeat "0"%char k ++ d :: D)
          with (repeat "0"%char (S k) ++ d :: D).
        apply int_of_digits_zeros.
  - symmetry. apply (version_shape_number X' "v" d D "m" "a" []); auto.
Qed.

Lemma version_ignores_zero_padding_witness :
  extract_version_number (lit "shot_v007.ma")
  = extract_version_number (lit "other_v7.ma").
Proof.
  exact (version_ignores_zero_padding (lit "shot") (lit "other") 2 "7" []
           eq_refl eq_refl).
Defined.

(** ** Selection and the order of the list *)

Lemma select_unique_maximum (l : list str) (q : str) (v : Z) :
  In q l -> version_of q = Some v ->
  (forall q' w, In q' l -> q' <> q -> version_of q' = Some w -> (w < v)%Z) ->
  select_highest_version l = Some q.
Proof.
  intros Hq Hv Hmax.
  destruct (select_highest_version_spec l)
    as [[_ Hnone] | (l1 & p & l2 & vp & El & Hsel & Hp & Hl1 & Hl2)].
  - rewrite (Hnone q Hq) in Hv. discriminate Hv.
  - destruct (list_eq_dec ascii_dec p q) as [-> | Hne]; [exact Hsel|].
    exfalso.
    assert (In p l) as Hin by (rewrite El; apply in_elt).
    pose proof (Hmax p vp Hin Hne Hp) as Hlt.
    rewrite El in Hq. apply in_app_or in Hq as [Hq | [Hq | Hq]].
    + pose proof (Hl1 q v Hq Hv). lia.
    + now apply Hne.
    + pose proof (Hl2 q v Hq Hv). lia.
Qed.

(** X5. A path whose version is greater than that of every other path is
    the one selected, wherever it stands: two lists with the same members
    give the same selection, so the order in which the directories were
    walked matters only between equal versions. *)
Theorem select_highest_version_order_free (l l' : list str) (q : str)
  (v : Z) :
  (forall x, In x l' <-> In x l) ->
  In q l -> version_of q = Some v ->
  (forall q' w, In q' l -> q' <> q -> version_of q' = Some w -> (w < v)%Z) ->
  select_highest_version l = Some q /\ select_highest_version l' = Some q.
Proof.
  intros Hsame Hq Hv Hmax. split.
  - exact (select_unique_maximum l q v Hq Hv Hmax).
  - apply (select_unique_maximum l' q v); [now apply Hsame | exact Hv |].
    intros q' w Hin. apply Hmax. now apply Hsame.
Qed.

Lemma select_highest_version_order_free_witness :
  select_highest_version [lit "/a/x_v2.ma"; lit "/b/y_v10.ma"; lit "/c/z.ma"]
  = Some (lit "/b/y_v10.ma")
  /\ select_highest_version
       [lit "/c/z.ma"; lit "/b/y_v10.ma"; lit "/a/x_v2.ma"; lit "/a/x_v2.ma"]
     = Some (lit "/b/y_v10.ma").
Proof.
  apply (select_highest_version_order_free _ _ (lit "/b/y_v10.ma") 10%Z).
  - intros x; cbn [In]; tauto.
  - cbn [In]; tauto.
  - reflexivity.
  - intros q' w [<- | [<- | [<- | []]]] Hne E.
    + vm_compute in E. injection E as <-. reflexivity.
    + now elim Hne.
    + vm_compute in E. discriminate E.
Defined.

(** ** What the scan collects *)

Lemma distinct_lookup (es : list (str * fnode)) (name : str) (x : fnode) :
  distinct (map fst es) = true -> In (name, x) es ->
  lookup name es = Some x.
Proof.
  induction es as [|[n y] es IH]; intros Hd Hin; [destruct Hin|].
  cbn [map fst distinct] in Hd. apply andb_true_iff in Hd as [Hn Hd].
  cbn [lookup]. destruct Hin as [E | Hin].
  - injection E as -> ->.
    now rewrite (proj2 (str_eqb_eq name name) eq_refl).
  - destruct (str_eqb n name) eqn:E; [|now apply IH].
    exfalso. apply str_eqb_eq in E. subst n.
    apply negb_true_iff in Hn.
    assert (existsb (str_eqb name) (map fst es) = true) as X.
    { apply existsb_exists. exists name. split.
      - apply in_map_iff. now exists (name, x).
      - now apply str_eqb_eq. }
    congruence.
Qed.

Lemma unique_names_entry es name x :
  unique_names (Dir es) = true -> In (name, x) es ->
  distinct (map fst es) = true /\ unique_names x = true.
Proof.
  cbn [unique_names]. intros H Hin. apply andb_true_iff in H as [Hd H].
  split; [exact Hd|]. rewrite forallb_forall in H. exact (H _ Hin).
Qed.

Lemma unique_names_get names :
  forall n x, unique_names n = true -> get n names = Some x ->
              unique_names x = true.
Proof.
  induction names as [|c names IH]; intros n x Hn H; cbn [get] in H.
  - now injection H as <-.
  - destruct n as [t | es]; [discriminate|].
    destruct (lookup c es) as [y|] eqn:L; [|discriminate].
    apply (IH y x); [|exact H].
    apply lookup_in in L. now destruct (unique_names_entry es c y Hn L).
Qed.

Lemma get_app (a b : list str) :
  forall n,
    get n (a ++ b) = match get n a with
                     | Some x => get x b
                     | None => None
                     end.
Proof.
  induction a as [|c a IH]; intros n; [reflexivity|].
  cbn [app get]. destruct n as [t | es]; [reflexivity|].
  destruct (lookup c es) as [y|]; [apply IH | reflexivity].
Qed.

Lemma in_filenames_file es fn :
  In fn (filenames es) -> exists t, In (fn, File t) es.
Proof.
  unfold filenames. rewrite in_map_iff.
  intros [[n x] [<- H]]. apply filter_In in H as [H Hx].
  destruct x as [t | es']; [now exists t | discriminate Hx].
Qed.

(** Every name that a walk lists as a file leads to a file of the tree. *)
Lemma walk_sound n :
  forall top, names_ok n = true -> unique_names n = true ->
  forall d ds fns fn,
    In (d, ds, fns) (walk top n) -> In fn fns ->
    exists rel t,
      resolve (path_join d fn) = resolve top ++ rel
      /\ get n rel = Some (File t).
Proof.
  induction n as [t | es IH] using fnode_ind;
    intros top Hn Hu d ds fns fn Hw Hfn.
  - destruct Hw.
  - cbn [walk] in Hw. destruct Hw as [E | Hw].
    + injection E as <- _ <-. apply in_filenames_file in Hfn as [t Hx].
      destruct (names_ok_entry es fn _ Hn Hx) as [Hfn _].
      destruct (unique_names_entry es fn _ Hu Hx) as [Hd _].
      exists [fn], t. split; [now apply resolve_join|].
      cbn [get]. now rewrite (distinct_lookup es fn _ Hd Hx).
    + apply in_flat_map in Hw as [[name x] [Hin Hw]]. cbn [fst snd] in Hw.
      destruct (names_ok_entry es name x Hn Hin) as [Hname Hx].
      destruct (unique_names_entry es name x Hu Hin) as [Hd Hux].
      destruct (IH name x Hin (path_join top name) Hx Hux d ds fns fn Hw Hfn)
        as (rel & t & E & G).
      exists (name :: rel), t. split.
      * rewrite E, (resolve_join top name Hname), <- app_assoc. reflexivity.
      * cbn [get]. now rewrite (distinct_lookup es name x Hd Hin).
Qed.

Lemma collected_is_file fs root p :
  names_ok fs = true -> unique_names fs = true ->
  In p (find_all_ma_files fs root) ->
  exists t, get fs (resolve p) = Some (File t).
Proof.
  unfold find_all_ma_files, matching_files, os_walk. intros Hn Hu H.
  apply in_flat_map in H as [[[d ds] fns] [Hw H]]. cbn [fst snd] in H.
  apply in_map_iff in H as [fn [<- H]].
  apply filter_In in H as [Hfn _].
  destruct (get fs (resolve root)) as [n|] eqn:G; [|destruct Hw].
  destruct (walk_sound n root (names_ok_get _ _ _ Hn G)
              (unique_names_get _ _ _ Hu G) d ds fns fn Hw Hfn)
    as (rel & t & E & Gr).
  exists t. now rewrite E, get_app, G.
Qed.

(** X6. The scan collects no directory: on a file system with proper
    entry names, none of them listed twice in a directory, every path that
    [find_all_ma_files] collects leads to an entry of the tree, and that
    entry is not a directory, also when a directory has a name that matches
    the pattern. *)
Theorem find_all_ma_files_no_directory (fs : fnode) (root p : str) :
  names_ok fs = true -> unique_names fs = true ->
  In p (find_all_ma_files fs root) ->
  isdir fs p = false /\ get fs (resolve p) <> None.
Proof.
  intros Hn Hu H. unfold isdir.
  destruct (collected_is_file fs root p Hn Hu H) as [t ->].
  split; [reflexivity | discriminate].
Qed.

Lemma find_all_ma_files_no_directory_witness :
  isdir folder_fs (lit "/shot/b_v2.ma") = false
  /\ get folder_fs (resolve (lit "/shot/b_v2.ma")) <> None.
Proof.
  apply (find_all_ma_files_no_directory folder_fs (lit "/shot")).
  - reflexivity.
  - reflexivity.
  - vm_compute. now left.
Defined.

(** A file below a directory is listed by the walk of that directory. *)
Lemma walk_complete rel :
  forall n top fn t,
    names_ok n = true ->
    get n (rel ++ [fn]) = Some (File t) ->
    exists d ds fns,
      In (d, ds, fns) (walk top n) /\ In fn fns
      /\ resolve (path_join d fn) = resolve top ++ rel ++ [fn].
Proof.
  induction rel as [|c rel IH]; intros n top fn t Hn G.
  - cbn [app get] in G. destruct n as [t' | es]; [discriminate|].
    destruct (lookup fn es) as [y|] eqn:L; [|discriminate].
    injection G as ->. apply lookup_in in L.
    destruct (names_ok_entry es fn _ Hn L) as [Hfn _].
    exists top, (dirnames es), (filenames es). split; [now left|]. split.
    + unfold filenames. apply in_map_iff. exists (fn, File t).
      split; [reflexivity|]. apply filter_In. now split.
    + now apply resolve_join.
  - cbn [app get] in G. destruct n as [t' | es]; [discriminate|].
    destruct (lookup c es) as [y|] eqn:L; [|discriminate].
    apply lookup_in in L.
    destruct (names_ok_entry es c y Hn L) as [Hc Hy].
    destruct (IH y (path_join top c) fn t Hy G) as (d & ds & fns & Hw & Hfn & E).
    exists d, ds, fns. split; [|split; [exact Hfn|]].
    + cbn [walk]. right. apply in_flat_map. exists (c, y). now split.
    + rewrite E, (resolve_join top c Hc), <- app_assoc. reflexivity.
Qed.

(** X7. The scan misses nothing: a regular file anywhere below the root
    folder whose name matches the version pattern is collected, under a
    path that leads to it and ends in its name. *)
Theorem find_all_ma_files_complete (fs : fnode) (root : str)
  (rel : list str) (fn : str) (t : option str) :
  names_ok fs = true ->
  get fs (resolve root ++ rel ++ [fn]) = Some (File t) ->
  re_match true version_regex fn <> None ->
  exists p,
    In p (find_all_ma_files fs root)
    /\ resolve p = resolve root ++ rel ++ [fn]
    /\ basename p = fn.
Proof.
  intros Hn G Hm. rewrite get_app in G.
  destruct (get fs (resolve root)) as [n|] eqn:Gr; [|discriminate].
  destruct (walk_complete rel n root fn t (names_ok_get _ _ _ Hn Gr) G)
    as (d & ds & fns & Hw & Hfn & E).
  exists (path_join d fn). split; [|split; [exact E|]].
  - unfold find_all_ma_files, os_walk. rewrite Gr.
    apply in_flat_map. exists (d, ds, fns). split; [exact Hw|].
    cbn [fst snd]. unfold matching_files. apply in_map.
    apply filter_In. split; [exact Hfn|].
    destruct (re_match true version_regex fn); [reflexivity | now elim Hm].
  - apply basename_join. apply name_ok_no_slash.
    exact (walk_names_ok n root (names_ok_get _ _ _ Hn Gr) d ds fns fn Hw Hfn).
Qed.

Lemma find_all_ma_files_complete_witness :
  exists p,
    In p (find_all_ma_files scenario_fs (lit "/show/ep_01"))
    /\ resolve p
       = resolve (lit "/show/ep_01")
         ++ [lit "sq_010"; lit "sh_020"; lit "work"]
         ++ [lit "lighting_v003.ma"]
    /\ basename p = lit "lighting_v003.ma".
Proof.
  apply (find_all_ma_files_complete scenario_fs (lit "/show/ep_01")
           [lit "sq_010"; lit "sh_020"; lit "work"] (lit "lighting_v003.ma")
           (Some (lit "file ep_01_sq_010_sh_020_lighting_v003; cache_v003"))).
  - reflexivity.
  - reflexivity.
  - vm_compute. discriminate.
Defined.

(** ** The name of the new file *)

Lemma atom_v_not_digit v : atom_ok true (Chr "v") v = true -> is_digit v = false.
Proof.
  destruct v as [[] [] [] [] [] [] [] []]; vm_compute; intros H;
    first [reflexivity | discriminate H].
Qed.

Lemma take_digits_rev_run (D : str) (v : ascii) (r : str) :
  forallb is_digit D = true -> is_digit v = false ->
  take_digits (rev D ++ v :: r) = rev D.
Proof.
  intros HD Hv. apply take_digits_run.
  - rewrite forallb_forall in *. intros c Hc. apply HD. now apply in_rev.
  - cbn [take_digits]. now rewrite Hv.
Qed.

(** A string has one way only to end in [_v] and digits. *)
Lemma base_split_unique (G X : str) (v v' d d' : ascii) (D D' tl : str) :
  G ++ "_"%char :: v' :: d' :: D' ++ tl = X ++ "_"%char :: v :: d :: D ->
  atom_ok true (Chr "v") v = true -> atom_ok true (Chr "v") v' = true ->
  is_digit d = true -> forallb is_digit D = true ->
  is_digit d' = true -> forallb is_digit D' = true ->
  at_end tl = true ->
  G = X.
Proof.
  intros E Hv Hv' Hd HD Hd' HD' Htl.
  apply atom_v_not_digit in Hv. apply atom_v_not_digit in Hv'.
  apply (f_equal (@rev ascii)) in E.
  change (G ++ "_"%char :: v' :: d' :: D' ++ tl)
    with (G ++ ["_"%char; v'] ++ (d' :: D') ++ tl) in E.
  change (X ++ "_"%char :: v :: d :: D)
    with (X ++ ["_"%char; v] ++ (d :: D)) in E.
  rewrite !rev_app_distr in E. cbn [rev app] in E.
  rewrite <- !app_assoc in E. cbn [app] in E.
  assert (HdD : forallb is_digit (d :: D) = true)
    by (cbn [forallb]; now rewrite Hd, HD).
  assert (HdD' : forallb is_digit (d' :: D') = true)
    by (cbn [forallb]; now rewrite Hd', HD').
  destruct (at_end_cases _ Htl) as [-> | ->].
  - cbn [rev app] in E.
    pose proof (f_equal take_digits E) as T.
    change (rev D' ++ d' :: v' :: "_"%char :: rev G)
      with (rev D' ++ [d'] ++ v' :: "_"%char :: rev G) in T.
    change (rev D ++ d :: v :: "_"%char :: rev X)
      with (rev D ++ [d] ++ v :: "_"%char :: rev X) in T.
    rewrite !app_assoc in T.
    change (rev D' ++ [d']) with (rev (d' :: D')) in T.
    change (rev D ++ [d]) with (rev (d :: D)) in T.
    rewrite !take_digits_rev_run in T by assumption.
    change (rev D' ++ d' :: v' :: "_"%char :: rev G)
      with (rev D' ++ [d'] ++ v' :: "_"%char :: rev G) in E.
    change (rev D ++ d :: v :: "_"%char :: rev X)
      with (rev D ++ [d] ++ v :: "_"%char :: rev X) in E.
    rewrite !app_assoc in E.
    change (rev D' ++ [d']) with (rev (d' :: D')) in E.
    change (rev D ++ [d]) with (rev (d :: D)) in E.
    rewrite T in E. apply app_inv_head in E.
    injection E as _ E. apply (f_equal (@rev ascii)) in E.
    now rewrite !rev_involutive in E.
  - exfalso. cbn [rev app] in E.
    pose proof (f_equal take_digits E) as T.
    cbn [take_digits] in T.
    change (is_digit newline) with false in T. cbv iota in T.
    change (rev D ++ d :: v :: "_"%char :: rev X)
      with (rev D ++ [d] ++ v :: "_"%char :: rev X) in T.
    rewrite app_assoc in T.
    change (rev D ++ [d]) with (rev (d :: D)) in T.
    rewrite take_digits_rev_run in T by assumption.
    apply (f_equal (@List.length ascii)) in T.
    rewrite length_rev in T. cbn in T. lia.
Qed.

Lemma new_name_of_shape (X : str) (v d : ascii) (D : str) (m a : ascii)
  (tl : str) :
  forallb (atom_ok true AnyChar) X = true ->
  atom_ok true (Chr "v") v = true ->
  is_digit d = true -> forallb is_digit D = true ->
  atom_ok true (Chr "m") m = true ->
  atom_ok true (Chr "a") a = true ->
  at_end tl = true ->
  exists mo,
    re_match true re_base_version
      (fst (splitext (X ++ "_"%char :: v :: d :: D
                        ++ "."%char :: m :: a :: tl))) = Some mo
    /\ group1 mo = X.
Proof.
  intros HX Hv Hd HD Hm Ha Htl.
  rewrite (version_shape_splitext X v d D m a tl Hv Hd HD Hm Ha Htl).
  cbn [fst].
  pose proof (version_shape_base X v d D HX Hv Hd HD) as Hb.
  destruct (re_match true re_base_version (X ++ "_"%char :: v :: d :: D))
    as [mo|] eqn:E; [|now elim Hb].
  exists mo. split; [reflexivity|].
  destruct (base_version_split _ _ E)
    as (v' & d' & D' & tl' & Es & Hv' & Hd' & HD' & Htl').
  symmetry in Es.
  exact (base_split_unique _ _ _ _ _ _ _ _ _ Es Hv Hv' Hd HD Hd' HD' Htl').
Qed.

(** X8. For a file name made of a stem without newline, [_v], digits and
    [.ma], in either case, the pattern of step 4 matches and captures the
    stem, so the new name is the stem followed by [_v001.ma]: the digits
    of the old version go, and extension and [v] come out in lower
    case. *)
Theorem new_filename_is_stem_v001 (X : str) (v d : ascii) (D : str)
  (m a : ascii) (tl : str) :
  forallb (atom_ok true AnyChar) X = true ->
  atom_ok true (Chr "v") v = true ->
  is_digit d = true -> forallb is_digit D = true ->
  atom_ok true (Chr "m") m = true ->
  atom_ok true (Chr "a") a = true ->
  at_end tl = true ->
  exists mo,
    re_match true re_base_version
      (fst (splitext (X ++ "_"%char :: v :: d :: D
                        ++ "."%char :: m :: a :: tl))) = Some mo
    /\ group1 mo ++ lit "_v001.ma" = X ++ lit "_v001.ma".
Proof.
  intros HX Hv Hd HD Hm Ha Htl.
  destruct (new_name_of_shape X v d D m a tl HX Hv Hd HD Hm Ha Htl)
    as (mo & E & G).
  exists mo. split; [exact E | now rewrite G].
Qed.

Lemma new_filename_is_stem_v001_witness :
  exists mo,
    re_match true re_base_version
      (fst (splitext (lit "a_v2_b_V12.MA"))) = Some mo
    /\ group1 mo ++ lit "_v001.ma" = lit "a_v2_b_v001.ma".
Proof.
  exact (new_filename_is_stem_v001 (lit "a_v2_b") "V" "1" (lit "2") "M" "A" []
           eq_refl eq_refl eq_refl eq_refl eq_refl eq_refl eq_refl).
Defined.

(** ** What a run leaves alone *)

Lemma mkdirs_keeps_kind p names' :
  forall n n' names x,
    mkdirs p n names' = inr n' ->
    get n names = Some x ->
    exists x', get n' names = Some x' /\ is_dir_node x' = is_dir_node x.
Proof.
  induction names' as [|c ns IH]; intros n n' names x Hm Hg.
  - destruct n; cbn [mkdirs] in Hm; [discriminate|]. injection Hm as <-.
    now exists x.
  - destruct n as [t0 | es]; [discriminate|]. cbn [mkdirs] in Hm.
    destruct names as [|c2 nm].
    + cbn [get] in Hg. injection Hg as <-.
      destruct (lookup c es) as [x0|].
      * destruct (mkdirs p x0 ns) as [e|x0']; [discriminate|].
        injection Hm as <-. eexists. split; reflexivity.
      * injection Hm as <-. eexists. split; reflexivity.
    + cbn [get] in Hg.
      destruct (lookup c2 es) as [y|] eqn:L2; [|discriminate].
      destruct (lookup c es) as [x0|] eqn:L.
      * destruct (mkdirs p x0 ns) as [e|x0'] eqn:M; [discriminate|].
        injection Hm as <-. cbn [get].
        destruct (list_eq_dec ascii_dec c2 c) as [-> | Hne].
        -- rewrite (lookup_update_same c x0' es x0 L).
           rewrite L in L2. injection L2 as <-. eapply IH; eauto.
        -- rewrite lookup_update_other by exact Hne. rewrite L2.
           now exists x.
      * injection Hm as <-. cbn [get].
        rewrite (lookup_app_some c2 es _ y L2). now exists x.
Qed.

Lemma put_file_keeps_kind p text names' :
  forall n n' names x,
    put_file p n names' text = inr n' ->
    get n names = Some x ->
    exists x', get n' names = Some x' /\ is_dir_node x' = is_dir_node x.
Proof.
  induction names' as [|c ns IH]; intros n n' names x Hp Hg.
  - destruct n as [t0 | es]; cbn [put_file] in Hp; [|discriminate].
    injection Hp as <-. destruct names as [|c2 nm]; [|discriminate].
    cbn [get] in Hg. injection Hg as <-. eexists. split; reflexivity.
  - destruct n as [t0 | es]; [discriminate|]. cbn [put_file] in Hp.
    destruct names as [|c2 nm].
    + cbn [get] in Hg. injection Hg as <-.
      destruct (lookup c es) as [x0|].
      * destruct (put_file p x0 ns text) as [e|x0']; [discriminate|].
        injection Hp as <-. eexists. split; reflexivity.
      * destruct ns; [|discriminate]. injection Hp as <-.
        eexists. split; reflexivity.
    + cbn [get] in Hg.
      destruct (lookup c2 es) as [y|] eqn:L2; [|discriminate].
      destruct (lookup c es) as [x0|] eqn:L.
      * destruct (put_file p x0 ns text) as [e|x0'] eqn:M; [discriminate|].
        injection Hp as <-. cbn [get].
        destruct (list_eq_dec ascii_dec c2 c) as [-> | Hne].
        -- rewrite (lookup_update_same c x0' es x0 L).
           rewrite L in L2. injection L2 as <-. eapply IH; eauto.
        -- rewrite lookup_update_other by exact Hne. rewrite L2.
           now exists x.
      * destruct ns; [|discriminate]. injection Hp as <-. cbn [get].
        rewrite (lookup_app_some c2 es _ y L2). now exists x.
Qed.

(** X9. A run removes nothing and turns no directory into a file or a
    file into a directory: whatever a path led to before the run, it
    leads to an entry of the same kind after it. *)
Theorem clone_latest_removes_nothing (src dst : str) (answer : bool)
  (fs : fnode) (names : list str) (x : fnode) :
  get fs names = Some x ->
  exists x',
    get (snd (clone_latest src dst answer fs)) names = Some x'
    /\ is_dir_node x' = is_dir_node x.
Proof.
  intros Hg.
  clone_cases src dst answer fs; cbn [snd];
    try (exists x; split; [exact Hg | reflexivity]);
    try (eapply mkdirs_keeps_kind; [exact Hmk | exact Hg]);
    (destruct (mkdirs_keeps_kind _ _ _ _ _ _ Hmk Hg) as (x1 & G1 & K1);
     destruct (put_file_keeps_kind _ _ _ _ _ _ _ Hwrite G1) as (x2 & G2 & K2);
     exists x2; split; [exact G2 | congruence]).
Qed.

Lemma clone_latest_removes_nothing_witness :
  exists x',
    get (snd (clone_latest scenario_src scenario_dst true scenario_fs))
        (resolve (lit "/show/ep_01/sq_010/sh_020/work/lighting_v003.ma"))
    = Some x'
    /\ is_dir_node x' = false.
Proof.
  apply (clone_latest_removes_nothing scenario_src scenario_dst true
           scenario_fs _
           (File (Some (lit
              "file ep_01_sq_010_sh_020_lighting_v003; cache_v003")))).
  reflexivity.
Defined.

(** X10. A run changes the text of no file but the one it writes, and
    brings in no other file: at every place other than the path of a write
    of the trace, the same files with the same texts are found before and
    after. *)
Theorem clone_latest_changes_no_other_file (src dst : str) (answer : bool)
  (fs : fnode) (names : list str) :
  (forall p text,
      In (WriteFile p text) (fst (clone_latest src dst answer fs)) ->
      names <> resolve p) ->
  forall t,
    get (snd (clone_latest src dst answer fs)) names = Some (File t)
    <-> get fs names = Some (File t).
Proof.
  clone_cases src dst answer fs; cbn [fst snd app]; intros Hno t;
    try tauto;
    try (split; [ eapply mkdirs_no_new_file; exact Hmk
                | eapply mkdirs_keeps_files; exact Hmk ]);
    (match goal with
     | Hw : write_file _ ?p ?c = inr _ |- _ =>
         assert (names <> resolve p) as Hne
           by (apply (Hno p c); cbn [In]; tauto);
         rewrite (put_file_other _ _ _ _ _ names Hw Hne t)
     end;
     split; [ eapply mkdirs_no_new_file; exact Hmk
            | eapply mkdirs_keeps_files; exact Hmk ]).
Qed.

Lemma clone_latest_changes_no_other_file_witness :
  get (snd (clone_latest scenario_src scenario_dst true scenario_fs))
      (resolve (lit "/show/ep_01/sq_010/sh_020/work/lighting_v003.ma"))
  = Some (File (Some (lit
       "file ep_01_sq_010_sh_020_lighting_v003; cache_v003")))
  <-> get scenario_fs
        (resolve (lit "/show/ep_01/sq_010/sh_020/work/lighting_v003.ma"))
      = Some (File (Some (lit
           "file ep_01_sq_010_sh_020_lighting_v003; cache_v003"))).
Proof.
  apply (clone_latest_changes_no_other_file scenario_src scenario_dst true
           scenario_fs).
  intros p text H. vm_compute in H.
  repeat (destruct H as [H | H]); try discriminate H; try contradiction.
  injection H as <- _. vm_compute. discriminate.
Defined.

Lemma get_new_dirs_prefix ns :
  forall names x,
    get (new_dirs ns) names = Some x -> exists rest, ns = names ++ rest.
Proof.
  induction ns as [|c ns IH]; intros [|c2 nm] x H.
  - now exists [].
  - discriminate H.
  - now exists (c :: ns).
  - cbn [new_dirs get lookup] in H.
    destruct (str_eqb c c2) eqn:E; [|discriminate].
    apply str_eqb_eq in E. subst c2.
    destruct (IH nm x H) as [rest ->]. now exists rest.
Qed.

(** What [makedirs] brings in lies on its path. *)
Lemma mkdirs_new_on_path p names' :
  forall n n' names x,
    mkdirs p n names' = inr n' ->
    get n' names = Some x -> get n names = None ->
    exists rest, names' = names ++ rest.
Proof.
  induction names' as [|c ns IH]; intros n n' names x Hm Hg Hnone.
  - destruct n; cbn [mkdirs] in Hm; [discriminate|]. injection Hm as <-.
    congruence.
  - destruct n as [t0 | es]; [discriminate|]. cbn [mkdirs] in Hm.
    destruct names as [|c2 nm]; [discriminate Hnone|].
    cbn [get] in Hnone.
    destruct (lookup c es) as [x0|] eqn:L.
    + destruct (mkdirs p x0 ns) as [e|x0'] eqn:M; [discriminate|].
      injection Hm as <-. cbn [get] in Hg.
      destruct (list_eq_dec ascii_dec c2 c) as [-> | Hne].
      * rewrite (lookup_update_same c x0' es x0 L) in Hg.
        rewrite L in Hnone.
        destruct (IH x0 x0' nm x M Hg Hnone) as [rest ->]. now exists rest.
      * rewrite lookup_update_other in Hg by exact Hne.
        destruct (lookup c2 es); congruence.
    + injection Hm as <-. cbn [get] in Hg.
      destruct (lookup c2 es) as [y|] eqn:L2.
      * rewrite (lookup_app_some c2 es _ y L2) in Hg. congruence.
      * rewrite (lookup_app_none c2 es _ L2) in Hg. cbn [lookup] in Hg.
        destruct (str_eqb c c2) eqn:E; [|discriminate].
        apply str_eqb_eq in E. subst c2.
        destruct (get_new_dirs_prefix ns nm x Hg) as [rest ->].
        now exists rest.
Qed.

(** What a write brings in is the file at its path. *)
Lemma put_file_new_at_path p text names' :
  forall n n' names x,
    put_file p n names' text = inr n' ->
    get n' names = Some x -> get n names = None ->
    names = names'.
Proof.
  induction names' as [|c ns IH]; intros n n' names x Hp Hg Hnone.
  - destruct n as [t0 | es]; cbn [put_file] in Hp; [|discriminate].
    injection Hp as <-. destruct names as [|c2 nm]; [discriminate Hnone|].
    discriminate Hg.
  - destruct n as [t0 | es]; [discriminate|]. cbn [put_file] in Hp.
    destruct names as [|c2 nm]; [discriminate Hnone|].
    cbn [get] in Hnone.
    destruct (lookup c es) as [x0|] eqn:L.
    + destruct (put_file p x0 ns text) as [e|x0'] eqn:M; [discriminate|].
      injection Hp as <-. cbn [get] in Hg.
      destruct (list_eq_dec ascii_dec c2 c) as [-> | Hne].
      * rewrite (lookup_update_same c x0' es x0 L) in Hg.
        rewrite L in Hnone. f_equal. exact (IH x0 x0' nm x M Hg Hnone).
      * rewrite lookup_update_other in Hg by exact Hne.
        destruct (lookup c2 es); congruence.
    + destruct ns; [|discriminate]. injection Hp as <-. cbn [get] in Hg.
      destruct (lookup c2 es) as [y|] eqn:L2.
      * rewrite (lookup_app_some c2 es _ y L2) in Hg. congruence.
      * rewrite (lookup_app_none c2 es _ L2) in Hg. cbn [lookup] in Hg.
        destruct (str_eqb c c2) eqn:E; [|discriminate].
        apply str_eqb_eq in E. subst c2.
        destruct nm as [|c3 nm]; [reflexivity | discriminate Hg].
Qed.

(** X11. For a destination typed without [..], whatever a run creates
    lies on the destination: a path that leads somewhere after the run and
    led nowhere before it is the beginning of the destination folder's path
    or the path of the file the run has written. *)
Theorem clone_latest_creates_on_destination (src dst : str) (answer : bool)
  (fs : fnode) (names : list str) (x : fnode) :
  no_dotdot (strip dst) = true ->
  get (snd (clone_latest src dst answer fs)) names = Some x ->
  get fs names = None ->
  (exists rest, resolve (strip dst) = names ++ rest)
  \/ (exists p text,
         In (WriteFile p text) (fst (clone_latest src dst answer fs))
         /\ names = resolve p).
Proof.
  intros _.
  clone_cases src dst answer fs; cbn [fst snd app]; intros Hg Hnone;
    try congruence;
    try (left; exact (mkdirs_new_on_path _ _ _ _ _ _ Hmk Hg Hnone));
    (destruct (get fs1 names) as [x1|] eqn:G1;
     [ left; exact (mkdirs_new_on_path _ _ _ _ _ _ Hmk G1 Hnone)
     | right; do 2 eexists; split;
       [ cbn [In]; eauto 6
       | exact (put_file_new_at_path _ _ _ _ _ _ _ Hwrite Hg G1) ] ]).
Qed.

Lemma clone_latest_creates_on_destination_witness :
  (exists rest,
      resolve (strip scenario_dst)
      = [lit "show"; lit "ep_02"; lit "sq_020"] ++ rest)
  \/ (exists p text,
         In (WriteFile p text)
            (fst (clone_latest scenario_src scenario_dst true scenario_fs))
         /\ [lit "show"; lit "ep_02"; lit "sq_020"] = resolve p).
Proof.
  apply (clone_latest_creates_on_destination scenario_src scenario_dst true
           scenario_fs [lit "show"; lit "ep_02"; lit "sq_020"]
           (Dir [(lit "sh_030", Dir [(lit "work",
              Dir [(lit "lighting_v001.ma", File (Some (lit
                "file ep_02_sq_020_sh_030_lighting_v001; cache_v003")))])])])).
  - reflexivity.
  - reflexivity.
  - reflexivity.
Defined.

Lemma mkdirs_makes_dir p names :
  forall n n',
    mkdirs p n names = inr n' -> exists es, get n' names = Some (Dir es).
Proof.
  induction names as [|c ns IH]; intros n n' Hm.
  - destruct n as [t | es]; cbn [mkdirs] in Hm; [discriminate|].
    injection Hm as <-. now exists es.
  - destruct n as [t | es]; [discriminate|]. cbn [mkdirs] in Hm.
    destruct (lookup c es) as [x|] eqn:L.
    + destruct (mkdirs p x ns) as [e|x'] eqn:M; [discriminate|].
      injection Hm as <-. cbn [get].
      rewrite (lookup_update_same c x' es x L). now apply (IH x).
    + injection Hm as <-. cbn [get].
      rewrite (lookup_app_none c es _ L). cbn [lookup].
      rewrite (proj2 (str_eqb_eq c c) eq_refl).
      clear. induction ns as [|c2 ns IH]; [now exists []|].
      cbn [new_dirs get lookup]. rewrite (proj2 (str_eqb_eq c2 c2) eq_refl).
      exact IH.
Qed.

(** X12. Once a run has passed [makedirs], the destination folder is
    there after the run, whatever follows: also when the user declines to
    overwrite, and when the read or the write fails and nothing is
    written. *)
Theorem clone_latest_leaves_destination_folder (src dst : str)
  (answer : bool) (fs made : fnode) :
  In (MakeDirs (strip dst)) (fst (clone_latest src dst answer fs)) ->
  makedirs fs (strip dst) = inr made ->
  isdir (snd (clone_latest src dst answer fs)) (strip dst) = true.
Proof.
  intros Hin Hmk1.
  destruct (mkdirs_makes_dir _ _ _ _ Hmk1) as [es G1].
  revert Hin.
  clone_cases src dst answer fs; cbn [fst snd app In]; intros Hin;
    repeat (destruct Hin as [Hin | Hin]); try discriminate Hin;
    try contradiction;
    try discriminate Hmk1;
    injection Hmk1 as ->;
    unfold isdir;
    try (rewrite G1; reflexivity);
    (destruct (put_file_keeps_kind _ _ _ _ _ _ _ Hwrite G1) as (x2 & G2 & K2);
     rewrite G2; destruct x2; [discriminate K2 | reflexivity]).
Qed.

Lemma clone_latest_leaves_destination_folder_witness :
  isdir (snd (clone_latest (lit "/ep_1/sq_1/sh_1") (lit "/ep_2/sq_2/sh_2")
                true undecodable_fs))
        (strip (lit "/ep_2/sq_2/sh_2")) = true.
Proof.
  apply (clone_latest_leaves_destination_folder (lit "/ep_1/sq_1/sh_1")
           (lit "/ep_2/sq_2/sh_2") true undecodable_fs
           (Dir [(lit "ep_1",
                  Dir [(lit "sq_1",
                        Dir [(lit "sh_1",
                              Dir [(lit "a_v1.ma", File None)])])]);
                 (lit "ep_2", Dir [(lit "sq_2", Dir [(lit "sh_2", Dir [])])])])).
  - vm_compute. tauto.
  - reflexivity.
Defined.

(** ** How a run ends *)

(** X13. Every run ends by telling the user how it ended, and tells
    nothing before: its trace is events that are no notice, followed by one
    error box, or by the cancellation in the status label, or by the box
    of the success and then the completion in the status label. *)
Theorem clone_latest_ends_with_notice (src dst : str) (answer : bool)
  (fs : fnode) :
  exists pre,
    forallb (fun ev => negb (is_notice ev)) pre = true
    /\ ((exists title message,
            fst (clone_latest src dst answer fs)
            = pre ++ [ShowError title message])
        \/ fst (clone_latest src dst answer fs) = pre ++ [status_canceled]
        \/ (exists title message,
               fst (clone_latest src dst answer fs)
               = pre ++ [ShowInfo title message; status_completed])).
Proof.
  clone_cases src dst answer fs; cbn [fst app];
    match goal with
    | |- exists pre', _ /\ ((exists _ _, ?trace = _) \/ _) =>
        first
          [ exists (removelast (removelast trace)); split; [reflexivity|];
            right; right; eexists _, _; reflexivity
          | exists (removelast trace); split; [reflexivity|];
            first [ left; eexists _, _; reflexivity
                  | right; left; reflexivity ] ]
    end.
Qed.

(** X14. After a run that completed, reading the path of its write gives
    the text of that write. *)
Theorem completed_run_reads_back (src dst : str) (answer : bool)
  (fs : fnode) :
  In status_completed (fst (clone_latest src dst answer fs)) ->
  exists p text,
    In (WriteFile p text) (fst (clone_latest src dst answer fs))
    /\ read_file (snd (clone_latest src dst answer fs)) p = inr text.
Proof.
  intros Hdone.
  destruct (success_has_write _ _ _ _ Hdone) as [p [text Hw]].
  exists p, text. split; [exact Hw|].
  destruct (written_run src dst answer fs p text Hw)
    as (latest_ma & m & fs1 & content & pre & post & _ & _ & _ & _ & _ & _
        & _ & Etrace & Hpre & _ & Hend).
  destruct Hend as [(fs2 & Hwrite & -> & _) | (e & _ & _ & ->)].
  - apply read_file_some. exact (put_file_get _ _ _ _ _ Hwrite).
  - exfalso. rewrite Etrace in Hdone.
    destruct Hpre as [-> | ->]; cbn [app In] in Hdone;
      repeat (destruct Hdone as [Hdone | Hdone]);
      try discriminate Hdone; contradiction.
Qed.

Lemma completed_run_reads_back_witness :
  exists p text,
    In (WriteFile p text)
       (fst (clone_latest scenario_src scenario_dst true scenario_fs))
    /\ read_file (snd (clone_latest scenario_src scenario_dst true
                         scenario_fs)) p = inr text.
Proof.
  apply completed_run_reads_back. vm_compute. tauto.
Defined.

(** ** White space around the entries *)

Lemma lstrip_spaces (ws s : str) :
  forallb is_space ws = true -> lstrip (ws ++ s) = lstrip s.
Proof.
  induction ws as [|c ws IH]; intros H; [reflexivity|].
  cbn [forallb] in H. apply andb_true_iff in H as [Hc H].
  cbn [app lstrip]. rewrite Hc. now apply IH.
Qed.

Lemma lstrip_all_spaces (ws : str) :
  forallb is_space ws = true -> lstrip ws = [].
Proof.
  intros H. rewrite <- (app_nil_r ws). now rewrite lstrip_spaces.
Qed.

Lemma lstrip_app (s t : str) :
  lstrip s <> [] -> lstrip (s ++ t) = lstrip s ++ t.
Proof.
  induction s as [|c s IH]; intros H; [now elim H|].
  cbn [app lstrip] in *. destruct (is_space c); [now apply IH | reflexivity].
Qed.

Lemma lstrip_app_all (s t : str) :
  lstrip s = [] -> lstrip (s ++ t) = lstrip t.
Proof.
  induction s as [|c s IH]; intros H; [reflexivity|].
  cbn [app lstrip] in *. destruct (is_space c); [now apply IH | discriminate].
Qed.

Lemma strip_spaces (ws1 s ws2 : str) :
  forallb is_space ws1 = true -> forallb is_space ws2 = true ->
  strip (ws1 ++ s ++ ws2) = strip s.
Proof.
  intros H1 H2. unfold strip. rewrite (lstrip_spaces ws1 _ H1).
  destruct (lstrip s) as [|c l] eqn:L.
  - rewrite (lstrip_app_all s ws2 L), (lstrip_all_spaces ws2 H2).
    reflexivity.
  - rewrite lstrip_app by (rewrite L; discriminate). rewrite L.
    rewrite rev_app_distr. rewrite lstrip_spaces; [reflexivity|].
    rewrite forallb_forall in *. intros x Hx. apply H2. now apply in_rev.
Qed.

(** X15. White space typed before or after the two paths is ignored: the
    run is the one of the bare paths. *)
Theorem clone_latest_ignores_outer_space (a1 a2 b1 b2 src dst : str)
  (answer : bool) (fs : fnode) :
  forallb is_space a1 = true -> forallb is_space a2 = true ->
  forallb is_space b1 = true -> forallb is_space b2 = true ->
  clone_latest (a1 ++ src ++ a2) (b1 ++ dst ++ b2) answer fs
  = clone_latest src dst answer fs.
Proof.
  intros Ha1 Ha2 Hb1 Hb2. unfold clone_latest.
  rewrite (strip_spaces a1 src a2 Ha1 Ha2), (strip_spaces b1 dst b2 Hb1 Hb2).
  reflexivity.
Qed.

Lemma clone_latest_ignores_outer_space_witness :
  clone_latest (lit "  " ++ scenario_src ++ [newline])
               ([] ++ scenario_dst ++ lit " ") true scenario_fs
  = clone_latest scenario_src scenario_dst true scenario_fs.
Proof.
  apply clone_latest_ignores_outer_space; reflexivity.
Defined.

(** ** The file that is read *)

(** X16. A run opens no directory for reading: on a file system with
    proper entry names, none listed twice in a directory, the path that a
    run reads is the one selected among the paths collected under the
    source folder, and it leads to an entry that is not a directory. *)
Theorem clone_latest_reads_collected_entry (src dst : str) (answer : bool)
  (fs : fnode) (p : str) :
  names_ok fs = true -> unique_names fs = true ->
  In (ReadFile p) (fst (clone_latest src dst answer fs)) ->
  select_highest_version (find_all_ma_files fs (strip src)) = Some p
  /\ In p (find_all_ma_files fs (strip src))
  /\ isdir fs p = false
  /\ get fs (resolve p) <> None.
Proof.
  intros Hn Hu.
  clone_cases src dst answer fs; cbn [fst app In]; intros H;
    repeat (destruct H as [H | H]); try discriminate H; try contradiction;
    destruct (truthy_some _ Hlatest) as [latest_ma [El _]];
    rewrite El in *; cbn [the_str] in *;
    injection H as <-;
    pose proof (selected_is_candidate _ _ El) as Hin;
    destruct (collected_is_file fs (strip src) latest_ma Hn Hu Hin)
      as [t G];
    (split; [reflexivity|]); (split; [exact Hin|]);
    unfold isdir; rewrite G; (split; [reflexivity | discriminate]).
Qed.

(** ** Rewriting that changes nothing, and rewriting twice *)

Lemma replace_same (old s : str) : replace old old s = s.
Proof.
  destruct old as [|c o] eqn:E.
  - cbn [replace app]. induction s as [|d s IH]; [reflexivity|].
    cbn [flat_map app]. now rewrite IH.
  - rewrite <- E. assert (old <> []) as Hne by (rewrite E; discriminate).
    pattern s. apply (replace_scan_ind old Hne); clear s.
    + now apply replace_nil.
    + intros rest IH. rewrite replace_hit by exact Hne. now rewrite IH.
    + intros d s Hd IH. rewrite replace_miss by assumption. now rewrite IH.
Qed.

Lemma replace_equal (old new s : str) : old = new -> replace old new s = s.
Proof. intros <-. apply replace_same. Qed.

(** X17. Between two folders with the same three tokens, a latest file
    that is already at [_v001.ma] is copied as it is: the text written is
    the text of the source file, under the same name in the destination
    folder. *)
Theorem clone_latest_copies_v001 (src dst : str) (answer : bool)
  (fs : fnode) (p text latest X : str) :
  In (WriteFile p text) (fst (clone_latest src dst answer fs)) ->
  src_token re_ep src = dst_token re_ep dst ->
  src_token re_sq src = dst_token re_sq dst ->
  src_token re_sh src = dst_token re_sh dst ->
  select_highest_version (find_all_ma_files fs (strip src)) = Some latest ->
  basename latest = X ++ lit "_v001.ma" ->
  forallb (atom_ok true AnyChar) X = true ->
  read_file fs latest = inr text
  /\ p = path_join (strip dst) (X ++ lit "_v001.ma").
Proof.
  intros Hw Eep Esq Esh Hsel Hbase HX.
  destruct (written_run src dst answer fs p text Hw)
    as (latest_ma & m & fs1 & content & pre & post & Hsel' & Hm & Hmk & _
        & Hread & Ep & Et & _).
  rewrite Hsel in Hsel'. injection Hsel' as <-.
  destruct (new_name_of_shape X "v" "0" (lit "01") "m" "a" []
              HX eq_refl eq_refl eq_refl eq_refl eq_refl eq_refl)
    as (mo & Emo & G).
  change (X ++ "_"%char :: "v"%char :: "0"%char :: lit "01"
            ++ "."%char :: "m"%char :: "a"%char :: [])
    with (X ++ lit "_v001.ma") in Emo.
  rewrite Hbase in Hm. rewrite Emo in Hm. injection Hm as <-.
  split.
  - apply read_file_some in Hread. apply read_file_some.
    unfold makedirs in Hmk.
    rewrite (mkdirs_no_new_file _ _ _ _ _ _ Hmk Hread). f_equal. f_equal.
    f_equal. rewrite Et. unfold rewritten, rewrite_content.
    rewrite Hbase, G.
    pose proof (version_shape_splitext X "v" "0" (lit "01") "m" "a" []
                  eq_refl eq_refl eq_refl eq_refl eq_refl eq_refl) as Hs.
    change (X ++ "_"%char :: "v"%char :: "0"%char :: lit "01"
              ++ "."%char :: "m"%char :: "a"%char :: [])
      with (X ++ lit "_v001.ma") in Hs.
    rewrite Hs. cbn [fst].
    rewrite (replace_equal _ _ _ Eep), (replace_equal _ _ _ Esq),
      (replace_equal _ _ _ Esh).
    rewrite replace_same. now rewrite replace_equal.
  - rewrite Ep. unfold dest_path. now rewrite G.
Qed.

(** X18. Take a latest file whose version is written [0] or [00] and
    whose name holds none of the three old tokens, and a text that is that
    name and nothing else.  Step 4 turns the text into the new name, and
    step 5, whose pattern [stem_v0] begins the new name [stem_v001.ma],
    rewrites that again: the text comes out as [stem_v00101.ma] or
    [stem_v0011.ma], not as the name of the file that is written. *)
Theorem version_zero_name_rewritten_twice
  (old_ep new_ep old_sq new_sq old_sh new_sh X : str) (d : ascii) (D r : str) :
  forallb (atom_ok true AnyChar) X = true ->
  lit "001" = (d :: D) ++ r -> r <> [] ->
  let fn := X ++ lit "_v" ++ (d :: D) ++ lit ".ma" in
  contains old_ep fn = false -> contains old_sq fn = false ->
  contains old_sh fn = false ->
  exists mo,
    re_match true re_base_version (fst (splitext fn)) = Some mo
    /\ group1 mo ++ lit "_v001.ma" = X ++ lit "_v001.ma"
    /\ rewrite_content old_ep new_ep old_sq new_sq old_sh new_sh
         fn (group1 mo ++ lit "_v001.ma") (fst (splitext fn)) (group1 mo) fn
       = X ++ lit "_v001" ++ r ++ lit ".ma".
Proof.
  intros HX E Hr fn Hep Hsq Hsh.
  assert (Hd : is_digit d = true /\ forallb is_digit D = true
               /\ ~ In "_"%char (r ++ lit ".ma")).
  { destruct D as [|d2 [|d3 D]].
    - injection E as <- <-. repeat split. intros H.
      cbn in H. repeat (destruct H as [H | H]; [discriminate H|]).
      exact H.
    - injection E as <- <- <-. repeat split. intros H.
      cbn in H. repeat (destruct H as [H | H]; [discriminate H|]).
      exact H.
    - injection E as _ _ _ E. destruct D; [|discriminate E].
      cbn in E. now elim Hr. }
  destruct Hd as (Hd & HD & Hund).
  destruct (new_name_of_shape X "v" d D "m" "a" []
              HX eq_refl Hd HD eq_refl eq_refl eq_refl)
    as (mo & Emo & G).
  pose proof (version_shape_splitext X "v" d D "m" "a" []
                eq_refl Hd HD eq_refl eq_refl eq_refl) as Hs.
  change (X ++ "_"%char :: "v"%char :: d :: D
            ++ "."%char :: "m"%char :: "a"%char :: []) with fn in Emo, Hs.
  exists mo. split; [exact Emo|]. split; [now rewrite G|].
  rewrite G, Hs. cbn [fst]. unfold rewrite_content.
  rewrite (replace_absent_any old_ep new_ep fn Hep).
  rewrite (replace_absent_any old_sq new_sq fn Hsq).
  rewrite (replace_absent_any old_sh new_sh fn Hsh).
  assert (Hfn : fn <> []).
  { unfold fn. destruct X; discriminate. }
  rewrite <- (app_nil_r fn) at 2.
  rewrite (replace_hit fn (X ++ lit "_v001.ma") Hfn []).
  rewrite (replace_nil fn (X ++ lit "_v001.ma") Hfn), app_nil_r.
  set (old := X ++ "_"%char :: "v"%char :: d :: D).
  assert (Hold : old <> []) by (unfold old; destruct X; discriminate).
  assert (Enew : X ++ lit "_v001.ma" = old ++ r ++ lit ".ma").
  { unfold old. rewrite <- app_assoc. f_equal.
    change (lit "_v001.ma") with ("_"%char :: "v"%char :: lit "001" ++ lit ".ma").
    rewrite E. cbn [app]. now rewrite <- app_assoc. }
  rewrite Enew.
  rewrite (replace_hit old (X ++ lit "_v001") Hold (r ++ lit ".ma")).
  rewrite replace_absent_any.
  - now rewrite <- app_assoc.
  - apply not_contains. intros a b Eab. apply Hund. rewrite Eab.
    apply in_or_app. right. apply in_or_app. left.
    unfold old. apply in_or_app. right. now left.
Qed.

Lemma version_zero_name_rewritten_twice_witness :
  exists mo,
    re_match true re_base_version (fst (splitext (lit "a_v0.ma"))) = Some mo
    /\ group1 mo ++ lit "_v001.ma" = lit "a_v001.ma"
    /\ rewrite_content (lit "ep_01") (lit "ep_02") (lit "sq_010")
         (lit "sq_020") (lit "sh_020") (lit "sh_030")
         (lit "a_v0.ma") (group1 mo ++ lit "_v001.ma")
         (fst (splitext (lit "a_v0.ma"))) (group1 mo) (lit "a_v0.ma")
       = lit "a_v00101.ma".
Proof.
  exact (version_zero_name_rewritten_twice (lit "ep_01") (lit "ep_02")
           (lit "sq_010") (lit "sq_020") (lit "sh_020") (lit "sh_030")
           (lit "a") "0" [] (lit "01") eq_refl eq_refl
           ltac:(discriminate) eq_refl eq_refl eq_refl).
Defined.

(** *** Concrete runs *)

Lemma clone_latest_reads_collected_entry_witness :
  select_highest_version
    (find_all_ma_files folder_fs (strip (lit "/shot/ep_1/sq_1/sh_1")))
  = Some (lit "/shot/ep_1/sq_1/sh_1/a_v1.ma")
  /\ In (lit "/shot/ep_1/sq_1/sh_1/a_v1.ma")
        (find_all_ma_files folder_fs (strip (lit "/shot/ep_1/sq_1/sh_1")))
  /\ isdir folder_fs (lit "/shot/ep_1/sq_1/sh_1/a_v1.ma") = false
  /\ get folder_fs (resolve (lit "/shot/ep_1/sq_1/sh_1/a_v1.ma")) <> None.
Proof.
  apply (clone_latest_reads_collected_entry (lit "/shot/ep_1/sq_1/sh_1")
           (lit "/out/ep_2/sq_2/sh_2") true folder_fs).
  - reflexivity.
  - reflexivity.
  - vm_compute. tauto.
Defined.

Lemma clone_latest_copies_v001_witness :
  read_file copy_fs (lit "/p/ep_1/sq_1/sh_1/a/x_v001.ma")
  = inr (lit "ep_1 sq_1 sh_1 x_v001.ma x_v001")
  /\ lit "/p/ep_1/sq_1/sh_1/b/x_v001.ma"
     = path_join (strip (lit "/p/ep_1/sq_1/sh_1/b"))
         (lit "x" ++ lit "_v001.ma").
Proof.
  apply (clone_latest_copies_v001 (lit "/p/ep_1/sq_1/sh_1/a")
           (lit "/p/ep_1/sq_1/sh_1/b") true copy_fs).
  - vm_compute. tauto.
  - reflexivity.
  - reflexivity.
  - reflexivity.
  - reflexivity.
  - reflexivity.
  - reflexivity.
Defined.

(** ** The window *)

Lemma error_run_sets_no_status (src dst : str) (answer : bool) (fs : fnode)
  (title message : str) :
  In (ShowError title message) (fst (clone_latest src dst answer fs)) ->
  forall text fg,
    ~ In (StatusLabel text fg) (fst (clone_latest src dst answer fs)).
Proof.
  clone_cases src dst answer fs; cbn [fst app In]; intros H text fg H';
    repeat (destruct H' as [H' | H']); try discriminate H';
    try contradiction;
    repeat (destruct H as [H | H]); try discriminate H; contradiction.
Qed.

Lemma status_of_run (src dst : str) (answer : bool) (fs : fnode)
  (text fg : str) :
  In (StatusLabel text fg) (fst (clone_latest src dst answer fs)) ->
  StatusLabel text fg = status_canceled
  \/ StatusLabel text fg = status_completed.
Proof.
  clone_cases src dst answer fs; cbn [fst app In]; intros H;
    repeat (destruct H as [H | H]); try discriminate H;
    try contradiction; rewrite <- H; auto.
Qed.

Lemma show_events_without_status (trace : list event) :
  (forall text fg, ~ In (StatusLabel text fg) trace) ->
  forall g, fold_left show_event trace g = g.
Proof.
  induction trace as [|ev trace IH]; intros H g; [reflexivity|].
  cbn [fold_left]. rewrite IH.
  - destruct ev; try reflexivity. exfalso. apply (H text fg). now left.
  - intros text fg Hin. apply (H text fg). now right.
Qed.

(** X19. A press of the button that ends in an error box leaves the four
    widgets as they were: the status label keeps its text and colour, so
    the message of an earlier run stays on display until a folder is
    browsed. *)
Theorem error_keeps_status (answer : bool) (g : gui) (fs : fnode)
  (title message : str) :
  In (ShowError title message)
     (fst (clone_latest (src_entry g) (dst_entry g) answer fs)) ->
  fst (press_clone answer g fs) = g.
Proof.
  intros H. unfold press_clone. cbn [fst].
  apply show_events_without_status.
  exact (error_run_sets_no_status _ _ _ _ _ _ H).
Qed.

Lemma error_keeps_status_witness :
  fst (press_clone true
         {| src_entry := lit "/nowhere"; dst_entry := scenario_dst;
            status_text := lit "Clone completed successfully.";
            status_fg := lit "green" |} scenario_fs)
  = {| src_entry := lit "/nowhere"; dst_entry := scenario_dst;
       status_text := lit "Clone completed successfully.";
       status_fg := lit "green" |}.
Proof.
  apply (error_keeps_status true _ scenario_fs (lit "Error")
           (lit "Please choose a valid Source Shot folder.")).
  vm_compute. tauto.
Defined.

Lemma show_events_known (trace : list event) :
  (forall text fg, In (StatusLabel text fg) trace ->
                   StatusLabel text fg = status_canceled
                   \/ StatusLabel text fg = status_completed) ->
  forall g, status_known g -> status_known (fold_left show_event trace g).
Proof.
  induction trace as [|ev trace IH]; intros H g Hg; [exact Hg|].
  cbn [fold_left]. apply IH.
  - intros text fg Hin. apply H. now right.
  - destruct ev; try exact Hg. unfold status_known. cbn.
    right. apply H. now left.
Qed.

Lemma handle_known (st : gui * fnode) (a : action) :
  status_known (fst st) -> status_known (fst (handle st a)).
Proof.
  destruct st as [g fs]. cbn [fst]. intros Hg.
  destruct a as [folder | folder | text | text | answer]; cbn [handle fst].
  - destruct folder; [exact Hg | now left].
  - destruct folder; [exact Hg | now left].
  - exact Hg.
  - exact Hg.
  - unfold press_clone. cbn [fst]. apply show_events_known; [|exact Hg].
    intros text fg. apply status_of_run.
Qed.

(** X20. Whatever the user does in the window, the status label is empty
    or shows one of two texts: the cancellation in orange or the
    completion in green.  Errors are never written to it, and the red it
    starts with is never the colour of a text. *)
Theorem status_label_invariant (fs : fnode) (session : list action) :
  let g := fst (main fs session) in
  status_text g = []
  \/ (status_text g = lit "Operation canceled by user."
      /\ status_fg g = lit "orange")
  \/ (status_text g = lit "Clone completed successfully."
      /\ status_fg g = lit "green").
Proof.
  assert (forall st, status_known (fst st) ->
                     status_known (fst (fold_left handle session st))) as H.
  { induction session as [|a session IH]; intros st Hst; [exact Hst|].
    cbn [fold_left]. apply IH. now apply handle_known. }
  specialize (H (init_gui, fs) (or_introl eq_refl)).
  unfold main. cbv zeta.
  destruct H as [H | [H | H]]; [now left | right; left | right; right];
    injection H as -> ->; split; reflexivity.
Qed.

(** ** The source folder, and a second run *)

Lemma get_new_dirs_none ns names :
  (forall rest, ns <> names ++ rest) -> get (new_dirs ns) names = None.
Proof.
  intros H. destruct (get (new_dirs ns) names) as [x|] eqn:G; [|reflexivity].
  destruct (get_new_dirs_prefix ns names x G) as [rest E].
  now elim (H rest).
Qed.

(** [makedirs] changes nothing at a place that its path does not go
    through. *)
Lemma mkdirs_off_path p names' :
  forall n n' names,
    mkdirs p n names' = inr n' ->
    (forall rest, names' <> names ++ rest) ->
    get n' names = get n names.
Proof.
  induction names' as [|c ns IH]; intros n n' names Hm Hoff.
  - destruct n; cbn [mkdirs] in Hm; [discriminate|]. now injection Hm as <-.
  - destruct n as [t0 | es]; [discriminate|]. cbn [mkdirs] in Hm.
    destruct names as [|c2 nm]; [now elim (Hoff (c :: ns))|].
    destruct (lookup c es) as [x0|] eqn:L.
    + destruct (mkdirs p x0 ns) as [e|x0'] eqn:M; [discriminate|].
      injection Hm as <-. cbn [get].
      destruct (list_eq_dec ascii_dec c2 c) as [-> | Hne].
      * rewrite (lookup_update_same c x0' es x0 L), L.
        apply (IH x0 x0' nm M). intros rest E. apply (Hoff rest).
        cbn [app]. now rewrite E.
      * now rewrite lookup_update_other by exact Hne.
    + injection Hm as <-. cbn [get].
      destruct (lookup c2 es) as [y|] eqn:L2.
      * now rewrite (lookup_app_some c2 es _ y L2).
      * rewrite (lookup_app_none c2 es _ L2). cbn [lookup].
        destruct (str_eqb c c2) eqn:E; [|reflexivity].
        apply str_eqb_eq in E. subst c2.
        apply get_new_dirs_none. intros rest E. apply (Hoff rest).
        cbn [app]. now rewrite E.
Qed.

(** So does a write. *)
Lemma put_file_off_path p text names' :
  forall n n' names,
    put_file p n names' text = inr n' ->
    (forall rest, names' <> names ++ rest) ->
    get n' names = get n names.
Proof.
  induction names' as [|c ns IH]; intros n n' names Hp Hoff.
  - destruct names as [|c2 nm]; [now elim (Hoff [])|].
    destruct n as [t0 | es]; cbn [put_file] in Hp; [|discriminate].
    now injection Hp as <-.
  - destruct n as [t0 | es]; [discriminate|]. cbn [put_file] in Hp.
    destruct names as [|c2 nm]; [now elim (Hoff (c :: ns))|].
    destruct (lookup c es) as [x0|] eqn:L.
    + destruct (put_file p x0 ns text) as [e|x0'] eqn:M; [discriminate|].
      injection Hp as <-. cbn [get].
      destruct (list_eq_dec ascii_dec c2 c) as [-> | Hne].
      * rewrite (lookup_update_same c x0' es x0 L), L.
        apply (IH x0 x0' nm M). intros rest E. apply (Hoff rest).
        cbn [app]. now rewrite E.
      * now rewrite lookup_update_other by exact Hne.
    + destruct ns; [|discriminate]. injection Hp as <-. cbn [get].
      destruct (lookup c2 es) as [y|] eqn:L2.
      * now rewrite (lookup_app_some c2 es _ y L2).
      * rewrite (lookup_app_none c2 es _ L2). cbn [lookup].
        destruct (str_eqb c c2) eqn:E; [|reflexivity].
        apply str_eqb_eq in E. subst c2.
        destruct nm as [|c3 nm]; [now elim (Hoff [])|]. reflexivity.
Qed.

Lemma put_file_same p text names :
  forall n,
    get n names = Some (File (Some text)) -> put_file p n names text = inr n.
Proof.
  induction names as [|c ns IH]; intros n G.
  - cbn [get] in G. injection G as ->. reflexivity.
  - destruct n as [t0 | es]; [discriminate|]. cbn [get] in G.
    cbn [put_file]. destruct (lookup c es) as [x|] eqn:L; [|discriminate].
    rewrite (IH x G). now rewrite (lookup_update_id c x es L).
Qed.

Lemma mkdirs_existing p names :
  forall n es0, get n names = Some (Dir es0) -> mkdirs p n names = inr n.
Proof.
  induction names as [|c ns IH]; intros n es0 G.
  - cbn [get] in G. injection G as ->. reflexivity.
  - destruct n as [t0 | es]; [discriminate|]. cbn [get] in G.
    cbn [mkdirs]. destruct (lookup c es) as [x|] eqn:L; [|discriminate].
    rewrite (IH x es0 G). now rewrite (lookup_update_id c x es L).
Qed.

(** The path of a collected file goes through the root folder. *)
Lemma walk_paths n :
  forall top, names_ok n = true ->
  forall d ds fns fn,
    In (d, ds, fns) (walk top n) -> In fn fns ->
    exists rel, resolve (path_join d fn) = resolve top ++ rel ++ [fn].
Proof.
  induction n as [t | es IH] using fnode_ind; intros top Hn d ds fns fn Hw Hfn.
  - destruct Hw.
  - cbn [walk] in Hw. destruct Hw as [E | Hw].
    + injection E as <- _ <-. apply in_filenames in Hfn as [x Hx].
      destruct (names_ok_entry es fn x Hn Hx) as [Hfn _].
      exists []. now apply resolve_join.
    + apply in_flat_map in Hw as [[name x] [Hin Hw]]. cbn [fst snd] in Hw.
      destruct (names_ok_entry es name x Hn Hin) as [Hname Hx].
      destruct (IH name x Hin (path_join top name) Hx d ds fns fn Hw Hfn)
        as [rel E].
      exists (name :: rel).
      rewrite E, (resolve_join top name Hname), <- app_assoc. reflexivity.
Qed.

Lemma collected_under_root fs root p :
  names_ok fs = true ->
  In p (find_all_ma_files fs root) ->
  exists rel fn, resolve p = resolve root ++ rel ++ [fn].
Proof.
  unfold find_all_ma_files, matching_files, os_walk. intros Hn H.
  apply in_flat_map in H as [[[d ds] fns] [Hw H]]. cbn [fst snd] in H.
  apply in_map_iff in H as [fn [<- H]].
  apply filter_In in H as [Hfn _].
  destruct (get fs (resolve root)) as [n|] eqn:G; [|destruct Hw].
  destruct (walk_paths n root (names_ok_get _ _ _ Hn G) d ds fns fn Hw Hfn)
    as [rel E].
  now exists rel, fn.
Qed.

(** A path below the destination folder that goes through the source
    folder makes the destination folder lie in the source folder, unless it
    is the source folder itself. *)
Lemma below_destination (s d : list str) (x : str) (rest : list str) :
  d ++ [x] = s ++ rest ->
  (forall rest', d <> s ++ rest') ->
  rest = [] /\ s = d ++ [x].
Proof.
  intros E Hoff. destruct rest as [|r rest] using rev_ind.
  - rewrite app_nil_r in E. now split.
  - exfalso. rewrite app_assoc in E. apply app_inj_tail in E as [E _].
    now elim (Hoff rest).
Qed.

(** What a run has found and done when it completed. *)
Lemma completed_run_facts src dst answer fs :
  In status_completed (fst (clone_latest src dst answer fs)) ->
  (str_eqb (strip src) [] || negb (isdir fs (strip src))) = false
  /\ str_eqb (strip dst) [] = false
  /\ negb (truthy (find_token re_ep (replace [backslash] [slash] (strip src)))
           && truthy (find_token re_sq (replace [backslash] [slash] (strip src)))
           && truthy (find_token re_sh (replace [backslash] [slash] (strip src))))
     = false
  /\ negb (truthy (find_token re_ep (replace [backslash] [slash] (strip dst)))
           && truthy (find_token re_sq (replace [backslash] [slash] (strip dst)))
           && truthy (find_token re_sh (replace [backslash] [slash] (strip dst))))
     = false
  /\ str_eqb (normpath (strip src)) (normpath (strip dst)) = false
  /\ exists latest m fs1 content fs2,
       select_highest_version (find_all_ma_files fs (strip src)) = Some latest
       /\ latest <> []
       /\ re_match true re_base_version (fst (splitext (basename latest)))
          = Some m
       /\ makedirs fs (strip dst) = inr fs1
       /\ read_file fs1 latest = inr content
       /\ write_file fs1 (dest_path dst m) (rewritten src dst latest m content)
          = inr fs2
       /\ snd (clone_latest src dst answer fs) = fs2.
Proof.
  clone_cases src dst answer fs; cbn [fst snd app In]; intros H;
    repeat (destruct H as [H | H]); try discriminate H;
    try contradiction;
    destruct (truthy_some _ Hlatest) as [latest_ma [El Hne]];
    rewrite El in *; cbn [the_str] in *;
    repeat (split; [reflexivity|]);
    exists latest_ma, m, fs1, content, fs2;
    repeat (split; [first [reflexivity | assumption]|]); reflexivity.
Qed.

(** A run with these findings completes, if the answer is yes. *)
Lemma run_completes src dst answer fs latest m0 made text0 written :
  answer = true ->
  (str_eqb (strip src) [] || negb (isdir fs (strip src))) = false ->
  str_eqb (strip dst) [] = false ->
  negb (truthy (find_token re_ep (replace [backslash] [slash] (strip src)))
        && truthy (find_token re_sq (replace [backslash] [slash] (strip src)))
        && truthy (find_token re_sh (replace [backslash] [slash] (strip src))))
  = false ->
  negb (truthy (find_token re_ep (replace [backslash] [slash] (strip dst)))
        && truthy (find_token re_sq (replace [backslash] [slash] (strip dst)))
        && truthy (find_token re_sh (replace [backslash] [slash] (strip dst))))
  = false ->
  str_eqb (normpath (strip src)) (normpath (strip dst)) = false ->
  select_highest_version (find_all_ma_files fs (strip src)) = Some latest ->
  latest <> [] ->
  re_match true re_base_version (fst (splitext (basename latest))) = Some m0 ->
  makedirs fs (strip dst) = inr made ->
  read_file made latest = inr text0 ->
  write_file made (dest_path dst m0) (rewritten src dst latest m0 text0)
  = inr written ->
  In status_completed (fst (clone_latest src dst answer fs))
  /\ snd (clone_latest src dst answer fs) = written.
Proof.
  intros Ha F1 F2 F3 F4 F5 Esel Hne Em Emk Er Ew.
  unfold dest_path, rewritten, src_token, dst_token in Ew.
  clone_cases src dst answer fs; cbn [fst snd app In];
    try discriminate Ha; try congruence;
    try (unfold select_highest_version in Esel; cbn [select_loop] in Esel;
         discriminate Esel);
    try (rewrite Esel in Hlatest; destruct latest; [now elim Hne|];
         discriminate Hlatest);
    rewrite Esel in *; cbn [the_str] in *;
    try congruence;
    rewrite Em in Hmatch; injection Hmatch as <-;
    try discriminate Emk; injection Emk as ->;
    rewrite Er in Hread; try discriminate Hread; injection Hread as <-;
    rewrite Ew in Hwrite; try discriminate Hwrite; injection Hwrite as <-;
    (split; [tauto | reflexivity]).
Qed.

Lemma source_kept src dst answer fs :
  names_ok fs = true ->
  (forall rest, resolve (strip dst) <> resolve (strip src) ++ rest) ->
  get (snd (clone_latest src dst answer fs)) (resolve (strip src))
  = get fs (resolve (strip src)).
Proof.
  intros Hn Hoff.
  clone_cases src dst answer fs; cbn [snd]; try reflexivity;
    try exact (mkdirs_off_path _ _ _ _ _ Hmk Hoff).
  all: destruct (truthy_some _ Hlatest) as [latest_ma [El _]];
    rewrite El in *; cbn [the_str] in *;
    pose proof (selected_is_candidate _ _ El) as Hc;
    pose proof (new_name_ok fs _ latest_ma m Hn Hc Hmatch) as Hnew';
    unfold write_file in Hwrite;
    rewrite (resolve_join _ _ Hnew') in Hwrite;
    rewrite <- (mkdirs_off_path _ _ _ _ _ Hmk Hoff);
    apply (put_file_off_path _ _ _ _ _ _ Hwrite);
    intros rest E;
    destruct (below_destination _ _ _ _ E Hoff) as [_ Es];
    apply orb_false_iff in Hsrc as [_ Hsrc];
    apply negb_false_iff in Hsrc; unfold isdir in Hsrc;
    destruct (get fs (resolve (strip src))) as [[t|es]|] eqn:G;
      try discriminate Hsrc;
    destruct (mkdirs_keeps_kind _ _ _ _ _ _ Hmk G) as (x1 & G1 & K1);
    destruct (put_file_keeps_kind _ _ _ _ _ _ _ Hwrite G1) as (x2 & G2 & K2);
    rewrite Es in G2; rewrite (put_file_get _ _ _ _ _ Hwrite) in G2;
    injection G2 as <-; rewrite K1 in K2; discriminate K2.
Qed.

(** X21. When the destination folder is typed without [..] and does not
    lie in the source folder (and is not the source folder), a run leaves
    the source folder and all that is below it exactly as it was, on a
    file system with proper entry names. *)
Theorem clone_latest_keeps_source (src dst : str) (answer : bool)
  (fs : fnode) :
  names_ok fs = true ->
  no_dotdot (strip dst) = true ->
  (forall rest, resolve (strip dst) <> resolve (strip src) ++ rest) ->
  forall rel,
    get (snd (clone_latest src dst answer fs)) (resolve (strip src) ++ rel)
    = get fs (resolve (strip src) ++ rel).
Proof.
  intros Hn _ Hoff rel. rewrite !get_app.
  now rewrite (source_kept src dst answer fs Hn Hoff).
Qed.

Lemma clone_latest_keeps_source_witness :
  get (snd (clone_latest scenario_src scenario_dst true scenario_fs))
      (resolve (strip scenario_src) ++ [lit "lighting_v003.ma"])
  = get scenario_fs (resolve (strip scenario_src) ++ [lit "lighting_v003.ma"]).
Proof.
  apply (clone_latest_keeps_source scenario_src scenario_dst true scenario_fs).
  - reflexivity.
  - reflexivity.
  - intros rest E. vm_compute in E. discriminate E.
Defined.

(** X22. A second run changes nothing: after a run that completed, with
    the destination folder not in the source folder, the same run with the
    answer yes completes again and leaves the file system as the first run
    left it. *)
Theorem clone_latest_twice (src dst : str) (answer : bool) (fs : fnode) :
  names_ok fs = true ->
  (forall rest, resolve (strip dst) <> resolve (strip src) ++ rest) ->
  In status_completed (fst (clone_latest src dst answer fs)) ->
  let fs' := snd (clone_latest src dst answer fs) in
  In status_completed (fst (clone_latest src dst true fs'))
  /\ snd (clone_latest src dst true fs') = fs'.
Proof.
  intros Hn Hoff Hdone fs'.
  pose proof (source_kept src dst answer fs Hn Hoff) as Hkept.
  fold fs' in Hkept.
  destruct (completed_run_facts src dst answer fs Hdone)
    as (F1 & F2 & F3 & F4 & F5 & latest & m & fs1 & content & fs2
        & Esel & Hne & Em & Emk & Er & Ew & Efs).
  fold fs' in Efs. subst fs2.
  assert (Eall : find_all_ma_files fs' (strip src)
                 = find_all_ma_files fs (strip src)).
  { unfold find_all_ma_files, os_walk. now rewrite Hkept. }
  pose proof (selected_is_candidate _ _ Esel) as Hc.
  pose proof (new_name_ok fs _ latest m Hn Hc Em) as Hnew'.
  assert (Edest : resolve (dest_path dst m)
                  = resolve (strip dst) ++ [group1 m ++ lit "_v001.ma"])
    by (unfold dest_path; now apply resolve_join).
  assert (Gdest : get fs' (resolve (dest_path dst m))
                  = Some (File (Some (rewritten src dst latest m content))))
    by exact (put_file_get _ _ _ _ _ Ew).
  assert (Emk' : makedirs fs' (strip dst) = inr fs').
  { unfold makedirs in *.
    destruct (mkdirs_makes_dir _ _ _ _ Emk) as [es G1].
    destruct (put_file_keeps_kind _ _ _ _ _ _ _ Ew G1) as (x2 & G2 & K2).
    destruct x2 as [t|es2]; [discriminate K2|].
    exact (mkdirs_existing _ _ _ _ G2). }
  assert (Er' : read_file fs' latest = inr content).
  { apply read_file_some in Er. apply read_file_some.
    destruct (collected_under_root fs (strip src) latest Hn Hc)
      as (rel & fn & Ep).
    rewrite Ep, get_app, Hkept, <- get_app, <- Ep.
    unfold makedirs in Emk.
    exact (mkdirs_no_new_file _ _ _ _ _ _ Emk Er). }
  assert (Ew' : write_file fs' (dest_path dst m)
                  (rewritten src dst latest m content) = inr fs')
    by exact (put_file_same _ _ _ _ Gdest).
  apply (run_completes src dst true fs' latest m fs' content fs');
    try assumption; try reflexivity.
  - apply orb_false_iff in F1 as [F1a F1b]. apply orb_false_iff.
    split; [exact F1a|]. unfold isdir in *. now rewrite Hkept.
  - now rewrite Eall.
Qed.

Lemma clone_latest_twice_witness :
  let fs' := snd (clone_latest scenario_src scenario_dst false scenario_fs) in
  In status_completed (fst (clone_latest scenario_src scenario_dst true fs'))
  /\ snd (clone_latest scenario_src scenario_dst true fs') = fs'.
Proof.
  apply (clone_latest_twice scenario_src scenario_dst false scenario_fs).
  - reflexivity.
  - intros rest E. vm_compute in E. discriminate E.
  - vm_compute. tauto.
Defined.

(** ** The one file of a run *)

(** X23. A run writes at most once, and what it writes is a file directly
    in the destination folder whose name ends in [_v001.ma]: a trace that
    holds a write is made of events that are no write, the write, and
    events that are no write; the written path is the destination folder
    joined with such a name, and on a file system with proper entry names
    that name is its base name and the path leads to that entry of the
    destination folder. *)
Theorem clone_latest_writes_one_v001 (src dst : str) (answer : bool)
  (fs : fnode) (p text : str) :
  In (WriteFile p text) (fst (clone_latest src dst answer fs)) ->
  (exists pre post,
      fst (clone_latest src dst answer fs) = pre ++ WriteFile p text :: post
      /\ (forall q u, ~ In (WriteFile q u) pre)
      /\ (forall q u, ~ In (WriteFile q u) post))
  /\ exists stem,
       p = path_join (strip dst) (stem ++ lit "_v001.ma")
       /\ (names_ok fs = true ->
           basename p = stem ++ lit "_v001.ma"
           /\ resolve p = resolve (strip dst) ++ [stem ++ lit "_v001.ma"]).
Proof.
  intros Hw.
  destruct (written_run src dst answer fs p text Hw)
    as (latest_ma & m & fs1 & content & pre & post & Hsel & Hm & _ & _ & _
        & Ep & _ & Etrace & Hpre & Hpost & _).
  split.
  - exists (pre ++ [ReadFile latest_ma]), post. split; [|split].
    + rewrite Etrace, <- app_assoc. reflexivity.
    + intros q u Hq. apply in_app_or in Hq as [Hq | Hq].
      * destruct Hpre as [-> | ->]; cbn [In] in Hq;
          repeat (destruct Hq as [Hq | Hq]); try discriminate Hq;
          contradiction.
      * cbn [In] in Hq. destruct Hq as [Hq | []]. discriminate Hq.
    + exact Hpost.
  - exists (group1 m). split; [exact Ep|]. intros Hn.
    pose proof (selected_is_candidate _ _ Hsel) as Hc.
    pose proof (new_name_ok fs _ latest_ma m Hn Hc Hm) as Hnew'.
    rewrite Ep. unfold dest_path. split.
    + apply basename_join. now apply name_ok_no_slash.
    + now apply resolve_join.
Qed.

Lemma clone_latest_writes_one_v001_witness :
  (exists pre post,
      fst (clone_latest scenario_src scenario_dst true scenario_fs)
      = pre ++ WriteFile
                 (lit "/show/ep_02/sq_020/sh_030/work/lighting_v001.ma")
                 (lit "file ep_02_sq_020_sh_030_lighting_v001; cache_v003")
               :: post
      /\ (forall q u, ~ In (WriteFile q u) pre)
      /\ (forall q u, ~ In (WriteFile q u) post))
  /\ exists stem,
       lit "/show/ep_02/sq_020/sh_030/work/lighting_v001.ma"
       = path_join (strip scenario_dst) (stem ++ lit "_v001.ma")
       /\ (names_ok scenario_fs = true ->
           basename (lit "/show/ep_02/sq_020/sh_030/work/lighting_v001.ma")
           = stem ++ lit "_v001.ma"
           /\ resolve (lit "/show/ep_02/sq_020/sh_030/work/lighting_v001.ma")
              = resolve (strip scenario_dst) ++ [stem ++ lit "_v001.ma"]).
Proof.
  apply (clone_latest_writes_one_v001 scenario_src scenario_dst true
           scenario_fs).
  vm_compute. tauto.
Defined.
